(** * BLI_mempool: a chunked pool allocator for elements of one size

    Shallow embedding of [blender/blenlib/intern/BLI_mempool.c].

    The C code threads its free list through the raw memory of the chunks it
    obtained from the backing allocator.  The embedding keeps that picture:

    - the backing allocator's memory is a [heap]: a finite map from chunk
      identifiers (the address of a malloc'd block) to the slots of the block;
    - a pointer to an element is the pair (chunk, slot index), the result of
      the pointer arithmetic [CHUNK_DATA(chunk) + esize * index];
    - the pool handle is the record [BLI_mempool];
    - every function returns [None] where the C program has no defined
      behaviour: a load or store outside a block that is currently allocated,
      a NULL dereference, a signed overflow, a division by zero.

    A slot is kept as the two leading words the pool reads and writes, the
    fields of [BLI_freenode]; the rest of an element is the client's alone.

    The build modelled is the one with [USE_TOTALLOC] and [USE_DATA_PTR]
    undefined (as in the source) on a little-endian LP64 target.  The
    assertions of debug builds ([BLI_assert]) are obligations of the caller
    and appear as hypotheses of the theorems, not as behaviour. *)

From stdpp Require Import base option numbers list sorting gmap.

(** ** C integers *)

Definition INT_MIN : Z := -2147483648.
Definition INT_MAX : Z := 2147483647.

(** The value of an [int] expression: signed overflow is undefined. *)
Definition int_of (z : Z) : option Z :=
  if decide (INT_MIN ≤ z ≤ INT_MAX)%Z then Some z else None.

(** [MAKE_ID], little-endian variant. *)
Definition MAKE_ID (a b c d : Z) : Z :=
  Z.lor (Z.lor (Z.lor (Z.shiftl d 24) (Z.shiftl c 16)) (Z.shiftl b 8)) a.

(** [FREEWORD] is [MAKE_ID('f', 'r', 'e', 'e')]. *)
Definition FREEWORD : Z := Eval cbv in MAKE_ID 102 114 101 101.

(** The literal [0x7FFFFFFF] that [BLI_mempool_alloc] writes into the tag. *)
Definition USEDWORD : Z := 2147483647.

(** Modelled from the spec: [BLI_mempool.h] is not among the sources; the
    flags are the two options of the flag bit-set, one bit each. *)
Definition BLI_MEMPOOL_SYSMALLOC : Z := 1.
Definition BLI_MEMPOOL_ALLOW_ITER : Z := 2.

(** [flag & BLI_MEMPOOL_ALLOW_ITER] as a C condition. *)
Definition allow_iter (flag : Z) : bool :=
  negb (Z.land flag BLI_MEMPOOL_ALLOW_ITER =? 0)%Z.

(** ** Memory *)

(** A non-NULL element pointer: chunk identifier and slot index. *)
Abbreviation slot := (nat * nat)%type (only parsing).

(** A C pointer to a slot; [None] is NULL. *)
Abbreviation ptr := (option (nat * nat)) (only parsing).

Record BLI_freenode : Type := mk_freenode {
  next : ptr;
  freeword : Z   (* used to identify this as a freed node *)
}.

(** [sizeof(void * )], [sizeof(BLI_freenode)] and [MEMPOOL_ELEM_SIZE_MIN]. *)
Definition sizeof_ptr : Z := 8.
Definition sizeof_BLI_freenode : Z := 16.
Definition MEMPOOL_ELEM_SIZE_MIN : Z := sizeof_ptr * 2.

(** Modelled from the spec: the backing allocator ([malloc] and [free], or
    [MEM_mallocN] and [MEM_freeN] of [MEM_guardedalloc.h]) is not among the
    sources; it is the collaborator with "allocate N bytes" and "free
    pointer", and which of the two is used makes no difference to callers.
    Its state is the blocks now allocated and the identifier the next block
    will get; identifiers are not reused, and an allocation does not fail. *)
Record heap : Type := mk_heap {
  brk : nat;
  blocks : gmap nat (list BLI_freenode)
}.

Record BLI_mempool : Type := mk_mempool {
  chunks : list nat;   (* ListBase chunks, first to last *)
  esize : Z;           (* element size in bytes *)
  csize : Z;           (* chunk size in bytes *)
  pchunk : Z;          (* number of elements per chunk *)
  flag : Z;
  free : ptr;          (* free element list. Interleaved into chunk datas. *)
  totused : Z          (* number of elements currently in use *)
}.

(** Modelled from the spec: the doubly linked list utility of [BLI_listbase.h]
    is not among the sources; it is the collaborator with "append node" and
    "remove node".  The chunk list is the list of its nodes, first to last, a
    link is a chunk or NULL, and a NULL link is left alone. *)
Definition BLI_addtail (listbase : list nat) (vlink : option nat) : list nat :=
  match vlink with
  | Some c => listbase ++ [c]
  | None => listbase
  end.

Fixpoint remove_node (listbase : list nat) (c : nat) : list nat :=
  match listbase with
  | [] => []
  | x :: l => if decide (x = c) then l else x :: remove_node l c
  end.

Definition BLI_remlink (listbase : list nat) (vlink : option nat) : list nat :=
  match vlink with
  | Some c => remove_node listbase c
  | None => listbase
  end.

Definition set_chunks (pool : BLI_mempool) (cs : list nat) : BLI_mempool :=
  mk_mempool cs (esize pool) (csize pool) (pchunk pool) (flag pool)
             (free pool) (totused pool).

Definition set_free (pool : BLI_mempool) (p : ptr) : BLI_mempool :=
  mk_mempool (chunks pool) (esize pool) (csize pool) (pchunk pool) (flag pool)
             p (totused pool).

Definition set_totused (pool : BLI_mempool) (n : Z) : BLI_mempool :=
  mk_mempool (chunks pool) (esize pool) (csize pool) (pchunk pool) (flag pool)
             (free pool) n.

(** Reading the node at [a]: defined inside an allocated block only. *)
Definition load (h : heap) (a : slot) : option BLI_freenode :=
  blk ← blocks h !! a.1; blk !! a.2.

Definition store (h : heap) (a : slot) (nd : BLI_freenode) : option heap :=
  blk ← blocks h !! a.1;
  if decide (a.2 < length blk)
  then Some (mk_heap (brk h) (<[a.1 := <[a.2 := nd]> blk]> (blocks h)))
  else None.

(** [a->next = v] *)
Definition store_next (h : heap) (a : slot) (v : ptr) : option heap :=
  nd ← load h a; store h a (mk_freenode v (freeword nd)).

(** [a->freeword = w] *)
Definition store_freeword (h : heap) (a : slot) (w : Z) : option heap :=
  nd ← load h a; store h a (mk_freenode (next nd) w).

(** The free list as the C code walks it: follow [next] from [p] to NULL. *)
Inductive chain (h : heap) : ptr → list slot → Prop :=
  | chain_nil : chain h None []
  | chain_cons a nd l :
      load h a = Some nd → chain h (next nd) l → chain h (Some a) (a :: l).

Fixpoint walk (fuel : nat) (h : heap) (p : ptr) : option (list slot) :=
  match p with
  | None => Some []
  | Some a =>
      match fuel with
      | O => None
      | S fuel' => nd ← load h a; (a ::.) <$> walk fuel' h (next nd)
      end
  end.

(** The slots of chunk [c], in slot order. *)
Definition chunk_slots (n : nat) (c : nat) : list slot := (c ,.) <$> seq 0 n.

(** ** The pool *)

Section Mempool.

(** What a block holds when the allocator hands it out is not determined. *)
Variable garbage : nat → nat → BLI_freenode.

(** Whole slots of [esize] bytes in a block of [csize] bytes. *)
Definition chunk_len (pool : BLI_mempool) : nat :=
  Z.to_nat (csize pool ÷ esize pool)%Z.

(** [mempool_chunk_alloc]: a fresh, uninitialised block. *)
Definition mempool_chunk_alloc (h : heap) (pool : BLI_mempool) : nat * heap :=
  let mpchunk := brk h in
  (mpchunk,
   mk_heap (S mpchunk)
           (<[mpchunk := garbage mpchunk <$> seq 0 (chunk_len pool)]> (blocks h))).

(** The [for] loop of [mempool_chunk_add]; [n] iterations are left, [j] is
    the loop counter. *)
Fixpoint chunk_add_loop (n : nat) (j : nat) (iter : bool) (pchunk_last : Z)
    (mpchunk : nat) (h : heap) (curnode : ptr) : option (heap * ptr) :=
  match n with
  | O => Some (h, curnode)
  | S n' =>
      let cur := (mpchunk, j) in
      let addr := (mpchunk, S j) in
      h1 ← store_next h cur (Some addr);
      h2 ← (if iter then
              h' ← (if decide (Z.of_nat j ≠ pchunk_last)
                     then store_freeword h1 addr FREEWORD else Some h1);
              store_freeword h' cur FREEWORD
            else Some h1);
      chunk_add_loop n' (S j) iter pchunk_last mpchunk h2 (Some cur)
  end.

(** [mempool_chunk_add]: initialise a chunk and add it into [pool->chunks];
    returns the last slot of the chunk. *)
Definition mempool_chunk_add (h : heap) (pool : BLI_mempool) (mpchunk : nat)
    (lasttail : ptr) : option (heap * BLI_mempool * ptr) :=
  pchunk_last ← int_of (pchunk pool - 1)%Z;
  let iter := allow_iter (flag pool) in
  (* mpchunk->next = mpchunk->prev = NULL *)
  let pool := set_chunks pool (BLI_addtail (chunks pool) (Some mpchunk)) in
  '(h, pool) ← match free pool with
               | None =>
                   let pool := set_free pool (Some (mpchunk, 0)) in
                   h ← (if iter then store_freeword h (mpchunk, 0) FREEWORD
                        else Some h);
                   Some (h, pool)
               | Some _ => Some (h, pool)
               end;
  '(h, curnode) ← chunk_add_loop (Z.to_nat (pchunk_last + 1)%Z) 0 iter
                                 pchunk_last mpchunk h None;
  (* terminate the list *)
  cur ← curnode;
  h ← store_next h cur None;
  (* final pointer in the previously allocated chunk is wrong *)
  h ← match lasttail with
      | Some lt =>
          h ← store_next h lt (Some (mpchunk, 0));
          if iter then store_freeword h lt FREEWORD else Some h
      | None => Some h
      end;
  Some (h, pool, curnode).

(** [mempool_chunk_free_all]: every chunk of the list goes back to the
    allocator. *)
Fixpoint free_chunks (cs : list nat) (h : heap) : option heap :=
  match cs with
  | [] => Some h
  | c :: cs' =>
      _ ← blocks h !! c;
      free_chunks cs' (mk_heap (brk h) (delete c (blocks h)))
  end.

Definition mempool_chunk_free_all (h : heap) (pool : BLI_mempool)
    : option (heap * BLI_mempool) :=
  h ← free_chunks (chunks pool) h;
  Some (h, set_chunks pool []).

(** The chunk loop of [BLI_mempool_create]. *)
Fixpoint create_loop (n : nat) (h : heap) (pool : BLI_mempool)
    (lasttail : ptr) : option (heap * BLI_mempool * ptr) :=
  match n with
  | O => Some (h, pool, lasttail)
  | S n' =>
      let '(mpchunk, h) := mempool_chunk_alloc h pool in
      '(h, pool, curnode) ← mempool_chunk_add h pool mpchunk lasttail;
      (* set the end of this chunks memory to the new tail for next iteration *)
      create_loop n' h pool curnode
  end.

Definition BLI_mempool_create (h : heap) (esize totelem pchunk flag : Z)
    : option (heap * BLI_mempool) :=
  (* set the elem size *)
  let esize := if decide (esize < MEMPOOL_ELEM_SIZE_MIN)%Z
               then MEMPOOL_ELEM_SIZE_MIN else esize in
  let pool_esize := if allow_iter flag
                    then Z.max esize sizeof_BLI_freenode else esize in
  csize ← int_of (esize * pchunk)%Z;
  let pool := mk_mempool [] pool_esize csize pchunk flag None 0%Z in
  q ← (if decide (pchunk = 0%Z) then None else int_of (totelem ÷ pchunk)%Z);
  maxchunks ← int_of (q + 1)%Z;
  let maxchunks := if decide (maxchunks = 0%Z) then 1%Z else maxchunks in
  (* allocate the actual chunks *)
  '(h, pool, _) ← create_loop (Z.to_nat maxchunks) h pool None;
  Some (h, pool).

Definition BLI_mempool_alloc (h : heap) (pool : BLI_mempool)
    : option (heap * BLI_mempool * ptr) :=
  tot ← int_of (totused pool + 1)%Z;
  let pool := set_totused pool tot in
  '(h, pool) ← match free pool with
               | None =>
                   (* need to allocate a new chunk *)
                   let '(mpchunk, h) := mempool_chunk_alloc h pool in
                   '(h, pool, _) ← mempool_chunk_add h pool mpchunk None;
                   Some (h, pool)
               | Some _ => Some (h, pool)
               end;
  let retval := free pool in
  hd ← free pool;
  h ← (if allow_iter (flag pool) then store_freeword h hd USEDWORD
       else Some h);
  nd ← load h hd;
  Some (h, set_free pool (next nd), retval).

(** The re-threading loop of the shrink in [BLI_mempool_free]. *)
Fixpoint rethread_loop (n : nat) (i : nat) (first : nat) (h : heap)
    (curnode : ptr) : option (heap * ptr) :=
  match n with
  | O => Some (h, curnode)
  | S n' =>
      let cur := (first, i) in
      h ← store_next h cur (Some (first, S i));
      rethread_loop n' (S i) first h (Some cur)
  end.

(** The block of [BLI_mempool_free] under [if (pool->totused == 0)]:
    free all the chunks except the first. *)
Definition free_shrink (h : heap) (pool : BLI_mempool)
    : option (heap * BLI_mempool) :=
  let first := head (chunks pool) in
  let pool := set_chunks pool (BLI_remlink (chunks pool) first) in
  '(h, pool) ← mempool_chunk_free_all h pool;
  let pool := set_chunks pool (BLI_addtail (chunks pool) first) in
  (* CHUNK_DATA(first) *)
  first ← first;
  let pool := set_free pool (Some (first, 0)) in
  '(h, curnode) ← rethread_loop (Z.to_nat (pchunk pool)) 0 first h None;
  cur ← curnode;
  (* terminate the list *)
  h ← store_next h cur None;
  Some (h, pool).

Definition BLI_mempool_free (h : heap) (pool : BLI_mempool) (addr : slot)
    : option (heap * BLI_mempool) :=
  let newhead := addr in
  h ← (if allow_iter (flag pool) then store_freeword h newhead FREEWORD
       else Some h);
  h ← store_next h newhead (free pool);
  let pool := set_free pool (Some newhead) in
  tot ← int_of (totused pool - 1)%Z;
  let pool := set_totused pool tot in
  (* nothing is in use; free all the chunks except the first *)
  if decide (tot = 0%Z) then free_shrink h pool else Some (h, pool).

Definition BLI_mempool_count (pool : BLI_mempool) : Z := totused pool.

(** Modelled from the spec: [BLI_mempool.h], which declares the iterator,
    is not among the sources; the iterator is a cursor of "two pieces of
    state: current chunk reference, current in-chunk index".  [curchunk]
    points into the chunk list, so it is the part of the list that starts at
    that chunk ([[]] is NULL), and [curchunk->next] is its tail. *)
Record BLI_mempool_iter : Type := mk_iter {
  curchunk : list nat;
  curindex : Z
}.

Definition BLI_mempool_iternew (pool : BLI_mempool) : BLI_mempool_iter :=
  mk_iter (chunks pool) 0%Z.

(** The [do ... while] of [BLI_mempool_iterstep]. *)
Fixpoint iterstep_loop (fuel : nat) (h : heap) (pool : BLI_mempool)
    (iter : BLI_mempool_iter) : option (ptr * BLI_mempool_iter) :=
  match fuel with
  | O => None
  | S fuel' =>
      match curchunk iter with
      | [] => Some (None, iter)
      | c :: rest =>
          (* CHUNK_DATA(iter->curchunk) + iter->pool->esize * iter->curindex *)
          _ ← int_of (esize pool * curindex iter)%Z;
          let ret := (c, Z.to_nat (curindex iter)) in
          idx ← int_of (curindex iter + 1)%Z;
          let iter := if decide (idx >= pchunk pool)%Z
                      then mk_iter rest 0%Z else mk_iter (c :: rest) idx in
          nd ← load h ret;
          if decide (freeword nd = FREEWORD)
          then iterstep_loop fuel' h pool iter
          else Some (Some ret, iter)
      end
  end.

(** The cursor moves forward at every turn of the loop, so the slots that
    remain in front of it bound the number of turns. *)
Definition iterstep_fuel (pool : BLI_mempool) (iter : BLI_mempool_iter) : nat :=
  S (length (curchunk iter) * Z.to_nat (Z.max 1 (pchunk pool))).

Definition BLI_mempool_iterstep (h : heap) (pool : BLI_mempool)
    (iter : BLI_mempool_iter) : option (ptr * BLI_mempool_iter) :=
  if decide (totused pool = 0%Z) then Some (None, iter)
  else iterstep_loop (iterstep_fuel pool iter) h pool iter.

(** [BLI_mempool_as_table]: the [while] loop that steps the iterator until it
    returns NULL; the table filled in is the result. *)
Fixpoint as_table_loop (fuel : nat) (h : heap) (pool : BLI_mempool)
    (iter : BLI_mempool_iter) : option (list slot) :=
  match fuel with
  | O => None
  | S fuel' =>
      '(elem, iter) ← BLI_mempool_iterstep h pool iter;
      match elem with
      | None => Some []
      | Some a => (a ::.) <$> as_table_loop fuel' h pool iter
      end
  end.

Definition BLI_mempool_as_table (h : heap) (pool : BLI_mempool)
    : option (list slot) :=
  as_table_loop (S (length (chunks pool) * Z.to_nat (Z.max 1 (pchunk pool))))
                h pool (BLI_mempool_iternew pool).

(** The [for] loop of [BLI_mempool_findelem]: [index-- != 0] holds [n]
    times. *)
Fixpoint findelem_loop (n : nat) (h : heap) (pool : BLI_mempool) (elem : ptr)
    (iter : BLI_mempool_iter) : option ptr :=
  match n with
  | O => Some elem
  | S n' =>
      '(elem, iter) ← BLI_mempool_iterstep h pool iter;
      findelem_loop n' h pool elem iter
  end.

Definition BLI_mempool_findelem (h : heap) (pool : BLI_mempool) (index : Z)
    : option ptr :=
  if decide (index >= 0 ∧ index < totused pool)%Z then
    let iter := BLI_mempool_iternew pool in
    '(elem, iter) ← BLI_mempool_iterstep h pool iter;
    findelem_loop (Z.to_nat index) h pool elem iter
  else Some None.

Definition BLI_mempool_clear (h : heap) (pool : BLI_mempool)
    : option (heap * BLI_mempool) :=
  let first := head (chunks pool) in
  let pool := set_chunks pool (BLI_remlink (chunks pool) first) in
  '(h, pool) ← mempool_chunk_free_all h pool;
  (* important for re-initializing *)
  let pool := set_totused pool 0%Z in
  let pool := set_free pool None in
  first ← first;
  '(h, pool, _) ← mempool_chunk_add h pool first None;
  Some (h, pool).

(** [BLI_mempool_calloc]: [memset(retval, 0, esize)] after the allocation.
    The two leading words of the element are among the bytes set, and the
    pointer of all zero bits is NULL. *)
Definition BLI_mempool_calloc (h : heap) (pool : BLI_mempool)
    : option (heap * BLI_mempool * ptr) :=
  '(h, pool, retval) ← BLI_mempool_alloc h pool;
  a ← retval;
  h ← store h a (mk_freenode None 0%Z);
  Some (h, pool, retval).


(** *** Tables and arrays for the caller *)

(** [(size_t)z]: the conversion of an [int] to the unsigned type of 64
    bits. *)
Definition size_t_of (z : Z) : Z := (z mod 2 ^ 64)%Z.

(** A block of [bytes] bytes as the allocator hands it out, seen as an array
    of entries of [size] bytes each.  It belongs to the caller; an entry is
    [None] until it is written. *)
Definition uninitialised {A : Type} (bytes size : Z) : list (option A) :=
  replicate (Z.to_nat (bytes ÷ size)%Z) None.

(** The stores [*p++ = elem] of [BLI_mempool_as_table] for the elements [l]
    it steps through, [p] at entry [i] of [data]; a store behind the end of
    [data] is undefined. *)
Fixpoint table_fill (data : list (option (nat * nat))) (i : nat)
    (l : list slot) : option (list (option (nat * nat))) :=
  match l with
  | [] => Some data
  | a :: l' =>
      if decide (i < length data)
      then table_fill (<[i := Some a]> data) (S i) l'
      else None
  end.

(** [BLI_mempool_as_tableN]: [BLI_mempool_as_table] into a block of
    [(size_t)pool->totused * sizeof(void * )] bytes. *)
Definition BLI_mempool_as_tableN (h : heap) (pool : BLI_mempool)
    : option (list (option (nat * nat))) :=
  let data :=
    uninitialised (size_t_of (size_t_of (totused pool) * sizeof_ptr)) sizeof_ptr in
  l ← BLI_mempool_as_table h pool;
  table_fill data 0 l.

(** The [while] loop of [BLI_mempool_as_array]: [memcpy(p, elem, esize)] and
    [p += esize] for every element the iterator returns; [p] counts in
    elements. *)
Fixpoint as_array_loop (fuel : nat) (h : heap) (pool : BLI_mempool)
    (iter : BLI_mempool_iter) (data : list (option BLI_freenode)) (p : nat)
    : option (list (option BLI_freenode)) :=
  match fuel with
  | O => None
  | S fuel' =>
      '(elem, iter) ← BLI_mempool_iterstep h pool iter;
      match elem with
      | None => Some data
      | Some a =>
          nd ← load h a;
          if decide (p < length data)
          then as_array_loop fuel' h pool iter (<[p := Some nd]> data) (S p)
          else None
      end
  end.

Definition BLI_mempool_as_array (h : heap) (pool : BLI_mempool)
    (data : list (option BLI_freenode)) : option (list (option BLI_freenode)) :=
  as_array_loop (S (length (chunks pool) * Z.to_nat (Z.max 1 (pchunk pool))))
                h pool (BLI_mempool_iternew pool) data 0.

(** [BLI_mempool_as_arrayN]: [BLI_mempool_as_array] into a block of
    [(size_t)(pool->totused * pool->esize)] bytes; the product is an [int]. *)
Definition BLI_mempool_as_arrayN (h : heap) (pool : BLI_mempool)
    : option (list (option BLI_freenode)) :=
  bytes ← int_of (totused pool * esize pool)%Z;
  BLI_mempool_as_array h pool (uninitialised (size_t_of bytes) (esize pool)).

(** *** The iterator before it was optimised *)




(** ** Clients *)

(** One step of a client.  [Free a] hands back the reference [a];
    [Write a nd] stores data of its own into the element [a], which replaces
    the two leading words by [nd]. *)
Inductive op : Type :=
  | Alloc
  | Free (a : slot)
  | Clear
  | Write (a : slot) (nd : BLI_freenode).

(** A run of client steps.  Next to the memory it keeps the references lent
    to the client: those returned by [BLI_mempool_alloc] and not handed back
    since.  Handing back or writing through a reference the client does not
    hold is misuse and ends the run; so does, on a pool with iteration
    enabled, data that has the free tag where the pool keeps its tag (the
    pool cannot tell such an element from a free slot). *)
Fixpoint run (ops : list op) (h : heap) (pool : BLI_mempool)
    (lent : list slot) : option (heap * BLI_mempool * list slot) :=
  match ops with
  | [] => Some (h, pool, lent)
  | Alloc :: ops' =>
      '(h, pool, r) ← BLI_mempool_alloc h pool;
      a ← r;
      run ops' h pool (a :: lent)
  | Free a :: ops' =>
      if decide (a ∈ lent) then
        '(h, pool) ← BLI_mempool_free h pool a;
        run ops' h pool (filter (λ b, b ≠ a) lent)
      else None
  | Clear :: ops' =>
      '(h, pool) ← BLI_mempool_clear h pool;
      run ops' h pool []
  | Write a nd :: ops' =>
      if decide (a ∈ lent ∧
                 (allow_iter (flag pool) = true → freeword nd ≠ FREEWORD)) then
        h ← store h a nd;
        run ops' h pool lent
      else None
  end.

(** Allocations minus frees; [Clear] starts the count again. *)
Definition net_step (n : Z) (o : op) : Z :=
  match o with
  | Alloc => (n + 1)%Z
  | Free _ => (n - 1)%Z
  | Clear => 0%Z
  | Write _ _ => n
  end.

Definition net (ops : list op) : Z := foldl net_step 0%Z ops.

End Mempool.

(** * Specification notions *)

Definition nxt (h : heap) (a : slot) : option ptr := next <$> load h a.
Definition tag (h : heap) (a : slot) : option Z := freeword <$> load h a.

(** Same blocks of the same sizes. *)
Definition same_shape (h h' : heap) : Prop :=
  brk h' = brk h ∧ ∀ c, length <$> blocks h' !! c = length <$> blocks h !! c.

(** [h'] is [h] with the node at [a] replaced by [nd]. *)
Definition updated (h : heap) (a : slot) (nd : BLI_freenode) (h' : heap) : Prop :=
  same_shape h h' ∧ load h' a = Some nd ∧ ∀ b, b ≠ a → load h' b = load h b.

(** A chunk whose slots are linked in slot order, the last one to [q]. *)
Definition threaded (h : heap) (c : nat) (n : nat) (q : ptr) : Prop :=
  ∀ i, i < n →
    nxt h (c, i) = Some (if decide (S i < n) then Some (c, S i) else q).

(** Every slot of every chunk, in chunk order, then slot order. *)
Definition all_slots (pool : BLI_mempool) : list slot :=
  chunks pool ≫= chunk_slots (Z.to_nat (pchunk pool)).

(** Memory and handle agree.  [lent] are the references the client holds
    and [fl] is the free list, in the order the links give. *)
Record inv (h : heap) (pool : BLI_mempool) (lent fl : list slot) : Prop := mk_inv {
  inv_pchunk : (1 ≤ pchunk pool ≤ INT_MAX)%Z;
  inv_esize : (MEMPOOL_ELEM_SIZE_MIN ≤ esize pool)%Z;
  inv_csize : csize pool = (esize pool * pchunk pool)%Z;
  inv_csize_max : (csize pool ≤ INT_MAX)%Z;
  inv_sorted : StronglySorted lt (chunks pool);
  inv_brk : ∀ c, c ∈ chunks pool → c < brk h;
  inv_dom : ∀ c, is_Some (blocks h !! c) ↔ c ∈ chunks pool;
  inv_blk : ∀ c blk,
    blocks h !! c = Some blk → length blk = Z.to_nat (pchunk pool);
  inv_chain : chain h (free pool) fl;
  inv_nodup : NoDup (fl ++ lent);
  inv_cover : ∀ a, is_Some (load h a) ↔ a ∈ fl ∨ a ∈ lent;
  inv_tags : allow_iter (flag pool) = true →
    (∀ a, a ∈ fl → tag h a = Some FREEWORD) ∧
    (∀ a, a ∈ lent → ∃ w, tag h a = Some w ∧ w ≠ FREEWORD)
}.

(** The invariant of a pool in use: it has a first chunk, and [totused],
    an [int], counts the references lent. *)
Definition wf (h : heap) (pool : BLI_mempool) (lent fl : list slot) : Prop :=
  inv h pool lent fl ∧ chunks pool ≠ [] ∧
  totused pool = Z.of_nat (length lent) ∧ (totused pool ≤ INT_MAX)%Z.

(** The element size the pool keeps: at least [MEMPOOL_ELEM_SIZE_MIN]. *)
Definition create_esize (esize : Z) : Z := Z.max esize MEMPOOL_ELEM_SIZE_MIN.

(** The number of chunks [BLI_mempool_create] makes. *)
Definition create_maxchunks (totelem pchunk : Z) : Z := (totelem ÷ pchunk + 1)%Z.

(** The slots in front of the cursor, in the order the cursor visits them. *)
Definition iter_rest (pool : BLI_mempool) (iter : BLI_mempool_iter) : list slot :=
  match curchunk iter with
  | [] => []
  | c :: rest =>
      ((c ,.) <$> seq (Z.to_nat (curindex iter))
                      (Z.to_nat (pchunk pool) - Z.to_nat (curindex iter)))
      ++ (rest ≫= chunk_slots (Z.to_nat (pchunk pool)))
  end.

(** The cursor is inside its chunk. *)
Definition iter_ok (pool : BLI_mempool) (iter : BLI_mempool_iter) : Prop :=
  curchunk iter = [] ∨ (0 ≤ curindex iter < pchunk pool)%Z.

(** A slot that does not carry the free tag. *)
Definition untagged (h : heap) (a : slot) : Prop := tag h a ≠ Some FREEWORD.

#[local] Instance untagged_dec h a : Decision (untagged h a).
Proof. unfold untagged. apply _. Defined.

(** The lent references in the order of iteration: chunk order, then slot
    order. *)
Definition lent_in_order (pool : BLI_mempool) (lent : list slot) : list slot :=
  filter (λ a, a ∈ lent) (all_slots pool).

(** A pool as [BLI_mempool_create] returns it, for an estimate that is not
    negative and chunks of at least one element. *)
Definition created (garbage : nat → nat → BLI_freenode) (h : heap)
    (pool : BLI_mempool) : Prop :=
  ∃ b esize totelem pchunk flag,
    (0 ≤ totelem)%Z ∧ (1 ≤ pchunk)%Z ∧
    BLI_mempool_create garbage (mk_heap b ∅) esize totelem pchunk flag
      = Some (h, pool).

(** The state after the client calls [ops] on a created pool; [lent] are the
    references the client holds then. *)
Definition reached (garbage : nat → nat → BLI_freenode) (ops : list op)
    (h : heap) (pool : BLI_mempool) (lent : list slot) : Prop :=
  ∃ h0 pool0,
    created garbage h0 pool0 ∧
    run garbage ops h0 pool0 [] = Some (h, pool, lent).

(** The number of chunks as the specification words it: the estimate divided
    by the chunk length, rounded up, and at least 1. *)
Definition spec_chunks_needed (totelem pchunk : Z) : Z :=
  Z.max ((totelem + pchunk - 1) / pchunk) 1.

(** The slot of element number [i] when chunks of [p] slots, numbered from
    [b] on, are filled one after the other. *)
Definition slot_at (b p i : nat) : nat * nat := (b + i / p, i mod p).

(** The number of slots the pool has. *)
Definition capacity (pool : BLI_mempool) : nat :=
  length (chunks pool) * Z.to_nat (pchunk pool).

(** * Concrete runs *)

(** A block handed out with all words zero. *)
Definition no_garbage : nat → nat → BLI_freenode := λ _ _, mk_freenode None 0.

Definition no_pool : BLI_mempool := mk_mempool [] 0 0 0 0 None 0.

(** The state after the calls [ops] on the pool created, from the empty heap,
    for elements of 16 bytes with iteration enabled. *)
Definition state_after (totelem pchunk : Z) (ops : list op)
    : heap * BLI_mempool * list slot :=
  default (mk_heap 0 ∅, no_pool, [])
    ('(h, pool) ← BLI_mempool_create no_garbage (mk_heap 0 ∅) 16 totelem
                                     pchunk BLI_MEMPOOL_ALLOW_ITER;
     run no_garbage ops h pool []).

(** The same for elements of 16 bytes on a pool without iteration. *)
Definition plain_state_after (totelem pchunk : Z) (ops : list op)
    : heap * BLI_mempool * list slot :=
  default (mk_heap 0 ∅, no_pool, [])
    ('(h, pool) ← BLI_mempool_create no_garbage (mk_heap 0 ∅) 16 totelem
                                     pchunk 0;
     run no_garbage ops h pool []).

(** What [BLI_mempool_alloc], [BLI_mempool_free] and [BLI_mempool_clear]
    return on a state. *)
Definition alloc_on (st : heap * BLI_mempool * list slot)
    : heap * BLI_mempool * ptr :=
  default (mk_heap 0 ∅, no_pool, None)
          (BLI_mempool_alloc no_garbage st.1.1 st.1.2).

Definition free_on (st : heap * BLI_mempool * list slot) (a : slot)
    : heap * BLI_mempool :=
  default (mk_heap 0 ∅, no_pool) (BLI_mempool_free st.1.1 st.1.2 a).

Definition clear_on (st : heap * BLI_mempool * list slot)
    : heap * BLI_mempool :=
  default (mk_heap 0 ∅, no_pool) (BLI_mempool_clear st.1.1 st.1.2).

(** The memory after a store of [nd] into the element [a]. *)
Definition write_on (h : heap) (a : slot) (nd : BLI_freenode) : heap :=
  default (mk_heap 0 ∅) (store h a nd).

(** The scenario of the specification: an estimate of 4 elements, 4 elements
    in a chunk; six allocations, data stored into the third element, then the
    second and the fourth reference are freed. *)
Definition scenario_ops : list op :=
  [Alloc; Alloc; Alloc; Alloc; Alloc; Alloc;
   Write (0, 2) (mk_freenode (Some (7, 7)) 1234);
   Free (0, 1); Free (0, 3)].

Definition scenario : heap * BLI_mempool * list slot :=
  state_after 4 4 scenario_ops.

(** The clear-releases-everything reading of the specification: every chunk
    of the pool, the first one too, is released, and the one chunk the pool
    has afterwards is a new one. *)
Definition spec_clear_releases_all (pool : BLI_mempool) (h' : heap)
    (pool' : BLI_mempool) : Prop :=
  (∀ c, c ∈ chunks pool → blocks h' !! c = None) ∧
  ∃ c', chunks pool' = [c'] ∧ c' ∉ chunks pool.

(** * Proofs *)

Section Proofs.

Variable garbage : nat → nat → BLI_freenode.

(** ** Loads and stores *)

Lemma same_shape_refl h : same_shape h h.
Proof. by split. Qed.

Lemma same_shape_trans h1 h2 h3 :
  same_shape h1 h2 → same_shape h2 h3 → same_shape h1 h3.
Proof. intros [E1 L1] [E2 L2]. split; [congruence|]. intros c. by rewrite L2. Qed.

Lemma same_shape_block h h' c :
  same_shape h h' → is_Some (blocks h' !! c) ↔ is_Some (blocks h !! c).
Proof.
  intros [_ L]. specialize (L c). rewrite <-!(fmap_is_Some length), L. done.
Qed.

Lemma same_shape_length h h' c blk :
  same_shape h h' → blocks h' !! c = Some blk →
  ∃ blk0, blocks h !! c = Some blk0 ∧ length blk0 = length blk.
Proof.
  intros [_ L] E. specialize (L c). rewrite E in L. simpl in L.
  destruct (blocks h !! c) as [blk0|]; simplify_eq/=. eauto.
Qed.

Lemma load_Some h a nd :
  load h a = Some nd ↔ ∃ blk, blocks h !! a.1 = Some blk ∧ blk !! a.2 = Some nd.
Proof. unfold load. by rewrite bind_Some. Qed.

Lemma load_is_Some h a :
  is_Some (load h a) ↔ ∃ blk, blocks h !! a.1 = Some blk ∧ a.2 < length blk.
Proof.
  split.
  - intros [nd (blk & E1 & E2)%load_Some]. exists blk. split; [done|].
    by eapply lookup_lt_Some.
  - intros (blk & E1 & [nd E2]%lookup_lt_is_Some). exists nd.
    apply load_Some. eauto.
Qed.

Lemma same_shape_load h h' a :
  same_shape h h' → is_Some (load h' a) ↔ is_Some (load h a).
Proof.
  intros [_ L]. rewrite !load_is_Some. specialize (L a.1).
  split; intros (blk & E & Hlt); rewrite E in L; simpl in L.
  - destruct (blocks h !! a.1) as [blk0|]; simplify_eq/=.
    exists blk0. split; [done|lia].
  - destruct (blocks h' !! a.1) as [blk0|]; simplify_eq/=.
    exists blk0. split; [done|lia].
Qed.

Lemma store_Some h a nd h' :
  store h a nd = Some h' → is_Some (load h a) ∧ updated h a nd h'.
Proof.
  unfold store. intros (blk & E & H)%bind_Some. case_decide; simplify_eq.
  split; [apply load_is_Some; eauto|]. split; [split|split]; simpl.
  - done.
  - intros c. destruct (decide (c = a.1)) as [->|].
    + by rewrite lookup_insert_eq, E; simpl; rewrite length_insert.
    + by rewrite lookup_insert_ne.
  - apply load_Some. exists (<[a.2:=nd]> blk); simpl.
    split; [apply lookup_insert_eq|]. by apply list_lookup_insert_eq.
  - intros [c i] Hne. unfold load; simpl.
    destruct (decide (c = a.1)) as [->|].
    + rewrite lookup_insert_eq, E; simpl. apply list_lookup_insert_ne.
      destruct a; simpl in *; congruence.
    + by rewrite lookup_insert_ne.
Qed.

Lemma store_is_Some h a nd : is_Some (load h a) → is_Some (store h a nd).
Proof.
  intros (blk & E & Hlt)%load_is_Some. unfold store. rewrite E; simpl.
  by rewrite decide_True.
Qed.

Lemma store_next_Some h a v h' :
  store_next h a v = Some h' →
  ∃ nd, load h a = Some nd ∧ updated h a (mk_freenode v (freeword nd)) h'.
Proof.
  unfold store_next. intros (nd & E & [_ H]%store_Some)%bind_Some. eauto.
Qed.

Lemma store_next_is_Some h a v : is_Some (load h a) → is_Some (store_next h a v).
Proof.
  intros [nd E]. unfold store_next. rewrite E; simpl.
  apply store_is_Some. eauto.
Qed.

Lemma store_freeword_Some h a w h' :
  store_freeword h a w = Some h' →
  ∃ nd, load h a = Some nd ∧ updated h a (mk_freenode (next nd) w) h'.
Proof.
  unfold store_freeword. intros (nd & E & [_ H]%store_Some)%bind_Some. eauto.
Qed.

Lemma store_freeword_is_Some h a w :
  is_Some (load h a) → is_Some (store_freeword h a w).
Proof.
  intros [nd E]. unfold store_freeword. rewrite E; simpl.
  apply store_is_Some. eauto.
Qed.

(** What a store leaves alone. *)
Lemma updated_shape h a nd h' : updated h a nd h' → same_shape h h'.
Proof. by intros [? _]. Qed.

Lemma updated_nxt_ne h a nd h' b :
  updated h a nd h' → b ≠ a → nxt h' b = nxt h b.
Proof. intros (_ & _ & H) Hne. unfold nxt. by rewrite H. Qed.

Lemma updated_tag_ne h a nd h' b :
  updated h a nd h' → b ≠ a → tag h' b = tag h b.
Proof. intros (_ & _ & H) Hne. unfold tag. by rewrite H. Qed.

Lemma updated_nxt_eq h a nd h' : updated h a nd h' → nxt h' a = Some (next nd).
Proof. intros (_ & H & _). unfold nxt. by rewrite H. Qed.

Lemma updated_tag_eq h a nd h' : updated h a nd h' → tag h' a = Some (freeword nd).
Proof. intros (_ & H & _). unfold tag. by rewrite H. Qed.

(** ** The free list *)

Lemma chain_inj h p l1 l2 : chain h p l1 → chain h p l2 → l1 = l2.
Proof.
  intros H; revert l2. induction H as [|a nd l E _ IH]; intros l2 H2.
  - by inversion H2.
  - inversion H2; simplify_eq. f_equal. by apply IH.
Qed.

(** The walk depends on the [next] fields of the list's own nodes only. *)
Lemma chain_frame h h' p l :
  chain h p l → (∀ a, a ∈ l → nxt h' a = nxt h a) → chain h' p l.
Proof.
  induction 1 as [|a nd l E _ IH]; intros Hf; [constructor|].
  pose proof (Hf a ltac:(left)) as Ha. unfold nxt in Ha. rewrite E in Ha.
  apply fmap_Some in Ha as (nd' & E' & Hn).
  apply chain_cons with nd'; [done|]. rewrite <-Hn. apply IH.
  intros b Hb. apply Hf. by right.
Qed.

(** Linking a further list behind the last node of a list. *)
Lemma chain_link h h' p l lt q l2 :
  chain h p (l ++ [lt]) →
  (∀ a, a ∈ l → nxt h' a = nxt h a) →
  nxt h' lt = Some q → chain h' q l2 →
  chain h' p (l ++ lt :: l2).
Proof.
  revert p. induction l as [|a l IH]; intros p H Hf Hlt H2; simpl in *.
  - inversion H; simplify_eq.
    apply fmap_Some in Hlt as (nd' & E' & ->).
    by apply chain_cons with nd'.
  - inversion H as [|? nd ? E Hc]; simplify_eq.
    pose proof (Hf a ltac:(left)) as Ha. unfold nxt in Ha. rewrite E in Ha.
    apply fmap_Some in Ha as (nd' & E' & Hn).
    apply chain_cons with nd'; [done|]. rewrite <-Hn. apply IH; [done| |done..].
    intros b Hb. apply Hf. by right.
Qed.

Lemma walk_chain fuel h p l : walk fuel h p = Some l → chain h p l.
Proof.
  revert p l. induction fuel as [|fuel IH]; intros [a|] l H; simplify_eq/=;
    try constructor.
  apply bind_Some in H as (nd & E & H).
  apply fmap_Some in H as (l' & H & ->). econstructor; eauto.
Qed.

Lemma chain_walk fuel h p l : chain h p l → length l ≤ fuel → walk fuel h p = Some l.
Proof.
  intros H; revert fuel. induction H as [|a nd l E _ IH]; intros fuel Hf.
  - by destruct fuel.
  - destruct fuel as [|fuel]; simpl in *; [lia|].
    rewrite E; simpl. rewrite IH by lia. done.
Qed.

Lemma chain_threaded_from h c n q l k j :
  threaded h c n q → chain h q l → j + S k = n →
  chain h (Some (c, j)) (((c ,.) <$> seq j (S k)) ++ l).
Proof.
  intros Ht Hq. revert j. induction k as [|k IH]; intros j Hj.
  - pose proof (Ht j ltac:(lia)) as Hn. rewrite decide_False in Hn by lia.
    apply fmap_Some in Hn as (nd & E & ->).
    by apply chain_cons with nd.
  - pose proof (Ht j ltac:(lia)) as Hn. rewrite decide_True in Hn by lia.
    apply fmap_Some in Hn as (nd & E & Hn).
    apply chain_cons with nd; [done|]. rewrite <-Hn. apply (IH (S j)). lia.
Qed.

Lemma chain_threaded h c n q l :
  threaded h c n q → chain h q l → 0 < n →
  chain h (Some (c, 0)) (chunk_slots n c ++ l).
Proof.
  intros Ht Hq Hn. destruct n as [|k]; [lia|].
  by apply chain_threaded_from with (S k) q.
Qed.

Lemma elem_of_chunk_slots n c a : a ∈ chunk_slots n c ↔ a.1 = c ∧ a.2 < n.
Proof.
  unfold chunk_slots. rewrite list_elem_of_fmap. split.
  - intros (i & -> & Hi%elem_of_seq). simpl. lia.
  - intros [<- Hi]. exists a.2. split; [by destruct a|]. apply elem_of_seq. lia.
Qed.

Lemma NoDup_chunk_slots n c : NoDup (chunk_slots n c).
Proof.
  unfold chunk_slots. apply NoDup_fmap_2; [|apply NoDup_seq].
  intros i j ?. by simplify_eq.
Qed.

Lemma length_chunk_slots n c : length (chunk_slots n c) = n.
Proof. unfold chunk_slots. by rewrite length_fmap, length_seq. Qed.

Lemma updated_load h a nd h' b :
  updated h a nd h' → load h' b = if decide (b = a) then Some nd else load h b.
Proof. intros (_ & E & F). case_decide; subst; auto. Qed.

Lemma int_of_Some z : (INT_MIN ≤ z ≤ INT_MAX)%Z → int_of z = Some z.
Proof. intros. unfold int_of. by rewrite decide_True. Qed.

Lemma int_of_inv z z' : int_of z = Some z' → z' = z ∧ (INT_MIN ≤ z ≤ INT_MAX)%Z.
Proof. unfold int_of. case_decide; intros ?; by simplify_eq. Qed.

(** ** Threading a chunk *)

(** One turn of the loop of [mempool_chunk_add]. *)
Lemma chunk_add_loop_body (iter : bool) (last : Z) c j h :
  is_Some (load h (c, j)) →
  (Z.of_nat j ≠ last → is_Some (load h (c, S j))) →
  ∃ h2,
    (∀ A (k : heap → option A),
       (h1 ← store_next h (c, j) (Some (c, S j));
        h2 ← (if iter then
                h' ← (if decide (Z.of_nat j ≠ last)
                       then store_freeword h1 (c, S j) FREEWORD else Some h1);
                store_freeword h' (c, j) FREEWORD
              else Some h1);
        k h2) = k h2) ∧
    same_shape h h2 ∧
    nxt h2 (c, j) = Some (Some (c, S j)) ∧
    tag h2 (c, j) = (if iter then Some FREEWORD else tag h (c, j)) ∧
    (∀ b, b ≠ (c, j) → b ≠ (c, S j) ∨ Z.of_nat j = last ∨ iter = false →
          load h2 b = load h b).
Proof.
  intros Hj HSj.
  destruct (store_next_is_Some h (c, j) (Some (c, S j)) Hj) as [h1 E1].
  rewrite E1; simpl. apply store_next_Some in E1 as (nd & Ej & U1).
  pose proof (updated_shape _ _ _ _ U1) as S1.
  destruct iter.
  - assert (∃ h' : heap, (if decide (Z.of_nat j ≠ last)
                   then store_freeword h1 (c, S j) FREEWORD else Some h1)
                  = Some h' ∧ same_shape h1 h' ∧
                  load h' (c, j) = load h1 (c, j) ∧
                  (∀ b, b ≠ (c, S j) ∨ Z.of_nat j = last →
                        load h' b = load h1 b)) as (h' & -> & S2 & Ej' & F2).
    { case_decide as Hl.
      - destruct (store_freeword_is_Some h1 (c, S j) FREEWORD) as [h' E'].
        { apply (same_shape_load _ _ _ S1); auto. }
        exists h'. split; [done|].
        apply store_freeword_Some in E' as (nd' & _ & U2).
        split; [by eapply updated_shape|]. split.
        + rewrite (updated_load _ _ _ _ _ U2), decide_False; [done|].
          intros ?; simplify_eq; lia.
        + intros b [Hb|Hb]; [|done].
          by rewrite (updated_load _ _ _ _ _ U2), decide_False.
      - exists h1. repeat split; auto. }
    destruct (store_freeword_is_Some h' (c, j) FREEWORD) as [h2 E2].
    { rewrite Ej', (updated_load _ _ _ _ _ U1), decide_True; eauto. }
    exists h2. split; [intros A k; simpl; by rewrite E2|].
    apply store_freeword_Some in E2 as (nd2 & E2 & U2).
    rewrite Ej', (updated_load _ _ _ _ _ U1), decide_True in E2 by done.
    simplify_eq/=. split; [|split; [|split]].
    + eapply same_shape_trans; [done|]. eapply same_shape_trans; [done|].
      by eapply updated_shape.
    + by rewrite (updated_nxt_eq _ _ _ _ U2).
    + by rewrite (updated_tag_eq _ _ _ _ U2).
    + intros b Hb Hc. rewrite (updated_load _ _ _ _ _ U2), decide_False by done.
      rewrite F2 by (destruct Hc as [?|[?|?]]; [by left|by right|done]).
      by rewrite (updated_load _ _ _ _ _ U1), decide_False.
  - exists h1. split; [done|]. split; [done|]. split; [|split].
    + by rewrite (updated_nxt_eq _ _ _ _ U1).
    + rewrite (updated_tag_eq _ _ _ _ U1). unfold tag. by rewrite Ej.
    + intros b Hb _. by rewrite (updated_load _ _ _ _ _ U1), decide_False.
Qed.

Lemma chunk_add_loop_spec (iter : bool) (last : Z) c n : ∀ j h cur,
  Z.of_nat (j + n) = (last + 1)%Z →
  (∀ i, j ≤ i < j + n → is_Some (load h (c, i))) →
  ∃ h',
    chunk_add_loop n j iter last c h cur
      = Some (h', if n is O then cur else Some (c, j + n - 1)) ∧
    same_shape h h' ∧
    (∀ a, ¬ (a.1 = c ∧ j ≤ a.2 < j + n) → load h' a = load h a) ∧
    (∀ i, j ≤ i < j + n →
       nxt h' (c, i) = Some (Some (c, S i)) ∧
       tag h' (c, i) = if iter then Some FREEWORD else tag h (c, i)).
Proof.
  induction n as [|n IH]; intros j h cur Hl Hb; simpl.
  { exists h. split; [done|]. split; [apply same_shape_refl|].
    split; [done|]. intros i ?; lia. }
  destruct (chunk_add_loop_body iter last c j h) as (h2 & -> & S2 & N2 & T2 & F2).
  { apply Hb; lia. }
  { intros ?. apply Hb; lia. }
  destruct (IH (S j) h2 (Some (c, j))) as (h' & -> & S' & F' & R').
  { lia. }
  { intros i Hi. apply (same_shape_load _ _ _ S2). apply Hb; lia. }
  exists h'. split.
  { destruct n; [replace (j + 1 - 1) with j by lia
                |replace (j + S (S n) - 1) with (S j + S n - 1) by lia]; done. }
  split; [by eapply same_shape_trans|]. split.
  - intros [c' i] Ha; simpl in Ha. rewrite F' by (simpl; lia).
    apply F2; [intros ?; simplify_eq; lia|].
    destruct (decide (Z.of_nat j = last)); [auto|].
    left. intros ?; simplify_eq. lia.
  - intros i Hi. destruct (decide (i = j)) as [->|Hne].
    + unfold nxt, tag in *. rewrite F' by (simpl; lia). done.
    + destruct (R' i ltac:(lia)) as [Rn Rt]. split; [done|].
      rewrite Rt. destruct iter; [done|]. unfold tag.
      rewrite F2; [done|intros ?; simplify_eq|auto].
Qed.

(** The loop of the shrink: links only, tags are left as they are. *)
Lemma rethread_loop_spec c n : ∀ i h cur,
  (∀ k, i ≤ k < i + n → is_Some (load h (c, k))) →
  ∃ h',
    rethread_loop n i c h cur
      = Some (h', if n is O then cur else Some (c, i + n - 1)) ∧
    same_shape h h' ∧
    (∀ a, ¬ (a.1 = c ∧ i ≤ a.2 < i + n) → load h' a = load h a) ∧
    (∀ k, i ≤ k < i + n →
       nxt h' (c, k) = Some (Some (c, S k)) ∧ tag h' (c, k) = tag h (c, k)).
Proof.
  induction n as [|n IH]; intros i h cur Hb; simpl.
  { exists h. split; [done|]. split; [apply same_shape_refl|].
    split; [done|]. intros k ?; lia. }
  destruct (store_next_is_Some h (c, i) (Some (c, S i))) as [h1 E1].
  { apply Hb; lia. }
  rewrite E1; simpl. apply store_next_Some in E1 as (nd & Ei & U1).
  pose proof (updated_shape _ _ _ _ U1) as S1.
  destruct (IH (S i) h1 (Some (c, i))) as (h' & -> & S' & F' & R').
  { intros k Hk. apply (same_shape_load _ _ _ S1). apply Hb; lia. }
  exists h'. split.
  { destruct n; [replace (i + 1 - 1) with i by lia
                |replace (i + S (S n) - 1) with (S i + S n - 1) by lia]; done. }
  split; [by eapply same_shape_trans|]. split.
  - intros [c' k] Ha; simpl in Ha. rewrite F' by (simpl; lia).
    rewrite (updated_load _ _ _ _ _ U1), decide_False; [done|].
    intros ?; simplify_eq; lia.
  - intros k Hk. destruct (decide (k = i)) as [->|Hne].
    + unfold nxt, tag. rewrite F' by (simpl; lia).
      rewrite (updated_load _ _ _ _ _ U1), decide_True by done.
      rewrite Ei. done.
    + destruct (R' k ltac:(lia)) as [Rn Rt]. split; [done|].
      rewrite Rt. unfold tag.
      rewrite (updated_load _ _ _ _ _ U1), decide_False; [done|].
      intros ?; simplify_eq.
Qed.

(** [mempool_chunk_add] on a block of [pchunk] slots: the chunk is appended,
    its slots are linked in slot order and end in NULL, every slot of it is
    tagged free when iteration is enabled, and [lasttail] is linked to its
    first slot.  Nothing else in memory changes. *)
Lemma mempool_chunk_add_spec h pool c lasttail :
  (1 ≤ pchunk pool ≤ INT_MAX)%Z →
  (∀ i, i < Z.to_nat (pchunk pool) → is_Some (load h (c, i))) →
  match lasttail with
  | Some lt => lt.1 ≠ c ∧ is_Some (load h lt)
  | None => True
  end →
  ∃ h',
    mempool_chunk_add h pool c lasttail
      = Some (h',
              mk_mempool (chunks pool ++ [c]) (esize pool) (csize pool)
                (pchunk pool) (flag pool)
                (match free pool with Some _ => free pool | None => Some (c, 0) end)
                (totused pool),
              Some (c, Z.to_nat (pchunk pool) - 1)) ∧
    same_shape h h' ∧
    threaded h' c (Z.to_nat (pchunk pool)) None ∧
    (∀ i, i < Z.to_nat (pchunk pool) →
       tag h' (c, i) = if allow_iter (flag pool) then Some FREEWORD
                       else tag h (c, i)) ∧
    (∀ a, a.1 ≠ c → Some a ≠ lasttail → load h' a = load h a) ∧
    (∀ lt, lasttail = Some lt →
       nxt h' lt = Some (Some (c, 0)) ∧
       tag h' lt = if allow_iter (flag pool) then Some FREEWORD else tag h lt).
Proof.
  intros Hp Hb Hlt. unfold mempool_chunk_add.
  rewrite int_of_Some by (unfold INT_MIN, INT_MAX in *; lia). simpl.
  set (n := Z.to_nat (pchunk pool)) in *.
  set (iter := allow_iter (flag pool)).
  replace (Z.to_nat (pchunk pool - 1 + 1)) with n by lia.
  assert (0 < n) as Hn by lia.
  (* the head of the free list *)
  assert (∃ h1 : heap,
    match free pool with
    | Some _ => Some (h, set_chunks pool (chunks pool ++ [c]))
    | None =>
        (if iter then store_freeword h (c, 0) FREEWORD else Some h)
        ≫= λ h0, Some (h0, set_free (set_chunks pool (chunks pool ++ [c]))
                                     (Some (c, 0)))
    end = Some (h1, mk_mempool (chunks pool ++ [c]) (esize pool) (csize pool)
                      (pchunk pool) (flag pool)
                      (match free pool with Some _ => free pool | None => Some (c, 0) end)
                      (totused pool)) ∧
    same_shape h h1 ∧
    (∀ b, b ≠ (c, 0) ∨ iter = false → load h1 b = load h b))
    as (h1 & -> & S1 & F1).
  { destruct (free pool) as [a|] eqn:Ef.
    - exists h. split; [by rewrite <-Ef|]. split; [apply same_shape_refl|done].
    - destruct iter.
      + destruct (store_freeword_is_Some h (c, 0) FREEWORD) as [h1 E1];
          [by apply Hb|].
        rewrite E1; simpl. exists h1. split; [done|].
        apply store_freeword_Some in E1 as (nd & _ & U1).
        split; [by eapply updated_shape|]. intros b [Hb'|?]; [|done].
        by rewrite (updated_load _ _ _ _ _ U1), decide_False.
      + exists h. split; [done|]. split; [apply same_shape_refl|done]. }
  simpl.
  (* the loop *)
  destruct (chunk_add_loop_spec iter (pchunk pool - 1) c n 0 h1 None)
    as (h2 & -> & S2 & F2 & R2).
  { lia. }
  { intros i Hi. apply (same_shape_load _ _ _ S1). apply Hb. lia. }
  simpl. destruct n as [|n']; [lia|]. simpl.
  replace (n' - 0) with n' by lia.
  (* terminate the list *)
  destruct (store_next_is_Some h2 (c, n') None) as [h3 E3].
  { apply (same_shape_load _ _ _ S2), (same_shape_load _ _ _ S1), Hb. lia. }
  rewrite E3; simpl. apply store_next_Some in E3 as (nd3 & E3 & U3).
  pose proof (updated_shape _ _ _ _ U3) as S3.
  assert (threaded h3 c (S n') None) as T3.
  { intros i Hi. case_decide.
    - rewrite (updated_nxt_ne _ _ _ _ _ U3) by (intros ?; simplify_eq; lia).
      apply R2. lia.
    - replace i with n' by lia. by rewrite (updated_nxt_eq _ _ _ _ U3). }
  assert (∀ i, i < S n' →
            tag h3 (c, i) = if iter then Some FREEWORD else tag h (c, i)) as G3.
  { intros i Hi.
    assert (tag h2 (c, i) = if iter then Some FREEWORD else tag h (c, i)) as G2.
    { destruct (R2 i ltac:(lia)) as [_ ->]. destruct iter eqn:Ei; [done|].
      unfold tag. by rewrite F1 by auto. }
    destruct (decide (i = n')) as [->|].
    - rewrite (updated_tag_eq _ _ _ _ U3); simpl. rewrite <-G2.
      unfold tag. by rewrite E3.
    - rewrite (updated_tag_ne _ _ _ _ _ U3); [done|]. intros ?; simplify_eq. }
  assert (∀ a, a.1 ≠ c → load h3 a = load h a) as F3.
  { intros a Ha. rewrite (updated_load _ _ _ _ _ U3), decide_False
      by (intros ?; subst; simpl in *; congruence).
    rewrite F2 by (intros [? _]; done). apply F1. left. intros ?; subst; simpl in *; congruence. }
  (* the tail of the previous chunk *)
  destruct lasttail as [lt|].
  - destruct Hlt as [Hc Hl].
    destruct (store_next_is_Some h3 lt (Some (c, 0))) as [h4 E4].
    { apply (same_shape_load _ _ _ S3), (same_shape_load _ _ _ S2),
        (same_shape_load _ _ _ S1), Hl. }
    rewrite E4; simpl. apply store_next_Some in E4 as (nd4 & E4 & U4).
    pose proof (updated_shape _ _ _ _ U4) as S4.
    assert (∃ h5 : heap,
      (if iter then store_freeword h4 lt FREEWORD else Some h4) = Some h5 ∧
      same_shape h4 h5 ∧ (∀ b, b ≠ lt → load h5 b = load h4 b) ∧
      nxt h5 lt = Some (Some (c, 0)) ∧
      tag h5 lt = if iter then Some FREEWORD else tag h lt)
      as (h5 & -> & S5 & F5 & N5 & G5).
    { destruct iter eqn:Ei.
      - destruct (store_freeword_is_Some h4 lt FREEWORD) as [h5 E5].
        { destruct U4 as (_ & -> & _). eauto. }
        exists h5. split; [done|].
        apply store_freeword_Some in E5 as (nd5 & E5 & U5).
        split; [by eapply updated_shape|]. split; [|split].
        + intros b Hb'. by rewrite (updated_load _ _ _ _ _ U5), decide_False.
        + rewrite (updated_nxt_eq _ _ _ _ U5); simpl.
          destruct U4 as (_ & E4' & _). by simplify_eq.
        + by rewrite (updated_tag_eq _ _ _ _ U5).
      - exists h4. split; [done|]. split; [apply same_shape_refl|].
        split; [done|]. split.
        + by rewrite (updated_nxt_eq _ _ _ _ U4).
        + rewrite (updated_tag_eq _ _ _ _ U4); simpl.
          unfold tag. by rewrite <-(F3 lt Hc), E4. }
    simpl. exists h5. split; [done|]. split; [|split; [|split; [|split]]].
    + repeat (eapply same_shape_trans; [eassumption|]). apply same_shape_refl.
    + intros i Hi. unfold nxt. rewrite F5 by (intros ?; subst; simpl in *; congruence).
      rewrite (updated_load _ _ _ _ _ U4), decide_False by (intros ?; subst; simpl in *; congruence).
      apply T3, Hi.
    + intros i Hi. unfold tag. rewrite F5 by (intros ?; subst; simpl in *; congruence).
      rewrite (updated_load _ _ _ _ _ U4), decide_False by (intros ?; subst; simpl in *; congruence).
      apply G3, Hi.
    + intros a Ha Hne. rewrite F5 by congruence.
      rewrite (updated_load _ _ _ _ _ U4), decide_False by congruence.
      by apply F3.
    + intros ? [= <-]. done.
  - simpl. exists h3. split; [done|]. split; [|split; [|split; [|split]]].
    + repeat (eapply same_shape_trans; [eassumption|]). apply same_shape_refl.
    + done.
    + done.
    + intros a Ha _. by apply F3.
    + intros ? [=].
Qed.

(** ** The invariant of the pool *)

Lemma chunk_len_pchunk pool :
  (1 ≤ pchunk pool)%Z → (MEMPOOL_ELEM_SIZE_MIN ≤ esize pool)%Z →
  csize pool = (esize pool * pchunk pool)%Z →
  chunk_len pool = Z.to_nat (pchunk pool).
Proof.
  intros Hp He Hc. unfold chunk_len. rewrite Hc. f_equal.
  rewrite Z.mul_comm. apply Z.quot_mul.
  unfold MEMPOOL_ELEM_SIZE_MIN, sizeof_ptr in He. lia.
Qed.

Lemma inv_chunk_len h pool lent fl :
  inv h pool lent fl → chunk_len pool = Z.to_nat (pchunk pool).
Proof. intros [[? _] ? ?]. by apply chunk_len_pchunk. Qed.

Lemma inv_load h pool lent fl a :
  inv h pool lent fl →
  is_Some (load h a) ↔ a.1 ∈ chunks pool ∧ a.2 < Z.to_nat (pchunk pool).
Proof.
  intros I. rewrite load_is_Some. split.
  - intros (blk & E & Hlt). split.
    + apply (inv_dom _ _ _ _ I). eauto.
    + by rewrite <-(inv_blk _ _ _ _ I _ _ E).
  - intros [[blk E]%(inv_dom _ _ _ _ I) Hlt]. exists blk. split; [done|].
    by rewrite (inv_blk _ _ _ _ I _ _ E).
Qed.

Lemma elem_of_all_slots pool a :
  a ∈ all_slots pool ↔ a.1 ∈ chunks pool ∧ a.2 < Z.to_nat (pchunk pool).
Proof.
  unfold all_slots. rewrite list_elem_of_bind. split.
  - intros (c & [<- ?]%elem_of_chunk_slots & ?). done.
  - intros [? ?]. exists a.1. split; [|done]. by apply elem_of_chunk_slots.
Qed.

Lemma inv_all_slots h pool lent fl a :
  inv h pool lent fl → a ∈ all_slots pool ↔ a ∈ fl ∨ a ∈ lent.
Proof.
  intros I. by rewrite elem_of_all_slots, <-(inv_load _ _ _ _ _ I),
    (inv_cover _ _ _ _ I).
Qed.

Lemma StronglySorted_lt_NoDup (l : list nat) : StronglySorted lt l → NoDup l.
Proof.
  induction 1 as [|x l _ IH Hx]; constructor; [|done].
  intros Hin. rewrite Forall_forall in Hx. specialize (Hx _ Hin). lia.
Qed.

Lemma StronglySorted_lt_snoc (l : list nat) c :
  StronglySorted lt l → (∀ x, x ∈ l → x < c) → StronglySorted lt (l ++ [c]).
Proof.
  induction 1 as [|x l _ IH Hx]; intros Hc; simpl.
  - repeat constructor.
  - constructor.
    + apply IH. intros y Hy. apply Hc. by right.
    + apply Forall_app. split; [done|]. constructor; [|constructor].
      apply Hc. by left.
Qed.

Lemma inv_chunks_NoDup h pool lent fl : inv h pool lent fl → NoDup (chunks pool).
Proof. intros []. by apply StronglySorted_lt_NoDup. Qed.

Lemma NoDup_all_slots pool : NoDup (chunks pool) → NoDup (all_slots pool).
Proof.
  intros Hnd. unfold all_slots. apply NoDup_bind; [|intros; apply NoDup_chunk_slots|done].
  intros c1 c2 a _ _ [<- _]%elem_of_chunk_slots [<- _]%elem_of_chunk_slots. done.
Qed.

(** The invariant does not read [totused]. *)
Lemma inv_set_totused h pool lent fl t :
  inv h pool lent fl → inv h (set_totused pool t) lent fl.
Proof. by intros []. Qed.

(** Giving chunks back to the allocator. *)
Lemma BLI_remlink_head c l : BLI_remlink (c :: l) (Some c) = l.
Proof. simpl. by rewrite decide_True. Qed.

Lemma free_chunks_spec cs : ∀ h,
  NoDup cs → (∀ c, c ∈ cs → is_Some (blocks h !! c)) →
  ∃ h', free_chunks cs h = Some h' ∧ brk h' = brk h ∧
        ∀ c, blocks h' !! c = if decide (c ∈ cs) then None else blocks h !! c.
Proof.
  induction cs as [|c cs IH]; intros h Hnd Hb.
  { exists h. split; [done|]. split; [done|]. intros c.
    by rewrite decide_False by apply not_elem_of_nil. }
  apply NoDup_cons in Hnd as [Hc Hnd]. cbn [free_chunks].
  destruct (Hb c ltac:(left)) as [blk ->]; cbn [mbind option_bind].
  destruct (IH (mk_heap (brk h) (delete c (blocks h))) Hnd) as (h' & -> & Hbrk & Hl).
  { intros c' Hc'; simpl. rewrite lookup_delete_ne by (intros ->; done).
    apply Hb. by right. }
  exists h'. split; [done|]. split; [done|]. intros c'. rewrite Hl; simpl.
  destruct (decide (c' = c)) as [->|Hne].
  - rewrite lookup_delete_eq. rewrite (decide_True (P := c ∈ c :: cs)) by left.
    by case_decide.
  - rewrite lookup_delete_ne by done.
    destruct (decide (c' ∈ cs)).
    + by rewrite decide_True by (by right).
    + rewrite decide_False; [done|]. by intros [?|?]%elem_of_cons.
Qed.

Lemma last_chunk_slots n c l :
  0 < n → last (l ++ chunk_slots n c) = Some (c, n - 1).
Proof.
  intros Hn. destruct n as [|n]; [lia|]. unfold chunk_slots.
  rewrite seq_S, fmap_app, app_assoc; simpl. rewrite last_snoc.
  do 2 f_equal. lia.
Qed.

(** A fresh chunk is added behind the free list: [mempool_chunk_alloc] then
    [mempool_chunk_add] with the last free node as [lasttail].  This is a turn
    of the loop of [BLI_mempool_create], and the growth step of
    [BLI_mempool_alloc] (where the free list is empty). *)
Lemma add_fresh_inv h pool lent fl :
  inv h pool lent fl →
  let c := brk h in
  let n := Z.to_nat (pchunk pool) in
  ∃ h',
    mempool_chunk_add (mempool_chunk_alloc garbage h pool).2 pool c (last fl)
      = Some (h',
              mk_mempool (chunks pool ++ [c]) (esize pool) (csize pool)
                (pchunk pool) (flag pool)
                (match free pool with Some _ => free pool | None => Some (c, 0) end)
                (totused pool),
              Some (c, n - 1)) ∧
    brk h' = S c ∧
    (∀ a, a.1 ≠ c → Some a ≠ last fl → load h' a = load h a) ∧
    inv h'
        (mk_mempool (chunks pool ++ [c]) (esize pool) (csize pool)
           (pchunk pool) (flag pool)
           (match free pool with Some _ => free pool | None => Some (c, 0) end)
           (totused pool))
        lent (fl ++ chunk_slots n c).
Proof.
  intros I c n.
  pose proof (inv_pchunk _ _ _ _ I) as Hp.
  pose proof (inv_chunk_len _ _ _ _ I) as Hlen. fold n in Hlen.
  assert (0 < n) as Hn by (unfold n; lia).
  assert (blocks h !! c = None) as Hfresh.
  { apply eq_None_not_Some. intros Hs%(inv_dom _ _ _ _ I).
    apply (inv_brk _ _ _ _ I) in Hs. unfold c in Hs. lia. }
  unfold mempool_chunk_alloc; simpl. fold c. rewrite Hlen.
  set (h1 := mk_heap (S c) (<[c:=garbage c <$> seq 0 n]> (blocks h))).
  (* the new block, and the old memory under it *)
  assert (∀ a, a.1 ≠ c → load h1 a = load h a) as Hold.
  { intros a Ha. unfold load, h1; simpl. by rewrite lookup_insert_ne. }
  assert (∀ i, i < n → is_Some (load h1 (c, i))) as Hnew.
  { intros i Hi. apply load_is_Some. eexists. unfold h1; simpl.
    split; [apply lookup_insert_eq|]. by rewrite length_fmap, length_seq. }
  assert (∀ a, is_Some (load h a) → a.1 ≠ c) as Hne.
  { intros a Ha Hc. apply load_is_Some in Ha as (blk & E & _).
    rewrite Hc in E. congruence. }
  assert (∀ a, a ∈ fl → is_Some (load h a)) as Hfl.
  { intros a Ha. apply (inv_cover _ _ _ _ I). by left. }
  assert (∀ a, a ∈ lent → is_Some (load h a)) as Hlent.
  { intros a Ha. apply (inv_cover _ _ _ _ I). by right. }
  destruct (mempool_chunk_add_spec h1 pool c (last fl)) as (h' & E & S' & T' & G' & F' & L');
    [done|done| |].
  { destruct (last fl) as [lt|] eqn:El; [|done].
    apply last_Some in El as [l ->].
    assert (is_Some (load h lt)) as Hl
      by (apply Hfl, elem_of_app; right; left).
    split; [by apply Hne|]. rewrite Hold; [done|by apply Hne]. }
  exists h'. split; [done|]. destruct S' as [Sb Sl]. split; [done|]. split.
  { intros a Ha Hl. rewrite F' by done. by apply Hold. }
  assert (∀ c', is_Some (blocks h' !! c') ↔ c' = c ∨ is_Some (blocks h !! c')) as Hdom.
  { intros c'. rewrite <-(fmap_is_Some length), Sl, fmap_is_Some. unfold h1; simpl.
    destruct (decide (c' = c)) as [->|].
    - rewrite lookup_insert_eq. split; [by left|by eauto].
    - rewrite lookup_insert_ne by done. split; [by right|by intros [?|?]]. }
  assert (∀ a, is_Some (load h' a) ↔ a ∈ chunk_slots n c ∨ is_Some (load h a)) as Hcov.
  { intros a. rewrite (same_shape_load h1 h' a) by done.
    rewrite elem_of_chunk_slots. destruct (decide (a.1 = c)) as [Ha|Ha].
    - split.
      + intros (blk & Eb & Hlt)%load_is_Some. left. split; [done|].
        unfold h1 in Eb; simpl in Eb. rewrite Ha, lookup_insert_eq in Eb.
        simplify_eq. by rewrite length_fmap, length_seq in Hlt.
      + intros [[_ ?]|?%Hne]; [|done]. destruct a; simpl in *; subst. by apply Hnew.
    - rewrite Hold by done. split; [by right|by intros [[? _]|?]]. }
  split; simpl.
  - done.
  - apply (inv_esize _ _ _ _ I).
  - apply (inv_csize _ _ _ _ I).
  - apply (inv_csize_max _ _ _ _ I).
  - apply StronglySorted_lt_snoc; [apply (inv_sorted _ _ _ _ I)|].
    apply (inv_brk _ _ _ _ I).
  - intros c' Hc'. rewrite Sb; unfold h1; simpl.
    apply elem_of_app in Hc' as [?%(inv_brk _ _ _ _ I)|?%list_elem_of_singleton];
      subst; unfold c in *; lia.
  - intros c'. rewrite Hdom, elem_of_app, list_elem_of_singleton, (inv_dom _ _ _ _ I).
    tauto.
  - intros c' blk Eb. destruct (proj1 (Hdom c') ltac:(eauto)) as [->|[blk0 E0]].
    + specialize (Sl c). rewrite Eb in Sl. unfold h1 in Sl; simpl in Sl.
      rewrite lookup_insert_eq in Sl. simpl in Sl.
      rewrite length_fmap, length_seq in Sl. by simplify_eq.
    + specialize (Sl c'). rewrite Eb in Sl. unfold h1 in Sl; simpl in Sl.
      rewrite lookup_insert_ne, E0 in Sl by congruence. simpl in Sl.
      rewrite <-(inv_blk _ _ _ _ I _ _ E0). by simplify_eq.
  - (* the free list *)
    assert (chain h' (Some (c, 0)) (chunk_slots n c)) as Hc.
    { rewrite <-(app_nil_r (chunk_slots n c)).
      apply chain_threaded with None; [done|constructor|done]. }
    pose proof (inv_chain _ _ _ _ I) as Hch.
    destruct (last fl) as [lt|] eqn:El.
    + apply last_Some in El as [l ->].
      assert (∃ p, free pool = Some p) as [p Ep].
      { inversion Hch; [by destruct l|eauto]. }
      rewrite Ep, <-Ep, <-app_assoc; simpl.
      destruct (L' lt eq_refl) as [Ln _].
      apply chain_link with h (Some (c, 0)); [done| |done|done].
      intros a Ha. unfold nxt. rewrite F'.
      * rewrite Hold; [done|]. apply Hne, Hfl, elem_of_app. by left.
      * apply Hne, Hfl, elem_of_app. by left.
      * intros [= ->]. pose proof (inv_nodup _ _ _ _ I) as Hnd.
        rewrite <-app_assoc in Hnd. apply NoDup_app in Hnd as (_ & Hnd & _).
        apply (Hnd lt Ha). simpl. left.
    + apply last_None in El as ->. inversion Hch as [Ef|]. by simpl.
  - pose proof (inv_nodup _ _ _ _ I) as Hnd.
    rewrite <-app_assoc. apply NoDup_app in Hnd as (N1 & N2 & N3).
    apply NoDup_app. split; [done|]. split.
    + intros a Ha [[Hc _]%elem_of_chunk_slots|Hl]%elem_of_app.
      * by apply (Hne a (Hfl a Ha)).
      * by apply (N2 a).
    + apply NoDup_app. split; [apply NoDup_chunk_slots|]. split; [|done].
      intros a [Hc _]%elem_of_chunk_slots Hl. by apply (Hne a (Hlent a Hl)).
  - intros a. rewrite Hcov, (inv_cover _ _ _ _ I), elem_of_app. tauto.
  - intros Hit. rewrite Hit in *. destruct (inv_tags _ _ _ _ I Hit) as [Tf Tl].
    split.
    + intros a [Ha|[<- Hi]%elem_of_chunk_slots]%elem_of_app.
      * destruct (decide (Some a = last fl)) as [Hl|Hl].
        -- by destruct (L' a (eq_sym Hl)) as [_ ->].
        -- assert (a.1 ≠ c) by (apply Hne; auto).
           unfold tag. rewrite F', Hold by done. by apply Tf.
      * destruct a as [c' i]; simpl in *. by apply G'.
    + intros a Ha. assert (a.1 ≠ c) by (apply Hne; auto).
      assert (Some a ≠ last fl).
      { intros Hl. symmetry in Hl. apply last_Some in Hl as [l ->].
        pose proof (inv_nodup _ _ _ _ I) as Hnd.
        apply NoDup_app in Hnd as (_ & Hnd & _).
        apply (Hnd a); [apply elem_of_app; right; left|done]. }
      unfold tag. rewrite F', Hold by done. by apply Tl.
Qed.

Lemma chain_head h p l : chain h p l → p = head l.
Proof. by destruct 1. Qed.

(** ** Allocation *)

(** Taking the head off the free list: the second half of
    [BLI_mempool_alloc]. *)
Lemma alloc_pop h pool lent a fl :
  inv h pool lent (a :: fl) →
  ∃ h' nd,
    (if allow_iter (flag pool) then store_freeword h a USEDWORD else Some h)
      = Some h' ∧
    load h' a = Some nd ∧ nxt h a = Some (next nd) ∧
    brk h' = brk h ∧
    (∀ b, b ≠ a → load h' b = load h b) ∧
    (allow_iter (flag pool) = true → tag h' a = Some USEDWORD) ∧
    inv h' (set_free pool (next nd)) (a :: lent) fl.
Proof.
  intros I. pose proof (inv_chain _ _ _ _ I) as Hch.
  inversion Hch as [|? nd ? Ea Hch']; subst.
  pose proof (inv_nodup _ _ _ _ I) as Hnd. simpl in Hnd.
  apply NoDup_cons in Hnd as [Ha Hnd].
  assert (∃ h' : heap,
    (if allow_iter (flag pool) then store_freeword h a USEDWORD else Some h)
      = Some h' ∧ same_shape h h' ∧
    (∀ b, b ≠ a → load h' b = load h b) ∧ nxt h' a = nxt h a ∧
    (allow_iter (flag pool) = true → tag h' a = Some USEDWORD))
    as (h' & E & S' & F' & N' & G').
  { destruct (allow_iter (flag pool)).
    - destruct (store_freeword_is_Some h a USEDWORD) as [h' E]; [eauto|].
      exists h'. split; [done|].
      apply store_freeword_Some in E as (nd' & E' & U). simplify_eq.
      split; [by eapply updated_shape|]. split; [|split].
      + intros b Hb. by rewrite (updated_load _ _ _ _ _ U), decide_False.
      + rewrite (updated_nxt_eq _ _ _ _ U). unfold nxt. by rewrite Ea.
      + intros _. by rewrite (updated_tag_eq _ _ _ _ U).
    - exists h. split; [done|]. split; [apply same_shape_refl|]. done. }
  assert (∀ b, nxt h' b = nxt h b) as Hnx.
  { intros b. destruct (decide (b = a)) as [->|Hb]; [done|].
    unfold nxt. by rewrite F'. }
  pose proof (Hnx a) as Na. unfold nxt in Na. rewrite Ea in Na.
  apply fmap_Some in Na as (nd' & Ea' & Hn).
  exists h', nd'. split; [done|]. split; [done|]. split.
  { unfold nxt. rewrite Ea; simpl. by rewrite Hn. }
  destruct S' as [Sb Sl]. split; [done|]. split; [done|]. split; [done|].
  split; simpl.
  - apply (inv_pchunk _ _ _ _ I).
  - apply (inv_esize _ _ _ _ I).
  - apply (inv_csize _ _ _ _ I).
  - apply (inv_csize_max _ _ _ _ I).
  - apply (inv_sorted _ _ _ _ I).
  - intros c Hc. rewrite Sb. by apply (inv_brk _ _ _ _ I).
  - intros c. rewrite <-(inv_dom _ _ _ _ I).
    by apply same_shape_block.
  - intros c blk Eb.
    destruct (same_shape_length h h' c blk) as (blk0 & E0 & <-); [done..|].
    by apply (inv_blk _ _ _ _ I c).
  - rewrite <-Hn. apply chain_frame with h; [done|]. intros; apply Hnx.
  - apply NoDup_app in Hnd as (N1 & N2 & N3). apply NoDup_app.
    split; [done|]. split.
    + intros b Hb [->|Hl]%elem_of_cons; [apply Ha; set_solver|by apply (N2 b)].
    + apply NoDup_cons. split; [set_solver|done].
  - intros b. rewrite (same_shape_load h h' b) by done.
    rewrite (inv_cover _ _ _ _ I), !elem_of_cons. tauto.
  - intros Hit. destruct (inv_tags _ _ _ _ I Hit) as [Tf Tl]. split.
    + intros b Hb. unfold tag. rewrite F' by (intros ->; set_solver).
      apply Tf. by right.
    + intros b [->|Hb]%elem_of_cons.
      { exists USEDWORD. split; [by apply G'|done]. }
      unfold tag. rewrite F' by (intros ->; set_solver). by apply Tl.
Qed.

(** [BLI_mempool_alloc] on a pool in use.  It returns a slot that was not
    lent; either the head of the free list, or, when the list was empty, the
    first slot of one new chunk put at the end of the chunk list. *)
Lemma alloc_wf h pool lent fl :
  wf h pool lent fl → (totused pool < INT_MAX)%Z →
  ∃ h' pool' a fl',
    BLI_mempool_alloc garbage h pool = Some (h', pool', Some a) ∧
    wf h' pool' (a :: lent) fl' ∧
    esize pool' = esize pool ∧ csize pool' = csize pool ∧
    pchunk pool' = pchunk pool ∧ flag pool' = flag pool ∧
    nxt h' a = Some (free pool') ∧
    (allow_iter (flag pool) = true → tag h' a = Some USEDWORD) ∧
    (fl = a :: fl' ∧ brk h' = brk h ∧ chunks pool' = chunks pool ∧
       (∀ b, b ≠ a → load h' b = load h b) ∧ nxt h' a = nxt h a
     ∨
     fl = [] ∧ brk h' = S (brk h) ∧ chunks pool' = chunks pool ++ [brk h] ∧
       (∀ b, b.1 ≠ brk h → load h' b = load h b) ∧
       a :: fl' = chunk_slots (Z.to_nat (pchunk pool)) (brk h)).
Proof.
  intros (I & Hne & Hcnt & _) Hmax. unfold BLI_mempool_alloc.
  rewrite int_of_Some by (unfold INT_MIN; lia). simpl.
  pose proof (inv_chain _ _ _ _ I) as Hch.
  destruct (free pool) as [a|] eqn:Ef.
  - (* the free list has a head *)
    simpl. rewrite Ef; simpl.
    inversion Hch as [|? nd0 fl' Ea Hch']; subst.
    apply (inv_set_totused _ _ _ _ (totused pool + 1)%Z) in I.
    destruct (alloc_pop _ _ _ _ _ I) as (h' & nd & E & El & Hn & Hb & F & G & I').
    simpl in E. rewrite E; simpl. rewrite El; simpl.
    eexists h', _, a, fl'. split; [done|]. split; [|split_and!; try done].
    + split; [done|]. split; [done|]. simpl. rewrite Hcnt. lia.
    + unfold nxt. by rewrite El.
    + left. split_and!; try done. rewrite Hn. unfold nxt. by rewrite El.
  - (* the free list is empty: one more chunk *)
    inversion Hch; subst.
    apply (inv_set_totused _ _ _ _ (totused pool + 1)%Z) in I.
    destruct (add_fresh_inv _ _ _ _ I) as (h1 & E1 & Hb1 & F1 & I1).
    unfold mempool_chunk_alloc in *. simpl in *. rewrite Ef in *.
    rewrite E1; simpl.
    assert (0 < Z.to_nat (pchunk pool)) as Hn
      by (pose proof (inv_pchunk _ _ _ _ I); simpl in *; lia).
    destruct (Z.to_nat (pchunk pool)) as [|n] eqn:En; [lia|].
    unfold chunk_slots in I1. simpl in I1.
    destruct (alloc_pop _ _ _ _ _ I1) as (h' & nd & E & El & Hnx & Hb & F & G & I').
    simpl in E. rewrite E; simpl. rewrite El; simpl.
    eexists h', _, (brk h, 0), _. split; [done|]. split; [|split_and!; try done].
    + split; [done|]. split; [|simpl; rewrite Hcnt; simpl; lia].
      simpl. by destruct (chunks pool).
    + unfold nxt. by rewrite El.
    + right. split_and!; try done.
      * lia.
      * intros b Hb'. rewrite F by (intros ->; done). by apply F1.
Qed.

(** ** Deallocation *)

Lemma filter_ne_notin (l : list slot) a : a ∉ l → filter (λ b, b ≠ a) l = l.
Proof.
  induction l as [|x l IH]; [done|]. intros [Hx Hl]%not_elem_of_cons.
  rewrite filter_cons_True by done. by rewrite IH.
Qed.

Lemma length_filter_ne (l : list slot) a :
  NoDup l → a ∈ l → S (length (filter (λ b, b ≠ a) l)) = length l.
Proof.
  induction 1 as [|x l Hx Hnd IH]; [by intros ?%elem_of_nil|].
  intros [->|Ha]%elem_of_cons.
  - rewrite filter_cons_False by (intros ?; done).
    by rewrite filter_ne_notin.
  - rewrite filter_cons_True by (intros ->; done). simpl. by rewrite IH.
Qed.

(** Putting a lent slot back at the head of the free list: the first half of
    [BLI_mempool_free]. *)
Lemma free_push h pool lent fl a :
  inv h pool lent fl → a ∈ lent →
  ∃ h1 h2,
    (if allow_iter (flag pool) then store_freeword h a FREEWORD else Some h)
      = Some h1 ∧
    store_next h1 a (free pool) = Some h2 ∧
    brk h2 = brk h ∧
    (∀ b, b ≠ a → load h2 b = load h b) ∧
    inv h2 (set_free pool (Some a)) (filter (λ b, b ≠ a) lent) (a :: fl).
Proof.
  intros I Ha.
  assert (is_Some (load h a)) as Hl by (apply (inv_cover _ _ _ _ I); by right).
  pose proof (inv_nodup _ _ _ _ I) as Hnd.
  apply NoDup_app in Hnd as (N1 & N2 & N3).
  assert (a ∉ fl) as Hfl by (intros ?; by apply (N2 a)).
  assert (∃ h1 : heap,
    (if allow_iter (flag pool) then store_freeword h a FREEWORD else Some h)
      = Some h1 ∧ same_shape h h1 ∧
    (∀ b, b ≠ a → load h1 b = load h b) ∧
    (allow_iter (flag pool) = true → tag h1 a = Some FREEWORD))
    as (h1 & E1 & S1 & F1 & G1).
  { destruct (allow_iter (flag pool)).
    - destruct (store_freeword_is_Some h a FREEWORD) as [h1 E]; [done|].
      exists h1. split; [done|].
      apply store_freeword_Some in E as (nd' & E' & U).
      split; [by eapply updated_shape|]. split.
      + intros b Hb. by rewrite (updated_load _ _ _ _ _ U), decide_False.
      + intros _. by rewrite (updated_tag_eq _ _ _ _ U).
    - exists h. split; [done|]. split; [apply same_shape_refl|]. done. }
  destruct (store_next_is_Some h1 a (free pool)) as [h2 E2].
  { by apply (same_shape_load _ _ _ S1). }
  exists h1, h2. split; [done|]. split; [done|].
  apply store_next_Some in E2 as (nd & Ea & U2).
  pose proof (updated_shape _ _ _ _ U2) as S2.
  assert (same_shape h h2) as [Sb Sl] by (by eapply same_shape_trans).
  assert (∀ b, b ≠ a → load h2 b = load h b) as F2.
  { intros b Hb. rewrite (updated_load _ _ _ _ _ U2), decide_False by done.
    by apply F1. }
  split; [done|]. split; [done|]. split; simpl.
  - apply (inv_pchunk _ _ _ _ I).
  - apply (inv_esize _ _ _ _ I).
  - apply (inv_csize _ _ _ _ I).
  - apply (inv_csize_max _ _ _ _ I).
  - apply (inv_sorted _ _ _ _ I).
  - intros c Hc. rewrite Sb. by apply (inv_brk _ _ _ _ I).
  - intros c. rewrite <-(inv_dom _ _ _ _ I). by apply same_shape_block.
  - intros c blk Eb.
    destruct (same_shape_length h h2 c blk) as (blk0 & E0 & <-); [done..|].
    by apply (inv_blk _ _ _ _ I c).
  - destruct U2 as (_ & E2 & _). eapply chain_cons; [done|]. simpl.
    apply chain_frame with h; [apply (inv_chain _ _ _ _ I)|].
    intros b Hb. unfold nxt. rewrite F2; [done|]. by intros ->.
  - apply NoDup_cons. split.
    + intros [?|[? _]%list_elem_of_filter]%elem_of_app; done.
    + apply NoDup_app. split; [done|]. split; [|by apply NoDup_filter].
      intros b Hb [_ ?]%list_elem_of_filter. by apply (N2 b).
  - intros b. rewrite (same_shape_load h h2 b) by done.
    rewrite (inv_cover _ _ _ _ I), elem_of_cons, list_elem_of_filter.
    destruct (decide (b = a)); subst; intuition.
  - intros Hit. destruct (inv_tags _ _ _ _ I Hit) as [Tf Tl]. split.
    + intros b [->|Hb]%elem_of_cons.
      * rewrite (updated_tag_eq _ _ _ _ U2); simpl.
        specialize (G1 Hit). unfold tag in G1. rewrite Ea in G1. done.
      * unfold tag. rewrite F2 by (by intros ->). by apply Tf.
    + intros b [Hb ?]%list_elem_of_filter. unfold tag. rewrite F2 by done.
      by apply Tl.
Qed.

(** A pool of one chunk whose slots are all free and linked in slot order. *)
Lemma one_chunk_inv h pool c :
  (1 ≤ pchunk pool ≤ INT_MAX)%Z →
  (MEMPOOL_ELEM_SIZE_MIN ≤ esize pool)%Z →
  csize pool = (esize pool * pchunk pool)%Z → (csize pool ≤ INT_MAX)%Z →
  chunks pool = [c] → free pool = Some (c, 0) → c < brk h →
  (∀ c', is_Some (blocks h !! c') ↔ c' = c) →
  (∀ blk, blocks h !! c = Some blk → length blk = Z.to_nat (pchunk pool)) →
  threaded h c (Z.to_nat (pchunk pool)) None →
  (allow_iter (flag pool) = true →
   ∀ i, i < Z.to_nat (pchunk pool) → tag h (c, i) = Some FREEWORD) →
  inv h pool [] (chunk_slots (Z.to_nat (pchunk pool)) c).
Proof.
  intros Hp He Hc Hcm Hcs Hf Hb Hdom Hblk Ht Hg. split; try done.
  - rewrite Hcs. repeat constructor.
  - rewrite Hcs. by intros ? ->%list_elem_of_singleton.
  - intros c'. by rewrite Hdom, Hcs, list_elem_of_singleton.
  - intros c' blk E. assert (c' = c) as -> by (apply Hdom; eauto). by apply Hblk.
  - rewrite Hf, <-(app_nil_r (chunk_slots _ _)).
    apply chain_threaded with None; [done|constructor|lia].
  - rewrite app_nil_r. apply NoDup_chunk_slots.
  - intros a. rewrite load_is_Some, elem_of_chunk_slots. split.
    + intros (blk & E & Hlt). left.
      assert (a.1 = c) as Ha by (apply Hdom; eauto). split; [done|].
      rewrite Ha in E. by rewrite <-(Hblk _ E).
    + intros [[Ha Hlt]|[]%elem_of_nil].
      destruct (proj2 (Hdom c) eq_refl) as [blk E]. exists blk.
      rewrite Ha. split; [done|]. by rewrite (Hblk _ E).
  - intros Hit. split; [|by intros ? ?%elem_of_nil].
    intros [c' i] [? ?]%elem_of_chunk_slots; simpl in *; subst. by apply Hg.
Qed.

(** The shrink of [BLI_mempool_free], entered when nothing is lent: the
    chunks behind the first go back to the allocator, and the first chunk's
    slots become the free list, in slot order. *)
Lemma free_shrink_inv h pool fl first rest :
  inv h pool [] fl → chunks pool = first :: rest →
  ∃ h',
    free_shrink h pool
      = Some (h', mk_mempool [first] (esize pool) (csize pool) (pchunk pool)
                    (flag pool) (Some (first, 0)) (totused pool)) ∧
    brk h' = brk h ∧
    (∀ c, c ∈ rest → blocks h' !! c = None) ∧
    (∀ i, tag h' (first, i) = tag h (first, i)) ∧
    threaded h' first (Z.to_nat (pchunk pool)) None ∧
    inv h' (mk_mempool [first] (esize pool) (csize pool) (pchunk pool)
              (flag pool) (Some (first, 0)) (totused pool))
        [] (chunk_slots (Z.to_nat (pchunk pool)) first).
Proof.
  intros I Hcs. unfold free_shrink, mempool_chunk_free_all.
  rewrite Hcs. cbn [head]. rewrite BLI_remlink_head. simpl.
  pose proof (inv_pchunk _ _ _ _ I) as Hp.
  pose proof (inv_chunks_NoDup _ _ _ _ I) as Hnd. rewrite Hcs in Hnd.
  apply NoDup_cons in Hnd as [Hfr Hnd].
  destruct (free_chunks_spec rest h Hnd) as (h1 & -> & Hb1 & Hl1).
  { intros c Hc. apply (inv_dom _ _ _ _ I). rewrite Hcs. by right. }
  simpl.
  assert (∀ i, load h1 (first, i) = load h (first, i)) as Hsame.
  { intros i. unfold load; simpl. by rewrite Hl1, decide_False. }
  assert (∀ i, i < Z.to_nat (pchunk pool) → is_Some (load h (first, i))) as Hin.
  { intros i Hi. apply (inv_load _ _ _ _ _ I); simpl. rewrite Hcs.
    split; [by left|done]. }
  destruct (rethread_loop_spec first (Z.to_nat (pchunk pool)) 0 h1 None)
    as (h2 & -> & S2 & F2 & R2).
  { intros k Hk. rewrite Hsame. apply Hin. lia. }
  simpl. destruct (Z.to_nat (pchunk pool)) as [|n'] eqn:En; [lia|]. simpl.
  replace (n' - 0) with n' by lia.
  destruct (store_next_is_Some h2 (first, n') None) as [h3 E3].
  { apply (same_shape_load _ _ _ S2). rewrite Hsame. apply Hin. lia. }
  rewrite E3; simpl. apply store_next_Some in E3 as (nd3 & E3 & U3).
  pose proof (updated_shape _ _ _ _ U3) as S3.
  assert (same_shape h1 h3) as [Sb Sl] by (by eapply same_shape_trans).
  assert (∀ i, tag h3 (first, i) = tag h (first, i)) as Htag.
  { intros i. destruct (decide (i = n')) as [->|Hi].
    - rewrite (updated_tag_eq _ _ _ _ U3); simpl.
      destruct (R2 n' ltac:(lia)) as [_ T2]. unfold tag in *.
      rewrite E3 in T2. by rewrite <-Hsame, <-T2.
    - rewrite (updated_tag_ne _ _ _ _ _ U3) by (intros ?; simplify_eq).
      destruct (decide (i < S n')).
      + destruct (R2 i ltac:(lia)) as [_ ->]. unfold tag. by rewrite Hsame.
      + unfold tag. rewrite F2 by (simpl; lia). by rewrite Hsame. }
  exists h3. split; [done|]. split; [congruence|]. split.
  { intros c Hc. specialize (Sl c). rewrite Hl1, decide_True in Sl by done.
    by destruct (blocks h3 !! c). }
  split; [done|]. rewrite <-En.
  assert (threaded h3 first (Z.to_nat (pchunk pool)) None) as Hthr.
  { rewrite En. intros i Hi. case_decide.
    + rewrite (updated_nxt_ne _ _ _ _ _ U3) by (intros ?; simplify_eq; lia).
      apply R2. lia.
    + replace i with n' by lia. by rewrite (updated_nxt_eq _ _ _ _ U3). }
  split; [done|].
  apply (one_chunk_inv h3
           (mk_mempool [first] (esize pool) (csize pool) (pchunk pool)
              (flag pool) (Some (first, 0)) (totused pool)) first);
    simpl; try done.
  - apply (inv_esize _ _ _ _ I).
  - apply (inv_csize _ _ _ _ I).
  - apply (inv_csize_max _ _ _ _ I).
  - rewrite Sb, Hb1. apply (inv_brk _ _ _ _ I). rewrite Hcs. by left.
  - intros c. rewrite <-(fmap_is_Some length), Sl, fmap_is_Some, Hl1.
    case_decide as Hc.
    + split; [by intros []|]. by intros ->.
    + rewrite (inv_dom _ _ _ _ I), Hcs, elem_of_cons. tauto.
  - intros blk E. specialize (Sl first). rewrite E, Hl1, decide_False in Sl by done.
    destruct (blocks h !! first) as [blk0|] eqn:E0; simplify_eq/=.
    rewrite <-(inv_blk _ _ _ _ I _ _ E0). done.
  - intros Hit i Hi. rewrite Htag. apply (inv_tags _ _ _ _ I Hit).
    destruct (proj1 (inv_cover _ _ _ _ I (first, i))) as [?|[]%elem_of_nil];
      [|done].
    apply Hin. by rewrite <-En.
Qed.

(** [BLI_mempool_free] of a lent reference on a pool in use. *)
Lemma free_wf h pool lent fl a :
  wf h pool lent fl → a ∈ lent →
  ∃ h' pool' fl',
    BLI_mempool_free h pool a = Some (h', pool') ∧
    wf h' pool' (filter (λ b, b ≠ a) lent) fl' ∧
    esize pool' = esize pool ∧ csize pool' = csize pool ∧
    pchunk pool' = pchunk pool ∧ flag pool' = flag pool ∧
    totused pool' = (totused pool - 1)%Z ∧ brk h' = brk h ∧
    (totused pool ≠ 1%Z ∧ fl' = a :: fl ∧ chunks pool' = chunks pool ∧
       (∀ b, b ≠ a → load h' b = load h b)
     ∨
     totused pool = 1%Z ∧
       fl' = chunk_slots (Z.to_nat (pchunk pool)) (default 0 (head (chunks pool))) ∧
       chunks pool' = take 1 (chunks pool) ∧
       (∀ c, c ∈ tail (chunks pool) → blocks h' !! c = None)).
Proof.
  intros (I & Hne & Hcnt & Hmx) Ha. unfold BLI_mempool_free.
  destruct (free_push _ _ _ _ _ I Ha) as (h1 & h2 & -> & E2 & Hb2 & F2 & I2).
  simpl. rewrite E2; simpl.
  pose proof (inv_nodup _ _ _ _ I) as Hnd.
  apply NoDup_app in Hnd as (_ & _ & Hnd).
  pose proof (length_filter_ne lent a Hnd Ha) as Hlen.
  rewrite int_of_Some by (unfold INT_MIN, INT_MAX in *; lia). simpl.
  apply (inv_set_totused _ _ _ _ (totused pool - 1)%Z) in I2.
  case_decide as Hz.
  - (* nothing is lent any more *)
    assert (filter (λ b, b ≠ a) lent = []) as Hnil.
    { apply length_zero_iff_nil. lia. }
    rewrite Hnil in *.
    destruct (chunks pool) as [|first rest] eqn:Hcs; [done|].
    destruct (free_shrink_inv _ _ _ first rest I2)
      as (h' & E & Hb & Hrel & Htag & Hthr & I'); [done|].
    simpl in *. rewrite E.
    eexists h', _, _. split; [done|]. split_and!; simpl; try done.
    + split; [done|]. simpl. split; [done|]. unfold INT_MAX. lia.
    + congruence.
    + right. split_and!; try done. lia.
  - eexists h2, _, _. split; [done|]. split_and!; simpl; try done.
    + split; [done|]. simpl. split; [done|]. lia.
    + left. split_and!; try done. lia.
Qed.

(** [BLI_mempool_clear] on a pool in use: the first chunk stays and is
    threaded again, the chunks behind it go back to the allocator. *)
Lemma clear_wf h pool lent fl :
  wf h pool lent fl →
  ∃ h' first rest,
    chunks pool = first :: rest ∧
    BLI_mempool_clear h pool
      = Some (h', mk_mempool [first] (esize pool) (csize pool) (pchunk pool)
                    (flag pool) (Some (first, 0)) 0) ∧
    brk h' = brk h ∧
    is_Some (blocks h' !! first) ∧
    (∀ c, c ∈ rest → blocks h' !! c = None) ∧
    (∀ i, i < Z.to_nat (pchunk pool) →
       tag h' (first, i) = if allow_iter (flag pool) then Some FREEWORD
                           else tag h (first, i)) ∧
    wf h' (mk_mempool [first] (esize pool) (csize pool) (pchunk pool)
             (flag pool) (Some (first, 0)) 0)
       [] (chunk_slots (Z.to_nat (pchunk pool)) first).
Proof.
  intros (I & Hne & Hcnt & _). unfold BLI_mempool_clear, mempool_chunk_free_all.
  destruct (chunks pool) as [|first rest] eqn:Hcs; [done|].
  cbn [head]. rewrite BLI_remlink_head. simpl.
  pose proof (inv_pchunk _ _ _ _ I) as Hp.
  pose proof (inv_chunks_NoDup _ _ _ _ I) as Hnd. rewrite Hcs in Hnd.
  apply NoDup_cons in Hnd as [Hfr Hnd].
  destruct (free_chunks_spec rest h Hnd) as (h1 & -> & Hb1 & Hl1).
  { intros c Hc. apply (inv_dom _ _ _ _ I). rewrite Hcs. by right. }
  simpl.
  assert (∀ i, load h1 (first, i) = load h (first, i)) as Hsame.
  { intros i. unfold load; simpl. by rewrite Hl1, decide_False. }
  assert (∀ i, i < Z.to_nat (pchunk pool) → is_Some (load h (first, i))) as Hin.
  { intros i Hi. apply (inv_load _ _ _ _ _ I); simpl. rewrite Hcs.
    split; [by left|done]. }
  destruct (mempool_chunk_add_spec h1
              (set_free (set_totused (set_chunks (set_chunks pool rest) []) 0)
                        None) first None)
    as (h' & E & [Sb Sl] & T' & G' & F' & _); [done| |done|].
  { simpl. intros i Hi. rewrite Hsame. by apply Hin. }
  exists h', first, rest. split; [done|]. split; [by rewrite E|].
  simpl in *.
  split; [congruence|].
  assert (∀ c, is_Some (blocks h' !! c) ↔ c = first) as Hdom.
  { intros c. rewrite <-(fmap_is_Some length), Sl, fmap_is_Some, Hl1.
    case_decide as Hc.
    - split; [by intros []|]. by intros ->.
    - rewrite (inv_dom _ _ _ _ I), Hcs, elem_of_cons. tauto. }
  split; [by apply Hdom|]. split.
  { intros c Hc. specialize (Sl c). rewrite Hl1, decide_True in Sl by done.
    by destruct (blocks h' !! c). }
  split.
  { intros i Hi. rewrite G' by done. destruct (allow_iter (flag pool)); [done|].
    unfold tag. by rewrite Hsame. }
  split; [|done].
  apply (one_chunk_inv h'
           (mk_mempool [first] (esize pool) (csize pool) (pchunk pool)
              (flag pool) (Some (first, 0)) 0) first);
    simpl; try done.
  - apply (inv_esize _ _ _ _ I).
  - apply (inv_csize _ _ _ _ I).
  - apply (inv_csize_max _ _ _ _ I).
  - rewrite Sb, Hb1. apply (inv_brk _ _ _ _ I). rewrite Hcs. by left.
  - intros blk Eb. specialize (Sl first). rewrite Eb, Hl1, decide_False in Sl by done.
    destruct (blocks h !! first) as [blk0|] eqn:E0; simplify_eq/=.
    rewrite <-(inv_blk _ _ _ _ I _ _ E0). done.
  - intros Hit i Hi. rewrite G' by done. by rewrite Hit.
Qed.

(** ** Creation *)

Lemma create_loop_spec k : ∀ h pool,
  inv h pool [] (all_slots pool) →
  ∃ h' pool',
    create_loop garbage k h pool (last (all_slots pool))
      = Some (h', pool', last (all_slots pool')) ∧
    inv h' pool' [] (all_slots pool') ∧
    chunks pool' = chunks pool ++ seq (brk h) k ∧ brk h' = brk h + k ∧
    esize pool' = esize pool ∧ csize pool' = csize pool ∧
    pchunk pool' = pchunk pool ∧ flag pool' = flag pool ∧
    totused pool' = totused pool.
Proof.
  induction k as [|k IH]; intros h pool I; simpl.
  { exists h, pool. rewrite app_nil_r, Nat.add_0_r. done. }
  destruct (add_fresh_inv _ _ _ _ I) as (h1 & E1 & Hb1 & _ & I1).
  unfold mempool_chunk_alloc in *; simpl in *. rewrite E1; simpl.
  set (pool1 := mk_mempool _ _ _ _ _ _ _) in *.
  assert (all_slots pool1
          = all_slots pool ++ chunk_slots (Z.to_nat (pchunk pool)) (brk h)) as Hall.
  { unfold all_slots, pool1; simpl. rewrite bind_app. simpl.
    by rewrite app_nil_r. }
  rewrite <-Hall in I1.
  assert (Some (brk h, Z.to_nat (pchunk pool) - 1) = last (all_slots pool1)) as ->.
  { rewrite Hall, last_chunk_slots; [done|].
    pose proof (inv_pchunk _ _ _ _ I). lia. }
  destruct (IH h1 pool1 I1) as (h' & pool' & E & I' & Hcs & Hb & ? & ? & ? & ? & ?).
  exists h', pool'. split; [done|]. split; [done|].
  split_and!; try done.
  - rewrite Hcs, Hb1. unfold pool1; simpl. by rewrite <-app_assoc.
  - lia.
Qed.

Lemma empty_pool_inv b e cs p f :
  (1 ≤ p ≤ INT_MAX)%Z → (MEMPOOL_ELEM_SIZE_MIN ≤ e)%Z → cs = (e * p)%Z →
  (cs ≤ INT_MAX)%Z →
  inv (mk_heap b ∅) (mk_mempool [] e cs p f None 0) [] [].
Proof.
  intros Hp He Hc Hcm. split; simpl; try done.
  - constructor.
  - by intros ? ?%elem_of_nil.
  - intros c. rewrite lookup_empty. split; [by intros []|by intros ?%elem_of_nil].
  - constructor.
  - constructor.
  - intros a. unfold load; simpl. rewrite lookup_empty. simpl.
    split; [by intros []|]. by intros [?%elem_of_nil|?%elem_of_nil].
  - intros _. split; by intros ? ?%elem_of_nil.
Qed.

Lemma create_core b e t p f :
  (1 ≤ p)%Z → (0 ≤ t)%Z →
  (create_esize e * p ≤ INT_MAX)%Z → (create_maxchunks t p ≤ INT_MAX)%Z →
  ∃ h pool,
    BLI_mempool_create garbage (mk_heap b ∅) e t p f = Some (h, pool) ∧
    wf h pool [] (all_slots pool) ∧
    chunks pool = seq b (Z.to_nat (create_maxchunks t p)) ∧
    brk h = b + Z.to_nat (create_maxchunks t p) ∧
    esize pool = create_esize e ∧ csize pool = (create_esize e * p)%Z ∧
    pchunk pool = p ∧ flag pool = f ∧ totused pool = 0%Z.
Proof.
  unfold create_esize, create_maxchunks. intros Hp Ht Hc Hm.
  assert (0 ≤ t ÷ p)%Z as Hq by (apply Z.quot_pos; lia).
  unfold BLI_mempool_create.
  assert ((if decide (e < MEMPOOL_ELEM_SIZE_MIN)%Z
           then MEMPOOL_ELEM_SIZE_MIN else e)
          = Z.max e MEMPOOL_ELEM_SIZE_MIN) as -> by (case_decide; lia).
  set (e' := Z.max e MEMPOOL_ELEM_SIZE_MIN) in *.
  assert (MEMPOOL_ELEM_SIZE_MIN ≤ e')%Z as He by (unfold e'; lia).
  assert ((if allow_iter f then Z.max e' sizeof_BLI_freenode else e') = e') as ->.
  { destruct (allow_iter f); [|done].
    unfold MEMPOOL_ELEM_SIZE_MIN, sizeof_ptr, sizeof_BLI_freenode in *. lia. }
  assert (0 < e')%Z by (unfold MEMPOOL_ELEM_SIZE_MIN, sizeof_ptr in He; lia).
  rewrite int_of_Some by (unfold INT_MIN; nia). simpl.
  rewrite decide_False by lia.
  rewrite int_of_Some by (unfold INT_MIN; lia). simpl.
  rewrite int_of_Some by (unfold INT_MIN; lia). simpl.
  rewrite decide_False by lia.
  destruct (create_loop_spec (Z.to_nat (t ÷ p + 1)) (mk_heap b ∅)
              (mk_mempool [] e' (e' * p) p f None 0))
    as (h & pool & E & I & Hcs & Hb & ? & ? & ? & ? & Ht0).
  { apply empty_pool_inv; [|done..]. nia. }
  change (last (all_slots _)) with (@None (nat * nat)) in E at 1.
  rewrite E; simpl. exists h, pool. split; [done|]. simpl in *.
  split_and!; try done.
  split; [done|]. split; [|rewrite Ht0; simpl; unfold INT_MAX; lia].
  rewrite Hcs. destruct (Z.to_nat (t ÷ p + 1)) eqn:?; [lia|done].
Qed.


(** What [BLI_mempool_create] returns. *)
Lemma create_spec b e t p f h pool :
  (1 ≤ p)%Z → (0 ≤ t)%Z →
  BLI_mempool_create garbage (mk_heap b ∅) e t p f = Some (h, pool) →
  wf h pool [] (all_slots pool) ∧
  chunks pool = seq b (Z.to_nat (create_maxchunks t p)) ∧
  brk h = b + Z.to_nat (create_maxchunks t p) ∧
  esize pool = create_esize e ∧ csize pool = (create_esize e * p)%Z ∧
  pchunk pool = p ∧ flag pool = f ∧ totused pool = 0%Z.
Proof.
  intros Hp Ht E.
  assert ((create_esize e * p ≤ INT_MAX)%Z ∧ (create_maxchunks t p ≤ INT_MAX)%Z)
    as [Hc Hm].
  { unfold BLI_mempool_create in E.
    apply bind_Some in E as (cs & [_ Hcs]%int_of_inv & E).
    apply bind_Some in E as (q & Eq & E).
    apply bind_Some in E as (m & [_ Hmx]%int_of_inv & _).
    rewrite decide_False in Eq by lia. apply int_of_inv in Eq as [-> _].
    unfold create_esize, create_maxchunks. split; [|lia].
    case_decide; lia. }
  destruct (create_core b e t p f Hp Ht Hc Hm) as (h' & pool' & E' & R).
  rewrite E in E'. by simplify_eq.
Qed.

(** ** Runs of client calls *)

(** The client stores into an element it holds. *)
Lemma write_wf h pool lent fl a nd :
  wf h pool lent fl → a ∈ lent →
  (allow_iter (flag pool) = true → freeword nd ≠ FREEWORD) →
  ∃ h', store h a nd = Some h' ∧ wf h' pool lent fl.
Proof.
  intros (I & Hne & Hcnt) Ha Hnd.
  assert (is_Some (load h a)) as Hl by (apply (inv_cover _ _ _ _ I); by right).
  destruct (store_is_Some h a nd Hl) as [h' E]. exists h'. split; [done|].
  apply store_Some in E as [_ U].
  pose proof (updated_shape _ _ _ _ U) as [Sb Sl].
  pose proof (inv_nodup _ _ _ _ I) as N.
  apply NoDup_app in N as (_ & N & _).
  assert (a ∉ fl) as Hfl by (intros ?; by apply (N a)).
  split; [|done]. split.
  - apply (inv_pchunk _ _ _ _ I).
  - apply (inv_esize _ _ _ _ I).
  - apply (inv_csize _ _ _ _ I).
  - apply (inv_csize_max _ _ _ _ I).
  - apply (inv_sorted _ _ _ _ I).
  - intros c Hc. rewrite Sb. by apply (inv_brk _ _ _ _ I).
  - intros c. rewrite <-(inv_dom _ _ _ _ I). by apply same_shape_block.
  - intros c blk Eb.
    destruct (same_shape_length h h' c blk) as (blk0 & E0 & <-); [done..|].
    by apply (inv_blk _ _ _ _ I c).
  - apply chain_frame with h; [apply (inv_chain _ _ _ _ I)|].
    intros b Hb. eapply updated_nxt_ne; [done|]. by intros ->.
  - apply (inv_nodup _ _ _ _ I).
  - intros b. rewrite (same_shape_load h h' b) by done.
    apply (inv_cover _ _ _ _ I).
  - intros Hit. destruct (inv_tags _ _ _ _ I Hit) as [Tf Tl]. split.
    + intros b Hb. rewrite (updated_tag_ne _ _ _ _ _ U) by (by intros ->).
      by apply Tf.
    + intros b Hb. destruct (decide (b = a)) as [->|Hba].
      * exists (freeword nd). split; [by eapply updated_tag_eq|by apply Hnd].
      * rewrite (updated_tag_ne _ _ _ _ _ U) by done. by apply Tl.
Qed.

Lemma alloc_range h pool r :
  BLI_mempool_alloc garbage h pool = Some r → (totused pool < INT_MAX)%Z.
Proof.
  unfold BLI_mempool_alloc. intros (t & [_ ?]%int_of_inv & _)%bind_Some. lia.
Qed.

(** After a run on a pool in use the pool is in use, with its
    configuration. *)
Lemma run_wf ops : ∀ h pool lent fl h' pool' lent',
  wf h pool lent fl →
  run garbage ops h pool lent = Some (h', pool', lent') →
  ∃ fl', wf h' pool' lent' fl' ∧
         esize pool' = esize pool ∧ csize pool' = csize pool ∧
         pchunk pool' = pchunk pool ∧ flag pool' = flag pool.
Proof.
  induction ops as [|o ops IH]; intros h pool lent fl h' pool' lent' W R;
    simpl in R.
  { simplify_eq. by exists fl. }
  destruct o as [|a| |a nd].
  - apply bind_Some in R as ([[h1 pool1] r] & E & R).
    apply bind_Some in R as (a & -> & R).
    destruct (alloc_wf _ _ _ _ W (alloc_range _ _ _ E))
      as (h2 & pool2 & a2 & fl2 & E2 & W2 & He & Hc & Hp & Hf & _ & _ & _).
    rewrite E in E2. simplify_eq.
    destruct (IH _ _ _ _ _ _ _ W2 R) as (fl' & ? & ? & ? & ? & ?).
    exists fl'. split_and!; congruence.
  - case_decide as Ha; [|done].
    apply bind_Some in R as ([h1 pool1] & E & R).
    destruct (free_wf _ _ _ _ _ W Ha)
      as (h2 & pool2 & fl2 & E2 & W2 & He & Hc & Hp & Hf & _).
    rewrite E in E2. simplify_eq.
    destruct (IH _ _ _ _ _ _ _ W2 R) as (fl' & ? & ? & ? & ? & ?).
    exists fl'. split_and!; congruence.
  - apply bind_Some in R as ([h1 pool1] & E & R).
    destruct (clear_wf _ _ _ _ W) as (h2 & first & rest & _ & E2 & _ & _ & _ & _ & W2).
    rewrite E in E2. simplify_eq.
    destruct (IH _ _ _ _ _ _ _ W2 R) as (fl' & ? & ? & ? & ? & ?).
    exists fl'. split_and!; simpl in *; congruence.
  - case_decide as Hw; [|done]. destruct Hw as [Ha Hnd].
    apply bind_Some in R as (h1 & E & R).
    destruct (write_wf _ _ _ _ _ _ W Ha Hnd) as (h2 & E2 & W2).
    rewrite E in E2. simplify_eq. by apply (IH _ _ _ _ _ _ _ W2 R).
Qed.

(** ** Iteration *)

Lemma iter_rest_new pool : iter_rest pool (BLI_mempool_iternew pool) = all_slots pool.
Proof.
  unfold iter_rest, all_slots, BLI_mempool_iternew; simpl.
  destruct (chunks pool) as [|c rest]; [done|].
  by rewrite Nat.sub_0_r.
Qed.

Lemma iter_ok_new pool : (1 ≤ pchunk pool)%Z → iter_ok pool (BLI_mempool_iternew pool).
Proof. intros. right. simpl. lia. Qed.

(** Moving the cursor by one slot. *)
Lemma iter_rest_step pool c rest idx :
  (0 ≤ idx < pchunk pool)%Z →
  iter_rest pool (mk_iter (c :: rest) idx)
  = (c, Z.to_nat idx)
    :: iter_rest pool (if decide (idx + 1 >= pchunk pool)%Z
                       then mk_iter rest 0 else mk_iter (c :: rest) (idx + 1)).
Proof.
  intros Hi. unfold iter_rest at 1; simpl.
  destruct (Z.to_nat (pchunk pool) - Z.to_nat idx) as [|k] eqn:Ek; [lia|].
  simpl. f_equal. case_decide as Hd.
  - assert (k = 0) as -> by lia. simpl. unfold iter_rest; simpl.
    destruct rest as [|c2 rest]; [done|]. simpl. by rewrite Nat.sub_0_r.
  - unfold iter_rest; simpl.
    replace (Z.to_nat (idx + 1)) with (S (Z.to_nat idx)) by lia.
    replace (Z.to_nat (pchunk pool) - S (Z.to_nat idx)) with k by lia. done.
Qed.

Lemma iter_rest_length pool iter :
  (1 ≤ pchunk pool)%Z → iter_ok pool iter →
  length (iter_rest pool iter) < iterstep_fuel pool iter.
Proof.
  intros Hp Hok. unfold iter_rest, iterstep_fuel.
  replace (Z.max 1 (pchunk pool)) with (pchunk pool) by lia.
  destruct (curchunk iter) as [|c rest]; [simpl; lia|].
  rewrite length_app, length_fmap, length_seq.
  assert (length (rest ≫= chunk_slots (Z.to_nat (pchunk pool)))
          = length rest * Z.to_nat (pchunk pool)) as ->; [|simpl; lia].
  clear. induction rest as [|c2 rest IH]; [done|].
  rewrite bind_cons, length_app, length_chunk_slots, IH. simpl. lia.
Qed.

Section Iterate.

Variables (h : heap) (pool : BLI_mempool).
Hypothesis Hp : (1 ≤ pchunk pool ≤ INT_MAX)%Z.
Hypothesis He : (0 ≤ esize pool)%Z.
Hypothesis Hc : (esize pool * pchunk pool ≤ INT_MAX)%Z.

(** The loop of [BLI_mempool_iterstep] returns the first untagged slot in
    front of the cursor and leaves the cursor behind it; NULL when there is
    none. *)
Lemma iterstep_loop_spec fuel : ∀ iter,
  iter_ok pool iter →
  (∀ a, a ∈ iter_rest pool iter → is_Some (load h a)) →
  length (iter_rest pool iter) < fuel →
  ∃ iter',
    iterstep_loop fuel h pool iter
      = Some (head (filter (untagged h) (iter_rest pool iter)), iter') ∧
    filter (untagged h) (iter_rest pool iter')
      = tail (filter (untagged h) (iter_rest pool iter)) ∧
    iter_ok pool iter' ∧
    (∀ a, a ∈ iter_rest pool iter' → a ∈ iter_rest pool iter).
Proof.
  induction fuel as [|fuel IH]; intros [cs idx] Hok Hld Hf; [lia|].
  simpl. destruct cs as [|c rest].
  { exists (mk_iter [] idx). by repeat split. }
  destruct Hok as [?|Hidx]; [done|]. simpl in Hidx.
  rewrite iter_rest_step in * by done.
  rewrite (int_of_Some (esize pool * idx)) by (unfold INT_MIN; nia). simpl.
  rewrite int_of_Some by (unfold INT_MIN; lia). simpl.
  set (iter' := if decide (idx + 1 >= pchunk pool)%Z
                then mk_iter rest 0 else mk_iter (c :: rest) (idx + 1)) in *.
  assert (iter_ok pool iter') as Hok'.
  { unfold iter', iter_ok. case_decide; simpl.
    - destruct rest; [by left|right; lia].
    - right. lia. }
  destruct (Hld (c, Z.to_nat idx) ltac:(left)) as [nd End]. rewrite End; simpl.
  assert (untagged h (c, Z.to_nat idx) ↔ freeword nd ≠ FREEWORD) as Hu.
  { unfold untagged, tag. rewrite End; simpl.
    split; [intros Hn ?; apply Hn; by f_equal|by intros Hn [= ?]]. }
  rewrite filter_cons. case_decide as Hfw.
  - (* a free slot: go on *)
    rewrite decide_False by (by intros ?%Hu).
    destruct (IH iter' Hok') as (iter'' & -> & Hfl & Hok'' & Hsub).
    { intros a Ha. apply Hld. by right. }
    { simpl in Hf. lia. }
    exists iter''. split; [done|]. split; [done|]. split; [done|].
    intros a Ha. right. by apply Hsub.
  - rewrite decide_True by (by apply Hu).
    exists iter'. split; [done|]. split; [done|]. split; [done|].
    intros a Ha. by right.
Qed.

Hypothesis Hused : totused pool ≠ 0%Z.

Lemma iterstep_spec iter :
  iter_ok pool iter →
  (∀ a, a ∈ iter_rest pool iter → is_Some (load h a)) →
  ∃ iter',
    BLI_mempool_iterstep h pool iter
      = Some (head (filter (untagged h) (iter_rest pool iter)), iter') ∧
    filter (untagged h) (iter_rest pool iter')
      = tail (filter (untagged h) (iter_rest pool iter)) ∧
    iter_ok pool iter' ∧
    (∀ a, a ∈ iter_rest pool iter' → a ∈ iter_rest pool iter).
Proof.
  intros Hok Hld. unfold BLI_mempool_iterstep. rewrite decide_False by done.
  apply iterstep_loop_spec; [done..|]. apply iter_rest_length; [lia|done].
Qed.

(** Stepping until NULL lists the untagged slots in front of the cursor. *)
Lemma as_table_loop_spec fuel : ∀ iter,
  iter_ok pool iter →
  (∀ a, a ∈ iter_rest pool iter → is_Some (load h a)) →
  length (filter (untagged h) (iter_rest pool iter)) < fuel →
  as_table_loop fuel h pool iter
    = Some (filter (untagged h) (iter_rest pool iter)).
Proof.
  induction fuel as [|fuel IH]; intros iter Hok Hld Hf; [lia|]. simpl.
  destruct (iterstep_spec iter Hok Hld) as (iter' & -> & Hfl & Hok' & Hsub).
  simpl. destruct (filter (untagged h) (iter_rest pool iter)) as [|a l] eqn:El;
    simpl in *; [done|].
  rewrite IH; [by rewrite Hfl|done|by auto|rewrite Hfl; lia].
Qed.

(** The loop of [BLI_mempool_findelem]. *)
Lemma findelem_loop_spec n : ∀ elem iter,
  iter_ok pool iter →
  (∀ a, a ∈ iter_rest pool iter → is_Some (load h a)) →
  findelem_loop n h pool elem iter
    = Some (match n with
            | O => elem
            | S m => filter (untagged h) (iter_rest pool iter) !! m
            end).
Proof.
  induction n as [|n IH]; intros elem iter Hok Hld; [done|]. simpl.
  destruct (iterstep_spec iter Hok Hld) as (iter' & -> & Hfl & Hok' & Hsub).
  simpl. rewrite IH by auto. rewrite Hfl. f_equal.
  generalize (filter (untagged h) (iter_rest pool iter)) as L.
  intros [|a l]; by destruct n.
Qed.

End Iterate.

Lemma filter_ext_in {A} (P1 P2 : A → Prop) `{!∀ x, Decision (P1 x)}
    `{!∀ x, Decision (P2 x)} (l : list A) :
  (∀ x, x ∈ l → P1 x ↔ P2 x) → filter P1 l = filter P2 l.
Proof.
  induction l as [|x l IH]; intros Hx; [done|].
  rewrite !filter_cons. rewrite IH by (intros; apply Hx; by right).
  destruct (decide (P1 x)) as [H1|H1], (decide (P2 x)) as [H2|H2]; try done.
  - destruct H2. apply Hx; [by left|done].
  - destruct H1. apply Hx; [by left|done].
Qed.

Lemma FREEWORD_USEDWORD : FREEWORD ≠ USEDWORD.
Proof. done. Qed.

(** With iteration enabled the tag tells the lent slots from the free. *)
Lemma untagged_lent h pool lent fl a :
  inv h pool lent fl → allow_iter (flag pool) = true →
  a ∈ all_slots pool → untagged h a ↔ a ∈ lent.
Proof.
  intros I Hit Ha. destruct (inv_tags _ _ _ _ I Hit) as [Tf Tl].
  apply (inv_all_slots _ _ _ _ _ I) in Ha as [Ha|Ha]; unfold untagged.
  - rewrite (Tf a Ha). split; [done|]. intros Hl.
    pose proof (inv_nodup _ _ _ _ I) as Hnd.
    apply NoDup_app in Hnd as (_ & Hnd & _). destruct (Hnd a Ha Hl).
  - destruct (Tl a Ha) as (w & -> & Hw). split; [done|]. by intros _ [= ?].
Qed.

Lemma lent_in_order_perm h pool lent fl :
  inv h pool lent fl → lent_in_order pool lent ≡ₚ lent.
Proof.
  intros I. pose proof (inv_nodup _ _ _ _ I) as Hnd.
  apply NoDup_app in Hnd as (_ & _ & Hnd).
  apply NoDup_Permutation; [|done|].
  - apply NoDup_filter, NoDup_all_slots. by eapply inv_chunks_NoDup.
  - intros a. unfold lent_in_order. rewrite list_elem_of_filter.
    rewrite (inv_all_slots _ _ _ _ _ I). tauto.
Qed.

Lemma filter_elem_of_nil (l : list slot) : filter (λ a, a ∈ []) l = [].
Proof.
  induction l as [|x l IH]; [done|].
  by rewrite filter_cons_False by apply not_elem_of_nil.
Qed.

(** Iterating a pool in use from a new iterator until exhaustion. *)
Lemma as_table_wf h pool lent fl :
  wf h pool lent fl → allow_iter (flag pool) = true →
  BLI_mempool_as_table h pool = Some (lent_in_order pool lent).
Proof.
  intros (I & Hne & Hcnt & Hmx) Hit.
  pose proof (inv_pchunk _ _ _ _ I) as Hp.
  assert (filter (untagged h) (all_slots pool) = lent_in_order pool lent) as Hfl.
  { apply filter_ext_in. intros a Ha. by eapply untagged_lent. }
  unfold BLI_mempool_as_table.
  destruct (decide (totused pool = 0%Z)) as [Hz|Hnz].
  - simpl. unfold BLI_mempool_iterstep. rewrite decide_True by done. simpl.
    assert (lent = []) as -> by (apply length_zero_iff_nil; lia).
    f_equal. unfold lent_in_order. symmetry. apply filter_elem_of_nil.
  - pose proof (inv_esize _ _ _ _ I) as He.
    pose proof (inv_csize _ _ _ _ I) as Hc.
    pose proof (inv_csize_max _ _ _ _ I) as Hcm.
    unfold MEMPOOL_ELEM_SIZE_MIN, sizeof_ptr in He.
    rewrite as_table_loop_spec; try done; try lia.
    + by rewrite iter_rest_new, Hfl.
    + apply iter_ok_new. lia.
    + intros a Ha. rewrite iter_rest_new in Ha.
      apply (inv_load _ _ _ _ _ I). by apply elem_of_all_slots.
    + rewrite iter_rest_new.
      pose proof (length_filter (untagged h) (all_slots pool)) as Hlf.
      pose proof (iter_rest_length pool (BLI_mempool_iternew pool)
                    ltac:(lia) ltac:(apply iter_ok_new; lia)) as Hlen.
      rewrite iter_rest_new in Hlen. unfold iterstep_fuel in Hlen.
      simpl in Hlen. lia.
Qed.

(** ** Reachable states *)

Lemma created_wf h pool : created garbage h pool → wf h pool [] (all_slots pool).
Proof.
  intros (b & e & t & p & f & Ht & Hp & E).
  by destruct (create_spec _ _ _ _ _ _ _ Hp Ht E) as [W _].
Qed.

Lemma reached_wf ops h pool lent :
  reached garbage ops h pool lent → ∃ fl, wf h pool lent fl.
Proof.
  intros (h0 & pool0 & W%created_wf & R).
  destruct (run_wf _ _ _ _ _ _ _ _ W R) as (fl & W' & _). eauto.
Qed.

(** Progress: on a reachable state every step of the client returns. *)
Lemma reached_alloc_total ops h pool lent :
  reached garbage ops h pool lent → (totused pool < INT_MAX)%Z →
  is_Some (BLI_mempool_alloc garbage h pool).
Proof.
  intros [fl W]%reached_wf Hm.
  destruct (alloc_wf _ _ _ _ W Hm) as (? & ? & ? & ? & -> & _). eauto.
Qed.

Lemma reached_free_total ops h pool lent a :
  reached garbage ops h pool lent → a ∈ lent → is_Some (BLI_mempool_free h pool a).
Proof.
  intros [fl W]%reached_wf Ha.
  destruct (free_wf _ _ _ _ _ W Ha) as (? & ? & ? & -> & _). eauto.
Qed.

Lemma reached_clear_total ops h pool lent :
  reached garbage ops h pool lent → is_Some (BLI_mempool_clear h pool).
Proof.
  intros [fl W]%reached_wf.
  destruct (clear_wf _ _ _ _ W) as (? & ? & ? & _ & -> & _). eauto.
Qed.

(** ** The count *)

(** What the calls do to [totused]: this needs no invariant. *)
Lemma chunk_add_totused h pool c lasttail h' pool' r :
  mempool_chunk_add h pool c lasttail = Some (h', pool', r) →
  totused pool' = totused pool.
Proof.
  unfold mempool_chunk_add. intros E.
  apply bind_Some in E as (last & _ & E).
  apply bind_Some in E as ([h1 pool1] & E1 & E).
  apply bind_Some in E as ([h2 cur] & _ & E).
  apply bind_Some in E as (c' & _ & E).
  apply bind_Some in E as (h3 & _ & E).
  apply bind_Some in E as (h4 & _ & E). simplify_eq.
  simpl in E1. destruct (free pool).
  - by simplify_eq.
  - apply bind_Some in E1 as (h0 & _ & E1). by simplify_eq.
Qed.

Lemma create_loop_totused n : ∀ h pool lasttail h' pool' r,
  create_loop garbage n h pool lasttail = Some (h', pool', r) →
  totused pool' = totused pool.
Proof.
  induction n as [|n IH]; intros h pool lasttail h' pool' r E; simpl in E.
  { by simplify_eq. }
  apply bind_Some in E as ([[h1 pool1] cur] & E1 & E).
  rewrite (IH _ _ _ _ _ _ E). by eapply chunk_add_totused.
Qed.

Lemma create_totused h0 e t p f h pool :
  BLI_mempool_create garbage h0 e t p f = Some (h, pool) → totused pool = 0%Z.
Proof.
  unfold BLI_mempool_create. intros E.
  apply bind_Some in E as (cs & _ & E).
  apply bind_Some in E as (q & _ & E).
  apply bind_Some in E as (m & _ & E).
  apply bind_Some in E as ([[h1 pool1] r] & E1 & E). simplify_eq.
  by rewrite (create_loop_totused _ _ _ _ _ _ _ E1).
Qed.

Lemma alloc_totused h pool h' pool' r :
  BLI_mempool_alloc garbage h pool = Some (h', pool', r) →
  totused pool' = (totused pool + 1)%Z.
Proof.
  unfold BLI_mempool_alloc. intros E.
  apply bind_Some in E as (tot & [-> _]%int_of_inv & E).
  apply bind_Some in E as ([h1 pool1] & E1 & E).
  apply bind_Some in E as (hd & _ & E).
  apply bind_Some in E as (h2 & _ & E).
  apply bind_Some in E as (nd & _ & E). simplify_eq. simpl.
  simpl in E1. destruct (free pool).
  - by simplify_eq/=.
  - apply bind_Some in E1 as ([[h0 pool0] r0] & E0 & E1). simplify_eq/=.
    by rewrite (chunk_add_totused _ _ _ _ _ _ _ E0).
Qed.

Lemma free_totused h pool a h' pool' :
  BLI_mempool_free h pool a = Some (h', pool') →
  totused pool' = (totused pool - 1)%Z.
Proof.
  unfold BLI_mempool_free. intros E.
  apply bind_Some in E as (h1 & _ & E).
  apply bind_Some in E as (h2 & _ & E).
  apply bind_Some in E as (tot & [-> _]%int_of_inv & E). simpl in E.
  case_decide; [|by simplify_eq].
  unfold free_shrink, mempool_chunk_free_all in E.
  apply bind_Some in E as ([h3 pool3] & E3 & E).
  apply bind_Some in E3 as (h4 & _ & E3).
  apply bind_Some in E as (first & _ & E).
  apply bind_Some in E as ([h5 cur] & _ & E).
  apply bind_Some in E as (c' & _ & E).
  apply bind_Some in E as (h6 & _ & E). by simplify_eq.
Qed.

Lemma clear_totused h pool h' pool' :
  BLI_mempool_clear h pool = Some (h', pool') → totused pool' = 0%Z.
Proof.
  unfold BLI_mempool_clear, mempool_chunk_free_all. intros E.
  apply bind_Some in E as ([h1 pool1] & E1 & E).
  apply bind_Some in E1 as (h2 & _ & E1).
  apply bind_Some in E as (first & _ & E).
  apply bind_Some in E as ([[h3 pool3] r] & E3 & E). simplify_eq.
  by rewrite (chunk_add_totused _ _ _ _ _ _ _ E3).
Qed.

Lemma run_totused ops : ∀ h pool lent h' pool' lent',
  run garbage ops h pool lent = Some (h', pool', lent') →
  totused pool' = foldl net_step (totused pool) ops.
Proof.
  induction ops as [|o ops IH]; intros h pool lent h' pool' lent' R;
    simpl in R.
  { by simplify_eq. }
  destruct o as [|a| |a nd]; simpl.
  - apply bind_Some in R as ([[h1 pool1] r] & E & R).
    apply bind_Some in R as (a & -> & R).
    by rewrite (IH _ _ _ _ _ _ R), (alloc_totused _ _ _ _ _ E).
  - case_decide as Ha; [|done].
    apply bind_Some in R as ([h1 pool1] & E & R).
    by rewrite (IH _ _ _ _ _ _ R), (free_totused _ _ _ _ _ E).
  - apply bind_Some in R as ([h1 pool1] & E & R).
    by rewrite (IH _ _ _ _ _ _ R), (clear_totused _ _ _ _ E).
  - case_decide as Hw; [|done].
    apply bind_Some in R as (h1 & E & R). by rewrite (IH _ _ _ _ _ _ R).
Qed.

(** C1. After any run of allocate and free calls on a pool that
    [BLI_mempool_create] returned, [BLI_mempool_count] is the number of
    allocations minus the number of frees; a clear sets the count back
    to 0. *)
Theorem count_allocs_minus_frees h00 e t p f ops h0 pool0 h pool lent :
  BLI_mempool_create garbage h00 e t p f = Some (h0, pool0) →
  run garbage ops h0 pool0 [] = Some (h, pool, lent) →
  BLI_mempool_count pool = net ops.
Proof.
  intros C R. unfold BLI_mempool_count, net.
  by rewrite (run_totused _ _ _ _ _ _ _ R), (create_totused _ _ _ _ _ _ _ C).
Qed.

(** ** Shrinking *)

(** C2. When a free brings the count to zero, one chunk is left, the one
    that was first; its slots, in slot order, are the free list, so no entry
    of the list lies in a released chunk; the chunks behind the first are
    released; and the next allocation returns the first slot of that chunk
    without a new chunk. *)
Theorem free_to_zero_keeps_first_chunk ops h pool lent a h' pool' :
  reached garbage ops h pool lent → a ∈ lent →
  BLI_mempool_free h pool a = Some (h', pool') →
  BLI_mempool_count pool' = 0%Z →
  ∃ first,
    head (chunks pool) = Some first ∧
    chunks pool' = [first] ∧
    (∀ c, is_Some (blocks h' !! c) ↔ c = first) ∧
    (∀ c, c ∈ tail (chunks pool) → blocks h' !! c = None) ∧
    chain h' (free pool') (chunk_slots (Z.to_nat (pchunk pool)) first) ∧
    length (chunk_slots (Z.to_nat (pchunk pool)) first)
      = Z.to_nat (pchunk pool) ∧
    ∃ h'' pool'',
      BLI_mempool_alloc garbage h' pool' = Some (h'', pool'', Some (first, 0)) ∧
      chunks pool'' = [first] ∧ brk h'' = brk h'.
Proof.
  intros [fl W]%reached_wf Ha E Hz. unfold BLI_mempool_count in Hz.
  destruct (free_wf _ _ _ _ _ W Ha)
    as (h2 & pool2 & fl2 & E2 & W2 & _ & _ & Hp & _ & Ht & Hb & Hcase).
  rewrite E in E2. simplify_eq.
  destruct Hcase as [(Hne & _)|(_ & -> & Hcs & Hrel)]; [lia|].
  destruct W as (I & Hnil & _).
  destruct (chunks pool) as [|first rest] eqn:Hc; [done|]. simpl in *.
  exists first. split; [done|]. split; [done|].
  destruct W2 as (I2 & Hnil2 & Hcnt2 & Hmx2).
  split.
  { intros c. rewrite (inv_dom _ _ _ _ I2), Hcs. apply list_elem_of_singleton. }
  split; [done|]. split.
  { apply (inv_chain _ _ _ _ I2). }
  split; [apply length_chunk_slots|].
  destruct (alloc_wf h2 pool2 _ _ (conj I2 (conj Hnil2 (conj Hcnt2 Hmx2))))
    as (h3 & pool3 & a3 & fl3 & E3 & _ & _ & _ & _ & _ & _ & _ & Hcase).
  { rewrite Hz. done. }
  assert (0 < Z.to_nat (pchunk pool2)) as Hn
    by (pose proof (inv_pchunk _ _ _ _ I2); lia).
  rewrite Hp in *.
  destruct (Z.to_nat (pchunk pool)) as [|n] eqn:En; [lia|].
  unfold chunk_slots in Hcase. simpl in Hcase.
  destruct Hcase as [(Hfl & Hb3 & Hcs3 & _)|(Hfl & _)]; [|done].
  injection Hfl as <- _. exists h3, pool3. split; [done|].
  split; [by rewrite Hcs3|done].
Qed.

(** ** Iteration *)

(** C3. On a pool with iteration enabled, stepping a new iterator until it
    returns NULL yields the references the client holds, each once: as many
    as the count, none that was freed, in the order of the chunk list (the
    order of allocation of the chunks), then of the slots in the chunk. *)
Theorem iteration_yields_live_references ops h pool lent :
  reached garbage ops h pool lent → allow_iter (flag pool) = true →
  ∃ l,
    BLI_mempool_as_table h pool = Some l ∧
    Z.of_nat (length l) = BLI_mempool_count pool ∧
    NoDup l ∧
    (∀ a, a ∈ l ↔ a ∈ lent) ∧
    (∀ fl a, chain h (free pool) fl → a ∈ fl → a ∉ l) ∧
    l = filter (λ a, a ∈ lent) (all_slots pool) ∧
    StronglySorted lt (chunks pool).
Proof.
  intros [fl W]%reached_wf Hit. exists (lent_in_order pool lent).
  split; [by eapply as_table_wf|].
  destruct W as (I & _ & Hcnt & _).
  pose proof (lent_in_order_perm _ _ _ _ I) as Hperm.
  split; [by rewrite Hperm|]. split.
  { apply NoDup_filter, NoDup_all_slots. by eapply inv_chunks_NoDup. }
  split; [intros a; by rewrite Hperm|]. split.
  { intros fl' a Hch Ha. rewrite Hperm.
    rewrite (chain_inj _ _ _ _ Hch (inv_chain _ _ _ _ I)) in Ha.
    pose proof (inv_nodup _ _ _ _ I) as Hnd.
    apply NoDup_app in Hnd as (_ & Hnd & _). by apply Hnd. }
  split; [done|]. apply (inv_sorted _ _ _ _ I).
Qed.

(** ** The chunks made at creation *)

(** C4, amended. [BLI_mempool_create] makes [totelem / pchunk + 1] chunks.
    That is the estimate rounded up to whole chunks when the estimate is 0 or
    not a multiple of the chunk length; for a positive multiple it is one
    chunk more. *)
Theorem create_chunk_count b e t p f h pool :
  (0 ≤ t)%Z → (1 ≤ p)%Z →
  BLI_mempool_create garbage (mk_heap b ∅) e t p f = Some (h, pool) →
  Z.of_nat (length (chunks pool)) = (t / p + 1)%Z ∧
  (t = 0%Z ∨ (t mod p)%Z ≠ 0%Z →
     Z.of_nat (length (chunks pool)) = spec_chunks_needed t p) ∧
  ((0 < t)%Z → (t mod p)%Z = 0%Z →
     Z.of_nat (length (chunks pool)) = (spec_chunks_needed t p + 1)%Z).
Proof.
  intros Ht Hp E.
  destruct (create_spec _ _ _ _ _ _ _ Hp Ht E) as (_ & Hcs & _).
  rewrite Hcs, length_seq. unfold create_maxchunks, spec_chunks_needed.
  rewrite Z.quot_div_nonneg by lia.
  pose proof (Z.div_pos t p ltac:(lia) ltac:(lia)) as Hq.
  pose proof (Z.div_mod t p ltac:(lia)) as Hdm.
  pose proof (Z.mod_pos_bound t p ltac:(lia)) as Hm.
  rewrite Z2Nat.id by lia. split; [done|]. split.
  - intros [->|Hr].
    + rewrite Z.div_0_l by lia.
      rewrite (Z.div_small (0 + p - 1) p) by lia. lia.
    + assert ((t + p - 1) / p = t / p + 1)%Z as ->; [|lia].
      symmetry. apply (Z.div_unique _ _ _ (t mod p - 1)); lia.
  - intros Hpos Hr.
    assert ((t + p - 1) / p = t / p)%Z as ->.
    { symmetry. apply (Z.div_unique _ _ _ (p - 1)); lia. }
    assert (t / p ≠ 0)%Z by (intros Hz; rewrite Hz, Hr in Hdm; lia).
    lia.
Qed.

(** ** Clear *)

Lemma chain_nxt h p l :
  chain h p l → ∀ i a, l !! i = Some a → nxt h a = Some (l !! S i).
Proof.
  induction 1 as [|a nd l E Hc IH]; intros i b Hi; [done|].
  destruct i as [|i]; simpl in *.
  - simplify_eq. unfold nxt. rewrite E; simpl. f_equal.
    rewrite (chain_head _ _ _ Hc). by destruct l.
  - by apply IH.
Qed.

(** Two memories that hold the same pool with nothing lent agree on every
    link, and on every tag when iteration is enabled. *)
Lemma inv_unlent_agree h1 h2 pool fl a :
  inv h1 pool [] fl → inv h2 pool [] fl →
  nxt h1 a = nxt h2 a ∧
  (allow_iter (flag pool) = true → tag h1 a = tag h2 a).
Proof.
  intros I1 I2. destruct (decide (a ∈ fl)) as [Ha|Ha].
  - apply list_elem_of_lookup in Ha as [i Hi]. split.
    + rewrite (chain_nxt _ _ _ (inv_chain _ _ _ _ I1) _ _ Hi).
      by rewrite (chain_nxt _ _ _ (inv_chain _ _ _ _ I2) _ _ Hi).
    + intros Hit. apply list_elem_of_lookup_2 in Hi.
      destruct (inv_tags _ _ _ _ I1 Hit) as [T1 _].
      destruct (inv_tags _ _ _ _ I2 Hit) as [T2 _]. by rewrite T1, T2.
  - assert (load h1 a = None) as E1.
    { apply eq_None_not_Some. intros [?|[]%elem_of_nil]%(inv_cover _ _ _ _ I1).
      done. }
    assert (load h2 a = None) as E2.
    { apply eq_None_not_Some. intros [?|[]%elem_of_nil]%(inv_cover _ _ _ _ I2).
      done. }
    unfold nxt, tag. by rewrite E1, E2.
Qed.

(** C5, amended. [BLI_mempool_clear] keeps the first chunk: it is neither
    released nor replaced, and no chunk is allocated.  The chunks behind it
    are released, the count is 0, the configuration is unchanged, and the
    free list is rebuilt in the first chunk, in slot order.  The pool is then
    as [BLI_mempool_create] returns it for the same configuration and an
    estimate of 0, when the chunk made is the one kept: the same handle, the
    same links, and the same tags when iteration is enabled. *)
Theorem clear_keeps_first_chunk ops h pool lent :
  reached garbage ops h pool lent →
  ∃ first h' pool',
    head (chunks pool) = Some first ∧
    BLI_mempool_clear h pool = Some (h', pool') ∧
    brk h' = brk h ∧
    (∀ c, is_Some (blocks h' !! c) ↔ c = first) ∧
    chunks pool' = [first] ∧ BLI_mempool_count pool' = 0%Z ∧
    esize pool' = esize pool ∧ csize pool' = csize pool ∧
    pchunk pool' = pchunk pool ∧ flag pool' = flag pool ∧
    chain h' (free pool') (chunk_slots (Z.to_nat (pchunk pool)) first) ∧
    ∃ hf,
      BLI_mempool_create garbage (mk_heap first ∅) (esize pool) 0 (pchunk pool)
                         (flag pool) = Some (hf, pool') ∧
      ∀ a, nxt h' a = nxt hf a ∧
           (allow_iter (flag pool) = true → tag h' a = tag hf a).
Proof.
  intros [fl W]%reached_wf.
  destruct (clear_wf _ _ _ _ W)
    as (h' & first & rest & Hcs & E & Hb & Hfirst & Hrel & _ & W').
  destruct W as (I & _). destruct W' as (I' & _).
  eexists first, h', _. split; [by rewrite Hcs|]. split; [done|].
  split; [done|]. split.
  { intros c. rewrite (inv_dom _ _ _ _ I'); simpl. apply list_elem_of_singleton. }
  simpl. split_and!; try done.
  { apply (inv_chain _ _ _ _ I'). }
  pose proof (inv_pchunk _ _ _ _ I) as Hp.
  pose proof (inv_esize _ _ _ _ I) as He.
  pose proof (inv_csize _ _ _ _ I) as Hc.
  pose proof (inv_csize_max _ _ _ _ I) as Hcm.
  assert (create_esize (esize pool) = esize pool) as Hce
    by (unfold create_esize; lia).
  assert (create_maxchunks 0 (pchunk pool) = 1%Z) as Hmc.
  { unfold create_maxchunks. rewrite Z.quot_0_l by lia. done. }
  destruct (create_core first (esize pool) 0 (pchunk pool) (flag pool))
    as (hf & poolf & Ef & Wf & Hcsf & _ & Hef & Hcf & Hpf & Hff & Htf);
    [lia|lia|rewrite Hce; lia|rewrite Hmc; done|].
  rewrite Hce in *. rewrite Hmc in *. simpl in Hcsf.
  destruct Wf as (If & _).
  pose proof (inv_chain _ _ _ _ If) as Hch. apply chain_head in Hch.
  assert (all_slots poolf = chunk_slots (Z.to_nat (pchunk pool)) first) as Hall.
  { unfold all_slots. rewrite Hcsf, Hpf. simpl. by rewrite app_nil_r. }
  rewrite Hall in Hch, If.
  assert (head (chunk_slots (Z.to_nat (pchunk pool)) first) = Some (first, 0))
    as Hhd.
  { unfold chunk_slots. destruct (Z.to_nat (pchunk pool)) eqn:?; [lia|done]. }
  rewrite Hhd in Hch.
  assert (poolf = mk_mempool [first] (esize pool) (csize pool) (pchunk pool)
                    (flag pool) (Some (first, 0)) 0) as ->.
  { destruct poolf; simpl in *. subst. by rewrite Hc. }
  exists hf. split; [done|]. intros a.
  exact (inv_unlent_agree _ _ _ _ a I' If).
Qed.

(** ** Allocation *)

(** C6. [BLI_mempool_alloc] adds one to the count.  A chunk is allocated
    exactly when the free list is empty; then it is one chunk, put at the end
    of the chunk list, its slots become the free list, and no slot that was
    there before is written.  The slot returned is the head of the free
    list; it is tagged as in use when iteration is enabled, and the free list
    goes on behind it. *)
Theorem alloc_pops_free_list_head ops h pool lent h' pool' r :
  reached garbage ops h pool lent →
  BLI_mempool_alloc garbage h pool = Some (h', pool', r) →
  BLI_mempool_count pool' = (BLI_mempool_count pool + 1)%Z ∧
  (free pool = None ↔ brk h' ≠ brk h) ∧
  (free pool = None →
     brk h' = S (brk h) ∧ chunks pool' = chunks pool ++ [brk h] ∧
     (∀ a, a.1 ≠ brk h → load h' a = load h a) ∧
     r = Some (brk h, 0) ∧
     chain h' (free pool')
           (tail (chunk_slots (Z.to_nat (pchunk pool)) (brk h)))) ∧
  (free pool ≠ None →
     brk h' = brk h ∧ chunks pool' = chunks pool ∧ r = free pool ∧
     (∀ a, Some a ≠ r → load h' a = load h a) ∧
     (∀ fl, chain h (free pool) fl → chain h' (free pool') (tail fl))) ∧
  ∃ a, r = Some a ∧ (a ∉ lent) ∧ nxt h' a = Some (free pool') ∧
       (allow_iter (flag pool) = true → tag h' a = Some USEDWORD).
Proof.
  intros [fl W]%reached_wf E.
  destruct (alloc_wf _ _ _ _ W (alloc_range _ _ _ E))
    as (h2 & pool2 & a & fl' & E2 & W2 & _ & _ & _ & Hf & Hnx & Htag & Hcase).
  rewrite E in E2. simplify_eq.
  destruct W as (I & _ & Hcnt & _). destruct W2 as (I2 & _ & Hcnt2 & _).
  pose proof (chain_head _ _ _ (inv_chain _ _ _ _ I)) as Hhd.
  pose proof (inv_chain _ _ _ _ I2) as Hch2.
  assert (a ∉ lent) as Hal.
  { pose proof (inv_nodup _ _ _ _ I2) as Hnd.
    apply NoDup_app in Hnd as (_ & _ & Hnd). by apply NoDup_cons in Hnd as []. }
  unfold BLI_mempool_count. split; [rewrite Hcnt, Hcnt2; simpl; lia|].
  destruct Hcase as [(-> & Hb & Hcs & Hfr & _)|(-> & Hb & Hcs & Hfr & Hsl)];
    simpl in Hhd; rewrite Hhd.
  - split; [split; [done|intros Hn; by destruct Hn]|]. split; [done|]. split.
    + intros _. split_and!; try done.
      * intros b Hb'. apply Hfr. by intros ->.
      * intros fl0 Hfl0.
        rewrite (chain_inj _ _ _ _ Hfl0 ltac:(rewrite <-Hhd; apply (inv_chain _ _ _ _ I))).
        done.
    + by exists a.
  - split; [split; [intros _; lia|done]|]. split.
    + intros _. split_and!; try done.
      * unfold chunk_slots in *.
        destruct (Z.to_nat (pchunk pool)); simpl in *; by simplify_eq.
      * by rewrite <-Hsl.
    + split; [done|]. by exists a.
Qed.

(** ** Tags *)

(** C7. With iteration enabled, in every state reached by create, allocate,
    free and clear: the free list is a list of slots that all carry the free
    tag, no slot the client holds carries it, and every slot is one or the
    other. *)
Theorem tag_invariant ops h pool lent :
  reached garbage ops h pool lent → allow_iter (flag pool) = true →
  ∃ fl,
    chain h (free pool) fl ∧
    (∀ a, a ∈ fl → tag h a = Some FREEWORD) ∧
    (∀ a, a ∈ lent → ∃ w, tag h a = Some w ∧ w ≠ FREEWORD) ∧
    (∀ a, a ∈ all_slots pool → a ∈ fl ∨ a ∈ lent).
Proof.
  intros [fl (I & _)]%reached_wf Hit. exists fl.
  destruct (inv_tags _ _ _ _ I Hit) as [Tf Tl].
  split; [apply (inv_chain _ _ _ _ I)|]. split; [done|]. split.
  - intros a Ha. by apply Tl.
  - intros a Ha. by apply (inv_all_slots _ _ _ _ _ I).
Qed.

(** ** The free list after creation *)

(** Allocations take the free list from its head, in order. *)
Lemma run_allocs k : ∀ h pool lent fl,
  wf h pool lent fl → k ≤ length fl → (totused pool + Z.of_nat k ≤ INT_MAX)%Z →
  ∃ h' pool',
    run garbage (replicate k Alloc) h pool lent
      = Some (h', pool', reverse (take k fl) ++ lent) ∧
    wf h' pool' (reverse (take k fl) ++ lent) (drop k fl).
Proof.
  induction k as [|k IH]; intros h pool lent fl W Hk Hm; simpl.
  { exists h, pool. by rewrite drop_0. }
  destruct (alloc_wf _ _ _ _ W ltac:(lia))
    as (h1 & pool1 & a & fl1 & -> & W1 & _ & _ & _ & _ & _ & _ & Hcase).
  destruct Hcase as [(-> & _)|(-> & _)]; [|simpl in Hk; lia].
  simpl. destruct (IH h1 pool1 (a :: lent) fl1 W1) as (h' & pool' & -> & W').
  { simpl in Hk. lia. }
  { destruct W as (_ & _ & Hc0 & _), W1 as (_ & _ & Hc1 & _).
    rewrite Hc1. rewrite Hc0 in Hm. simpl length. lia. }
  exists h', pool'. rewrite reverse_cons, <-app_assoc. done.
Qed.

(** C8. When [BLI_mempool_create] returns, the free list is one chain
    through every slot of every chunk: the chunks in the order of their
    allocation, the slots of a chunk in slot order, the last slot of the last
    chunk linked to NULL.  So the first [k] allocations return the first [k]
    slots in that order. *)
Theorem create_free_list_in_chunk_order b e t p f h pool :
  (0 ≤ t)%Z → (1 ≤ p)%Z →
  BLI_mempool_create garbage (mk_heap b ∅) e t p f = Some (h, pool) →
  chunks pool = seq b (length (chunks pool)) ∧
  chain h (free pool) (all_slots pool) ∧
  walk (length (all_slots pool)) h (free pool) = Some (all_slots pool) ∧
  free pool = Some (b, 0) ∧
  ∀ k, k ≤ length (all_slots pool) → (Z.of_nat k ≤ INT_MAX)%Z →
    ∃ h' pool',
      run garbage (replicate k Alloc) h pool []
        = Some (h', pool', reverse (take k (all_slots pool))).
Proof.
  intros Ht Hp E.
  destruct (create_spec _ _ _ _ _ _ _ Hp Ht E)
    as (W & Hcs & _ & _ & _ & Hpc & _ & Ht0).
  pose proof W as (I & Hne & _).
  pose proof (inv_chain _ _ _ _ I) as Hch.
  split; [by rewrite Hcs, length_seq|]. split; [done|].
  split; [by apply chain_walk|]. split.
  - rewrite (chain_head _ _ _ Hch). unfold all_slots, chunk_slots.
    rewrite Hcs, Hpc. unfold create_maxchunks.
    assert (0 ≤ t ÷ p)%Z by (apply Z.quot_pos; lia).
    destruct (Z.to_nat (t ÷ p + 1)) eqn:?; [lia|].
    destruct (Z.to_nat p) eqn:?; [lia|]. done.
  - intros k Hk Hm.
    destruct (run_allocs k _ _ _ _ W Hk ltac:(lia)) as (h' & pool' & R & _).
    exists h', pool'. by rewrite app_nil_r in R.
Qed.

(** ** Finding by index *)

(** C9. On a pool with iteration enabled, [BLI_mempool_findelem] returns for
    an index from 0 up to the count, the count excluded, the reference at
    that place in the order of iteration, a reference the client holds; for
    every other index, the negative ones too, it returns NULL.  It is a
    function of the state: it writes nothing. *)
Theorem findelem_by_index ops h pool lent index :
  reached garbage ops h pool lent → allow_iter (flag pool) = true →
  ∃ l,
    BLI_mempool_as_table h pool = Some l ∧
    ((0 ≤ index < BLI_mempool_count pool)%Z →
       ∃ a, l !! Z.to_nat index = Some a ∧ a ∈ lent ∧
            BLI_mempool_findelem h pool index = Some (Some a)) ∧
    (¬ (0 ≤ index < BLI_mempool_count pool)%Z →
       BLI_mempool_findelem h pool index = Some None).
Proof.
  intros [fl W]%reached_wf Hit. exists (lent_in_order pool lent).
  split; [by eapply as_table_wf|].
  destruct W as (I & _ & Hcnt & _).
  pose proof (lent_in_order_perm _ _ _ _ I) as Hperm.
  pose proof (inv_pchunk _ _ _ _ I) as Hp.
  unfold BLI_mempool_count, BLI_mempool_findelem. split.
  - intros Hi. rewrite decide_True by lia.
    assert (Z.to_nat index < length (lent_in_order pool lent)) as Hlt
      by (rewrite Hperm; lia).
    apply lookup_lt_is_Some in Hlt as [a Ha]. exists a. split; [done|].
    split; [rewrite <-Hperm; by eapply list_elem_of_lookup_2|].
    assert (totused pool ≠ 0%Z) as Hnz by lia.
    assert (0 ≤ esize pool)%Z as He.
    { pose proof (inv_esize _ _ _ _ I) as He.
      unfold MEMPOOL_ELEM_SIZE_MIN, sizeof_ptr in He. lia. }
    assert (esize pool * pchunk pool ≤ INT_MAX)%Z as Hc.
    { rewrite <-(inv_csize _ _ _ _ I). apply (inv_csize_max _ _ _ _ I). }
    assert (∀ a, a ∈ iter_rest pool (BLI_mempool_iternew pool) →
                 is_Some (load h a)) as Hld.
    { intros a' Ha'. rewrite iter_rest_new in Ha'.
      apply (inv_load _ _ _ _ _ I). by apply elem_of_all_slots. }
    destruct (iterstep_spec h pool Hp He Hc Hnz (BLI_mempool_iternew pool))
      as (iter' & -> & Hfl & Hok' & Hsub); [apply iter_ok_new; lia|done|].
    simpl. rewrite (findelem_loop_spec h pool Hp He Hc Hnz) by auto.
    rewrite Hfl, iter_rest_new.
    assert (filter (untagged h) (all_slots pool) = lent_in_order pool lent) as ->.
    { apply filter_ext_in. intros a' Ha'. by eapply untagged_lent. }
    rewrite <-Ha. f_equal.
    generalize (lent_in_order pool lent) as L.
    intros [|x L]; by destruct (Z.to_nat index).
  - intros Hi. rewrite decide_False by lia. done.
Qed.

(** ** Reuse *)

(** C10. After a free that leaves the count above zero, the next allocation
    returns the reference just freed. *)
Theorem free_then_alloc_returns_same ops h pool lent a h' pool' :
  reached garbage ops h pool lent → a ∈ lent →
  BLI_mempool_free h pool a = Some (h', pool') →
  (0 < BLI_mempool_count pool')%Z →
  ∃ h'' pool'', BLI_mempool_alloc garbage h' pool' = Some (h'', pool'', Some a).
Proof.
  intros [fl W]%reached_wf Ha E Hpos. unfold BLI_mempool_count in Hpos.
  destruct (free_wf _ _ _ _ _ W Ha)
    as (h2 & pool2 & fl2 & E2 & W2 & _ & _ & _ & _ & Ht & _ & Hcase).
  rewrite E in E2. simplify_eq.
  destruct Hcase as [(_ & -> & _)|(Hone & _)]; [|lia].
  destruct W as (_ & _ & _ & Hmx).
  destruct (alloc_wf _ _ _ _ W2 ltac:(lia))
    as (h3 & pool3 & a3 & fl3 & E3 & _ & _ & _ & _ & _ & _ & _ & Hcase).
  destruct Hcase as [(Hfl & _)|(Hfl & _)]; [|done].
  injection Hfl as <- _. eauto.
Qed.


(** * The rest of the interface *)

(** ** Runs in two parts *)

Lemma run_app ops1 : ∀ ops2 h pool lent,
  run garbage (ops1 ++ ops2) h pool lent
  = '(h', pool', lent') ← run garbage ops1 h pool lent;
    run garbage ops2 h' pool' lent'.
Proof.
  induction ops1 as [|o ops1 IH]; intros ops2 h pool lent; [done|].
  destruct o as [|a| |a nd]; simpl.
  - destruct (BLI_mempool_alloc garbage h pool) as [[[h1 pool1] [a|]]|];
      simpl; [apply IH|done|done].
  - case_decide; [|done].
    destruct (BLI_mempool_free h pool a) as [[h1 pool1]|]; simpl; [apply IH|done].
  - destruct (BLI_mempool_clear h pool) as [[h1 pool1]|]; simpl; [apply IH|done].
  - case_decide; [|done].
    destruct (store h a nd) as [h1|]; simpl; [apply IH|done].
Qed.

Lemma reached_app ops ops' h pool lent h' pool' lent' :
  reached garbage ops h pool lent →
  run garbage ops' h pool lent = Some (h', pool', lent') →
  reached garbage (ops ++ ops') h' pool' lent'.
Proof.
  intros (h0 & pool0 & C & R) R'. exists h0, pool0. split; [done|].
  rewrite run_app, R. done.
Qed.

Lemma wf_lent_slot h pool lent fl a :
  wf h pool lent fl → a ∈ lent →
  a.1 ∈ chunks pool ∧ a.2 < Z.to_nat (pchunk pool) ∧ a.1 < brk h.
Proof.
  intros (I & _) Ha.
  assert (is_Some (load h a)) as Hl by (apply (inv_cover _ _ _ _ I); by right).
  apply (inv_load _ _ _ _ _ I) in Hl as [Hc Hs].
  split_and!; [done|done|]. by apply (inv_brk _ _ _ _ I).
Qed.

(** What [BLI_mempool_alloc] leaves alone: the elements lent. *)
Lemma alloc_frame h pool lent fl h' pool' r b :
  wf h pool lent fl → b ∈ lent →
  BLI_mempool_alloc garbage h pool = Some (h', pool', r) →
  load h' b = load h b.
Proof.
  intros W Hb E.
  destruct (alloc_wf _ _ _ _ W (alloc_range _ _ _ E))
    as (h1 & pool1 & a & fl' & E' & W1 & _ & _ & _ & _ & _ & _ & Hcase).
  rewrite E in E'. simplify_eq.
  destruct W1 as (I1 & _).
  destruct Hcase as [(_ & _ & _ & F & _)|(_ & _ & _ & F & _)].
  - apply F. intros ->.
    pose proof (inv_nodup _ _ _ _ I1) as Hnd.
    apply NoDup_app in Hnd as (_ & _ & Hnd). apply NoDup_cons in Hnd as [Hn _].
    done.
  - apply F. destruct (wf_lent_slot _ _ _ _ _ W Hb) as (_ & _ & ?). lia.
Qed.

(** ** Zeroed allocation *)

Lemma FREEWORD_zero : (0 ≠ FREEWORD)%Z.
Proof. done. Qed.

(** [BLI_mempool_calloc] returns, like the allocation it wraps, a reference
    the client does not hold yet; the two leading words of the element read
    as zero; the count is one more; no element lent before is written.  The
    state is the one after the allocation and a store of zeros by the client,
    so with iteration enabled the zeroed element is not taken for a free
    slot: the iterator returns it. *)
Theorem calloc_returns_zeroed_element ops h pool lent :
  reached garbage ops h pool lent →
  (BLI_mempool_count pool < INT_MAX)%Z →
  ∃ h' pool' a,
    BLI_mempool_calloc garbage h pool = Some (h', pool', Some a) ∧
    (a ∉ lent) ∧
    load h' a = Some (mk_freenode None 0) ∧
    BLI_mempool_count pool' = (BLI_mempool_count pool + 1)%Z ∧
    (∀ b, b ∈ lent → load h' b = load h b) ∧
    reached garbage (ops ++ [Alloc; Write a (mk_freenode None 0)])
            h' pool' (a :: lent) ∧
    (allow_iter (flag pool) = true →
       ∃ l, BLI_mempool_as_table h' pool' = Some l ∧ a ∈ l).
Proof.
  intros R Hm. destruct (reached_wf _ _ _ _ R) as [fl W].
  destruct (alloc_wf _ _ _ _ W Hm)
    as (h1 & pool1 & a & fl' & E & W1 & _ & _ & _ & Hfl & _ & _ & _).
  destruct (write_wf _ _ _ _ a (mk_freenode None 0) W1) as (h' & Es & W').
  { left. }
  { intros _. apply FREEWORD_zero. }
  pose proof (store_Some _ _ _ _ Es) as (_ & _ & Hla & Hfr).
  assert (a ∉ lent) as Hnew.
  { destruct W1 as (I1 & _). pose proof (inv_nodup _ _ _ _ I1) as Hnd.
    apply NoDup_app in Hnd as (_ & _ & Hnd). by apply NoDup_cons in Hnd as [? _]. }
  exists h', pool1, a. split_and!.
  - unfold BLI_mempool_calloc. rewrite E. simpl. by rewrite Es.
  - done.
  - done.
  - unfold BLI_mempool_count. by eapply alloc_totused.
  - intros b Hb. rewrite Hfr by (intros ->; done).
    by eapply alloc_frame.
  - eapply reached_app; [done|]. simpl. rewrite E. simpl.
    rewrite decide_True.
    + by rewrite Es.
    + split; [left|]. intros _. apply FREEWORD_zero.
  - intros Hit. rewrite <-Hfl in Hit.
    exists (lent_in_order pool1 (a :: lent)). split.
    + by eapply as_table_wf.
    + unfold lent_in_order. apply list_elem_of_filter. split; [left|].
      destruct W' as (I' & _). apply (inv_all_slots _ _ _ _ _ I'). right. left.
Qed.

(** ** Destruction *)


(** ** Tables and arrays *)

(** Filling a table from entry 0 on. *)
Lemma table_fill_spec l : ∀ (pre : list (option (nat * nat))) m,
  table_fill (pre ++ replicate (length l + m) None) (length pre) l
  = Some (pre ++ (Some <$> l) ++ replicate m None).
Proof.
  induction l as [|a l IH]; intros pre m; simpl; [done|].
  rewrite decide_True by (rewrite length_app; simpl; lia).
  rewrite insert_app_r_alt by lia. rewrite Nat.sub_diag. simpl.
  specialize (IH (pre ++ [Some a]) m). rewrite length_app in IH. simpl in IH.
  rewrite Nat.add_1_r in IH. rewrite <-!app_assoc in IH. done.
Qed.

Lemma size_t_of_small z : (0 ≤ z ≤ INT_MAX)%Z → size_t_of z = z.
Proof.
  intros Hz. unfold size_t_of. apply Z.mod_small.
  change (2 ^ 64)%Z with 18446744073709551616%Z. unfold INT_MAX in Hz. lia.
Qed.

Lemma table_size n :
  (0 ≤ n ≤ INT_MAX)%Z →
  Z.to_nat (size_t_of (size_t_of n * sizeof_ptr) ÷ sizeof_ptr) = Z.to_nat n.
Proof.
  intros Hn. rewrite (size_t_of_small n) by done.
  unfold size_t_of, sizeof_ptr. rewrite Z.mod_small.
  - by rewrite Z.quot_mul.
  - change (2 ^ 64)%Z with 18446744073709551616%Z. unfold INT_MAX in Hn. lia.
Qed.

Lemma length_lent_in_order h pool lent fl :
  inv h pool lent fl → length (lent_in_order pool lent) = length lent.
Proof. intros I. by rewrite (lent_in_order_perm _ _ _ _ I). Qed.

(** [BLI_mempool_as_tableN] on a pool with iteration enabled: the block it
    allocates has one entry for each reference the client holds, the stores
    of [BLI_mempool_as_table] stay inside it and leave no entry unwritten,
    and the entries are the references held, in the order of iteration. *)
Theorem as_tableN_is_filled ops h pool lent :
  reached garbage ops h pool lent → allow_iter (flag pool) = true →
  ∃ l,
    BLI_mempool_as_table h pool = Some l ∧
    BLI_mempool_as_tableN h pool = Some (Some <$> l) ∧
    Z.of_nat (length l) = BLI_mempool_count pool ∧
    (∀ a, a ∈ l ↔ a ∈ lent).
Proof.
  intros R Hit. destruct (reached_wf _ _ _ _ R) as [fl W].
  pose proof W as (I & _ & Hcnt & Hmx).
  pose proof (as_table_wf _ _ _ _ W Hit) as E.
  pose proof (length_lent_in_order _ _ _ _ I) as Hlen.
  exists (lent_in_order pool lent). split_and!.
  - done.
  - unfold BLI_mempool_as_tableN, uninitialised. rewrite E. simpl.
    rewrite table_size by lia. rewrite Hcnt, Nat2Z.id, <-Hlen.
    pose proof (table_fill_spec (lent_in_order pool lent) [] 0) as F.
    simpl in F. rewrite Nat.add_0_r, app_nil_r in F. done.
  - unfold BLI_mempool_count. lia.
  - intros a. by rewrite (lent_in_order_perm _ _ _ _ I).
Qed.

Section Copy.

Variables (h : heap) (pool : BLI_mempool).
Hypothesis Hp : (1 ≤ pchunk pool ≤ INT_MAX)%Z.
Hypothesis He : (0 ≤ esize pool)%Z.
Hypothesis Hc : (esize pool * pchunk pool ≤ INT_MAX)%Z.
Hypothesis Hused : totused pool ≠ 0%Z.

(** The loop of [BLI_mempool_as_array] copies the untagged slots in front of
    the cursor to the entries from [p] on, when they fit. *)
Lemma as_array_loop_spec fuel : ∀ iter data p,
  iter_ok pool iter →
  (∀ a, a ∈ iter_rest pool iter → is_Some (load h a)) →
  length (filter (untagged h) (iter_rest pool iter)) < fuel →
  p ≤ length data →
  ∃ nodes,
    Forall2 (λ a nd, load h a = Some nd)
            (filter (untagged h) (iter_rest pool iter)) nodes ∧
    as_array_loop fuel h pool iter data p
    = if decide (p + length nodes ≤ length data)
      then Some (take p data ++ (Some <$> nodes)
                   ++ drop (p + length nodes) data)
      else None.
Proof.
  induction fuel as [|fuel IH]; intros iter data p Hok Hld Hfuel Hpd; [lia|].
  simpl.
  destruct (iterstep_spec h pool Hp He Hc Hused iter Hok Hld)
    as (iter' & -> & Hrest & Hok' & Hsub).
  simpl.
  destruct (filter (untagged h) (iter_rest pool iter)) as [|a l] eqn:El; simpl.
  { exists []. split; [constructor|]. simpl.
    rewrite decide_True by lia. by rewrite Nat.add_0_r, take_drop. }
  assert (a ∈ iter_rest pool iter) as Ha.
  { eapply (list_elem_of_filter (untagged h)). rewrite El. left. }
  destruct (Hld a Ha) as [nd End]. rewrite End. simpl.
  simpl in Hrest. simpl in Hfuel.
  destruct (decide (p < length data)) as [Hlt|Hge].
  - destruct (IH iter' (<[p := Some nd]> data) (S p) Hok')
      as (nodes & HF & ->).
    { intros b Hb. apply Hld. by apply Hsub. }
    { rewrite Hrest. lia. }
    { rewrite length_insert. lia. }
    rewrite Hrest in HF. exists (nd :: nodes). split; [by constructor|].
    rewrite length_insert. simpl length.
    replace (S p + length nodes) with (p + S (length nodes)) by lia.
    case_decide; [|done]. f_equal.
    rewrite drop_insert_lt by lia.
    rewrite (take_S_r _ _ (Some nd)) by (by apply list_lookup_insert_eq).
    rewrite take_insert_ge by lia. by rewrite <-app_assoc.
  - assert (is_Some (mapM (load h) l)) as [nodes Hn].
    { apply mapM_is_Some. apply Forall_forall. intros b Hb. apply Hld.
      eapply (list_elem_of_filter (untagged h)). rewrite El. by right. }
    apply mapM_Some in Hn. exists (nd :: nodes). split; [by constructor|].
    simpl length. rewrite decide_False by lia. done.
Qed.

End Copy.

(** [BLI_mempool_as_array] on a pool in use, into [data]. *)
Lemma as_array_wf h pool lent fl data :
  wf h pool lent fl → allow_iter (flag pool) = true →
  ∃ nodes,
    Forall2 (λ a nd, load h a = Some nd) (lent_in_order pool lent) nodes ∧
    BLI_mempool_as_array h pool data
    = if decide (length lent ≤ length data)
      then Some ((Some <$> nodes) ++ drop (length lent) data)
      else None.
Proof.
  intros W Hit. pose proof W as (I & Hne & Hcnt & Hmx).
  pose proof (inv_pchunk _ _ _ _ I) as Hp.
  pose proof (length_lent_in_order _ _ _ _ I) as Hlen.
  assert (filter (untagged h) (all_slots pool) = lent_in_order pool lent) as Hfl.
  { apply filter_ext_in. intros a Ha. by eapply untagged_lent. }
  unfold BLI_mempool_as_array.
  destruct (decide (totused pool = 0%Z)) as [Hz|Hnz].
  - simpl. unfold BLI_mempool_iterstep. rewrite decide_True by done. simpl.
    assert (lent = []) as -> by (apply length_zero_iff_nil; lia).
    exists []. split.
    + unfold lent_in_order. rewrite filter_elem_of_nil. constructor.
    + rewrite decide_True by (simpl; lia). done.
  - pose proof (inv_esize _ _ _ _ I) as He.
    pose proof (inv_csize _ _ _ _ I) as Hc.
    pose proof (inv_csize_max _ _ _ _ I) as Hcm.
    unfold MEMPOOL_ELEM_SIZE_MIN, sizeof_ptr in He.
    destruct (as_array_loop_spec h pool Hp ltac:(lia) ltac:(lia) Hnz
                (S (length (chunks pool) * Z.to_nat (Z.max 1 (pchunk pool))))
                (BLI_mempool_iternew pool) data 0)
      as (nodes & HF & ->).
    + apply iter_ok_new. lia.
    + intros a Ha. rewrite iter_rest_new in Ha.
      apply (inv_load _ _ _ _ _ I). by apply elem_of_all_slots.
    + rewrite iter_rest_new.
      pose proof (length_filter (untagged h) (all_slots pool)) as Hlf.
      pose proof (iter_rest_length pool (BLI_mempool_iternew pool)
                    ltac:(lia) ltac:(apply iter_ok_new; lia)) as Hl.
      rewrite iter_rest_new in Hl. unfold iterstep_fuel in Hl.
      simpl in Hl. lia.
    + lia.
    + rewrite iter_rest_new, Hfl in HF. exists nodes. split; [done|].
      apply Forall2_length in HF. rewrite Hlen in HF. simpl.
      rewrite <-HF. done.
Qed.

(** [BLI_mempool_as_array] on a pool with iteration enabled copies the
    elements the client holds, in the order of iteration, to the leading
    entries of [data] and leaves the entries behind them as they were.  It
    needs as many entries as the count: on a shorter [data] it stores behind
    the end. *)
Theorem as_array_copies_lent_elements ops h pool lent data :
  reached garbage ops h pool lent → allow_iter (flag pool) = true →
  ∃ l nodes,
    BLI_mempool_as_table h pool = Some l ∧
    Z.of_nat (length l) = BLI_mempool_count pool ∧
    Forall2 (λ a nd, load h a = Some nd) l nodes ∧
    ((BLI_mempool_count pool ≤ Z.of_nat (length data))%Z →
       BLI_mempool_as_array h pool data
       = Some ((Some <$> nodes) ++ drop (length l) data)) ∧
    ((Z.of_nat (length data) < BLI_mempool_count pool)%Z →
       BLI_mempool_as_array h pool data = None).
Proof.
  intros R Hit. destruct (reached_wf _ _ _ _ R) as [fl W].
  pose proof W as (I & _ & Hcnt & Hmx).
  pose proof (length_lent_in_order _ _ _ _ I) as Hlen.
  destruct (as_array_wf _ _ _ _ data W Hit) as (nodes & HF & E).
  exists (lent_in_order pool lent), nodes. unfold BLI_mempool_count.
  split_and!.
  - by eapply as_table_wf.
  - lia.
  - done.
  - intros Hfit. rewrite E, decide_True by lia. by rewrite Hlen.
  - intros Hshort. rewrite E, decide_False by lia. done.
Qed.

(** [BLI_mempool_as_arrayN] allocates [totused * esize] bytes, a product of
    two [int]s.  When the product is an [int], the array returned has one
    entry for each element the client holds, with the element's contents, in
    the order of iteration, and no entry is left unwritten.  When it is not,
    the call is undefined, on a pool that is otherwise in order. *)
Theorem as_arrayN_copies_lent_elements ops h pool lent :
  reached garbage ops h pool lent → allow_iter (flag pool) = true →
  ∃ l nodes,
    BLI_mempool_as_table h pool = Some l ∧
    Z.of_nat (length l) = BLI_mempool_count pool ∧
    Forall2 (λ a nd, load h a = Some nd) l nodes ∧
    ((BLI_mempool_count pool * esize pool ≤ INT_MAX)%Z →
       BLI_mempool_as_arrayN h pool = Some (Some <$> nodes)) ∧
    ((INT_MAX < BLI_mempool_count pool * esize pool)%Z →
       BLI_mempool_as_arrayN h pool = None).
Proof.
  intros R Hit. destruct (reached_wf _ _ _ _ R) as [fl W].
  pose proof W as (I & _ & Hcnt & Hmx).
  pose proof (length_lent_in_order _ _ _ _ I) as Hlen.
  pose proof (inv_esize _ _ _ _ I) as He.
  unfold MEMPOOL_ELEM_SIZE_MIN, sizeof_ptr in He.
  set (data := @uninitialised BLI_freenode
                 (size_t_of (totused pool * esize pool)) (esize pool)).
  destruct (as_array_wf _ _ _ _ data W Hit) as (nodes & HF & E).
  exists (lent_in_order pool lent), nodes. unfold BLI_mempool_count.
  split_and!.
  - by eapply as_table_wf.
  - lia.
  - done.
  - intros Hfit. unfold BLI_mempool_as_arrayN.
    rewrite int_of_Some by (unfold INT_MIN; nia). simpl.
    fold data. rewrite E.
    assert (length data = length lent) as Hd.
    { unfold data, uninitialised. rewrite length_replicate.
      rewrite size_t_of_small by nia. rewrite Z.quot_mul by lia. lia. }
    rewrite decide_True by lia. rewrite drop_ge by lia. by rewrite app_nil_r.
  - intros Hbig. unfold BLI_mempool_as_arrayN, int_of.
    rewrite decide_False by lia. done.
Qed.

(** ** The iterator *)



Lemma iterstep_loop_end h pool fuel : ∀ iter iter',
  iterstep_loop fuel h pool iter = Some (None, iter') → curchunk iter' = [].
Proof.
  induction fuel as [|fuel IH]; intros iter iter' E; [done|].
  simpl in E. destruct (curchunk iter) as [|c rest] eqn:Ec.
  { by simplify_eq. }
  apply bind_Some in E as (? & _ & E).
  apply bind_Some in E as (idx & _ & E).
  apply bind_Some in E as (nd & _ & E).
  case_decide; [|done]. by eapply IH.
Qed.

(** Once [BLI_mempool_iterstep] has returned NULL it returns NULL on every
    later call, and the cursor stays where it is. *)
Theorem iterstep_stays_at_end h pool iter iter' :
  BLI_mempool_iterstep h pool iter = Some (None, iter') →
  BLI_mempool_iterstep h pool iter' = Some (None, iter').
Proof.
  unfold BLI_mempool_iterstep. case_decide as Hu.
  - intros [= <-]. done.
  - intros E. apply iterstep_loop_end in E.
    unfold iterstep_fuel. rewrite E. simpl. by rewrite E.
Qed.

(** ** Every slot is free or lent *)

Lemma length_all_slots pool : length (all_slots pool) = capacity pool.
Proof.
  unfold all_slots, capacity.
  induction (chunks pool) as [|c cs IH]; [done|].
  rewrite bind_cons, length_app, length_chunk_slots, IH. done.
Qed.

Lemma wf_perm h pool lent fl :
  inv h pool lent fl → fl ++ lent ≡ₚ all_slots pool.
Proof.
  intros I. apply NoDup_Permutation.
  - by apply (inv_nodup _ _ _ _ I).
  - apply NoDup_all_slots. by eapply inv_chunks_NoDup.
  - intros a. rewrite (inv_all_slots _ _ _ _ a I), elem_of_app. done.
Qed.

(** In every state the client can reach, each slot of each chunk is either
    on the free list or lent, and never both or twice: the length of the free
    list and the count add up to the number of slots, the references the
    client holds are distinct slots of chunks the pool has now, and the free
    list is empty exactly when every slot is lent. *)
Theorem slots_are_free_or_lent ops h pool lent :
  reached garbage ops h pool lent →
  ∃ fl,
    chain h (free pool) fl ∧
    Z.of_nat (length lent) = BLI_mempool_count pool ∧
    length fl + length lent = capacity pool ∧
    NoDup (fl ++ lent) ∧
    (∀ a, a ∈ lent → a.1 ∈ chunks pool ∧ a.2 < Z.to_nat (pchunk pool)) ∧
    (∀ a, a ∈ fl → a.1 ∈ chunks pool ∧ a.2 < Z.to_nat (pchunk pool)) ∧
    (free pool = None ↔ BLI_mempool_count pool = Z.of_nat (capacity pool)).
Proof.
  intros R. destruct (reached_wf _ _ _ _ R) as [fl W].
  pose proof W as (I & _ & Hcnt & _).
  pose proof (inv_chain _ _ _ _ I) as Hch.
  assert (length fl + length lent = capacity pool) as Hlen.
  { rewrite <-length_all_slots, <-(wf_perm _ _ _ _ I), length_app. done. }
  exists fl. unfold BLI_mempool_count. split_and!; try done.
  - by apply (inv_nodup _ _ _ _ I).
  - intros a Ha. destruct (wf_lent_slot _ _ _ _ _ W Ha) as (? & ? & _). done.
  - intros a Ha. apply elem_of_all_slots, (inv_all_slots _ _ _ _ a I). by left.
  - rewrite (chain_head _ _ _ Hch). destruct fl; simpl in *; split; try done; lia.
Qed.

(** ** What the pool leaves alone *)

(** The pool never writes to an element the client holds: an allocation
    changes none of them, also when it adds a chunk, and a free changes none
    but the one handed back; as another element stays lent, the chunk list
    stays as it is. *)
Theorem lent_elements_are_left_alone ops h pool lent b :
  reached garbage ops h pool lent → b ∈ lent →
  (∀ h' pool' r,
     BLI_mempool_alloc garbage h pool = Some (h', pool', r) →
     load h' b = load h b) ∧
  (∀ a h' pool',
     a ∈ lent → a ≠ b → BLI_mempool_free h pool a = Some (h', pool') →
     load h' b = load h b ∧ chunks pool' = chunks pool).
Proof.
  intros R Hb. destruct (reached_wf _ _ _ _ R) as [fl W]. split.
  - intros h' pool' r E. by eapply alloc_frame.
  - intros a h' pool' Ha Hab E.
    destruct (free_wf _ _ _ _ a W Ha)
      as (h1 & pool1 & fl1 & E1 & _ & _ & _ & _ & _ & _ & _ & Hcase).
    rewrite E in E1. simplify_eq.
    destruct Hcase as [(_ & _ & Hcs & F)|(Hone & _)].
    + split; [|done]. apply F. congruence.
    + destruct W as (I & _ & Hcnt & _).
      pose proof (inv_nodup _ _ _ _ I) as Hnd.
      apply NoDup_app in Hnd as (_ & _ & Hnd).
      destruct lent as [|x [|y lent]]; simpl in Hcnt; try lia.
      apply list_elem_of_singleton in Ha, Hb. congruence.
Qed.

(** ** The free list is a stack *)

(** Allocations that the free list can serve add no chunk. *)
Lemma run_allocs_no_growth k : ∀ h pool lent fl,
  wf h pool lent fl → k ≤ length fl → (totused pool + Z.of_nat k ≤ INT_MAX)%Z →
  ∃ h' pool',
    run garbage (replicate k Alloc) h pool lent
      = Some (h', pool', reverse (take k fl) ++ lent) ∧
    wf h' pool' (reverse (take k fl) ++ lent) (drop k fl) ∧
    chunks pool' = chunks pool ∧ brk h' = brk h.
Proof.
  induction k as [|k IH]; intros h pool lent fl W Hk Hm; simpl.
  { exists h, pool. by rewrite drop_0. }
  destruct (alloc_wf _ _ _ _ W ltac:(lia))
    as (h1 & pool1 & a & fl1 & -> & W1 & _ & _ & _ & _ & _ & _ & Hcase).
  destruct Hcase as [(-> & Hb & Hcs & _)|(-> & _)]; [|simpl in Hk; lia].
  simpl.
  destruct (IH h1 pool1 (a :: lent) fl1 W1) as (h' & pool' & -> & W' & Hcs' & Hb').
  { simpl in Hk. lia. }
  { destruct W as (_ & _ & Hc0 & _), W1 as (_ & _ & Hc1 & _).
    rewrite Hc1. rewrite Hc0 in Hm. simpl length. lia. }
  exists h', pool'. rewrite reverse_cons, <-app_assoc.
  split_and!; [done|done|congruence|congruence].
Qed.

(** Frees that leave something lent put the references on the free list, the
    last one first. *)
Lemma run_frees l : ∀ h pool lent fl,
  wf h pool lent fl → NoDup l → (∀ a, a ∈ l → a ∈ lent) →
  length l < length lent →
  ∃ h' pool' lent',
    run garbage (Free <$> l) h pool lent = Some (h', pool', lent') ∧
    wf h' pool' lent' (reverse l ++ fl) ∧
    (∀ b, b ∈ lent' ↔ b ∈ lent ∧ b ∉ l) ∧
    length lent' + length l = length lent ∧
    chunks pool' = chunks pool ∧ brk h' = brk h.
Proof.
  induction l as [|a l IH]; intros h pool lent fl W Hnd Hin Hlen.
  { simpl. exists h, pool, lent. split_and!; try done.
    intros b. split; [|tauto]. intros ?. split; [done|]. apply not_elem_of_nil. }
  apply NoDup_cons in Hnd as [Hal Hnd].
  assert (a ∈ lent) as Ha by (apply Hin; left).
  rewrite fmap_cons. cbn [run]. rewrite decide_True by done.
  destruct (free_wf _ _ _ _ a W Ha)
    as (h1 & pool1 & fl1 & -> & W1 & _ & _ & _ & _ & _ & Hb & Hcase).
  simpl in Hlen.
  destruct Hcase as [(_ & -> & Hcs & _)|(Hone & _)]; cycle 1.
  { destruct W as (_ & _ & Hcnt & _). lia. }
  assert (NoDup lent) as Hndl.
  { destruct W as (I & _). pose proof (inv_nodup _ _ _ _ I) as H.
    by apply NoDup_app in H as (_ & _ & ?). }
  pose proof (length_filter_ne lent a Hndl Ha) as Hlf.
  cbn [mbind option_bind].
  destruct (IH h1 pool1 (filter (λ b, b ≠ a) lent) (a :: fl) W1 Hnd)
    as (h' & pool' & lent' & -> & W' & Hmem & Hl' & Hcs' & Hb').
  { intros x Hx. apply list_elem_of_filter. split.
    - intros ->. done.
    - apply Hin. by right. }
  { lia. }
  exists h', pool', lent'. split_and!.
  - done.
  - by rewrite reverse_cons, <-app_assoc.
  - intros b. rewrite Hmem, list_elem_of_filter, not_elem_of_cons. tauto.
  - simpl. lia.
  - congruence.
  - congruence.
Qed.

(** The free list is a stack.  When the client hands back some of the
    references it holds, and keeps at least one, the next allocations return
    those references again, the one freed last first; no chunk is added or
    released on the way, and the free list is then what it was before. *)
Theorem frees_then_allocs_reverse_order ops h pool lent l :
  reached garbage ops h pool lent →
  NoDup l → (∀ a, a ∈ l → a ∈ lent) → length l < length lent →
  ∃ h1 pool1 lent1 h2 pool2,
    run garbage (Free <$> l) h pool lent = Some (h1, pool1, lent1) ∧
    (∀ b, b ∈ lent1 ↔ b ∈ lent ∧ b ∉ l) ∧
    (∀ fl, chain h (free pool) fl → chain h1 (free pool1) (reverse l ++ fl)) ∧
    run garbage (replicate (length l) Alloc) h1 pool1 lent1
      = Some (h2, pool2, l ++ lent1) ∧
    (∀ fl, chain h (free pool) fl → chain h2 (free pool2) fl) ∧
    chunks pool2 = chunks pool ∧ brk h2 = brk h.
Proof.
  intros R Hnd Hin Hlen. destruct (reached_wf _ _ _ _ R) as [fl W].
  destruct (run_frees l _ _ _ _ W Hnd Hin Hlen)
    as (h1 & pool1 & lent1 & E1 & W1 & Hmem & Hl1 & Hcs1 & Hb1).
  destruct (run_allocs_no_growth (length l) _ _ _ _ W1)
    as (h2 & pool2 & E2 & W2 & Hcs2 & Hb2).
  { rewrite length_app, length_reverse. lia. }
  { destruct W as (_ & _ & Hc & Hm), W1 as (_ & _ & Hc1 & _). lia. }
  assert (take (length l) (reverse l ++ fl) = reverse l) as Htk.
  { rewrite take_app_le by (rewrite length_reverse; lia).
    apply take_ge. rewrite length_reverse. lia. }
  assert (drop (length l) (reverse l ++ fl) = fl) as Hdr.
  { rewrite <-(length_reverse l). apply drop_app_length. }
  rewrite Htk, reverse_involutive in E2. rewrite Htk, Hdr in W2.
  exists h1, pool1, lent1, h2, pool2. split_and!; try done; try congruence.
  - intros fl0 Hch. destruct W as (I & _), W1 as (I1 & _).
    rewrite (chain_inj _ _ _ _ Hch (inv_chain _ _ _ _ I)).
    apply (inv_chain _ _ _ _ I1).
  - intros fl0 Hch. destruct W as (I & _), W2 as (I2 & _).
    rewrite (chain_inj _ _ _ _ Hch (inv_chain _ _ _ _ I)).
    apply (inv_chain _ _ _ _ I2).
Qed.

(** ** After a clear *)

(** After [BLI_mempool_clear] the allocations start again at the first slot
    of the chunk that was first and go through that chunk in slot order; no
    chunk is added before the chunk is used up. *)
Theorem clear_then_allocs_in_slot_order ops h pool lent k :
  reached garbage ops h pool lent → k ≤ Z.to_nat (pchunk pool) →
  ∃ first h' pool' h'' pool'',
    head (chunks pool) = Some first ∧
    BLI_mempool_clear h pool = Some (h', pool') ∧
    run garbage (replicate k Alloc) h' pool' []
      = Some (h'', pool'', reverse ((first ,.) <$> seq 0 k)) ∧
    chunks pool'' = [first] ∧ brk h'' = brk h.
Proof.
  intros R Hk. destruct (reached_wf _ _ _ _ R) as [fl W].
  destruct (clear_wf _ _ _ _ W)
    as (h' & first & rest & Hcs & E & Hb & _ & _ & _ & W').
  destruct (run_allocs_no_growth k _ _ _ _ W')
    as (h'' & pool'' & E2 & _ & Hcs2 & Hb2).
  { by rewrite length_chunk_slots. }
  { simpl. destruct W as (I & _). pose proof (inv_pchunk _ _ _ _ I). lia. }
  eexists first, h', _, h'', pool''. split_and!.
  - by rewrite Hcs.
  - exact E.
  - rewrite E2, app_nil_r. do 3 f_equal. unfold chunk_slots.
    rewrite <-fmap_take, take_seq. by rewrite Nat.min_l by lia.
  - done.
  - congruence.
Qed.

(** ** Misuse *)

(** "Doesnt protect against double frees": on a pool without iteration,
    where no assertion looks at the element, freeing a reference a second
    time is accepted.  The count goes down by two, the free list then
    starts at that element and comes back to it, and the next two
    allocations both return it, so two owners share one element. *)
Theorem double_free_hands_out_twice ops h pool lent a :
  reached garbage ops h pool lent → allow_iter (flag pool) = false →
  a ∈ lent → (3 ≤ BLI_mempool_count pool)%Z →
  ∃ h1 pool1 h2 pool2 h3 pool3 h4 pool4,
    BLI_mempool_free h pool a = Some (h1, pool1) ∧
    BLI_mempool_free h1 pool1 a = Some (h2, pool2) ∧
    BLI_mempool_count pool2 = (BLI_mempool_count pool - 2)%Z ∧
    nxt h2 a = Some (Some a) ∧
    BLI_mempool_alloc garbage h2 pool2 = Some (h3, pool3, Some a) ∧
    BLI_mempool_alloc garbage h3 pool3 = Some (h4, pool4, Some a) ∧
    BLI_mempool_count pool4 = BLI_mempool_count pool ∧
    free pool4 = Some a.
Proof.
  unfold BLI_mempool_count. intros R Hit Ha Hc.
  destruct (reached_wf _ _ _ _ R) as [fl W].
  pose proof W as (_ & _ & _ & Hmx).
  destruct (free_wf _ _ _ _ a W Ha)
    as (h1 & pool1 & fl1 & E1 & W1 & _ & _ & _ & Hfl & Ht1 & _ & Hcase).
  destruct Hcase as [(_ & -> & _)|(Hone & _)]; [|lia].
  destruct W1 as (I1 & _).
  pose proof (inv_chain _ _ _ _ I1) as Hch. apply chain_head in Hch.
  simpl in Hch.
  assert (is_Some (load h1 a)) as Hl1.
  { apply (inv_cover _ _ _ _ I1). left. left. }
  destruct (store_next_is_Some h1 a (Some a) Hl1) as [h2 E2].
  destruct (store_next_Some _ _ _ _ E2) as (nd & _ & (_ & Hla & _)).
  rewrite <-Hfl in Hit.
  exists h1, pool1, h2,
    (set_totused (set_free pool1 (Some a)) (totused pool1 - 1)),
    h2, (set_free (set_totused (set_totused (set_free pool1 (Some a))
                                   (totused pool1 - 1)) (totused pool1)) (Some a)),
    h2, (set_free (set_totused (set_totused (set_free pool1 (Some a))
                                   (totused pool1 - 1)) (totused pool1 + 1))
                  (Some a)).
  split_and!.
  - done.
  - unfold BLI_mempool_free. rewrite Hit. simpl. rewrite Hch, E2. simpl.
    rewrite int_of_Some by (unfold INT_MIN; lia). simpl.
    rewrite decide_False by lia. done.
  - simpl. lia.
  - unfold nxt. by rewrite Hla.
  - unfold BLI_mempool_alloc. simpl.
    rewrite int_of_Some by (unfold INT_MIN; lia). simpl.
    rewrite Hit. simpl. rewrite Hla. simpl.
    by replace (totused pool1 - 1 + 1)%Z with (totused pool1) by lia.
  - unfold BLI_mempool_alloc. simpl.
    rewrite int_of_Some by (unfold INT_MIN; lia). simpl.
    rewrite Hit. simpl. rewrite Hla. done.
  - simpl. lia.
  - done.
Qed.

(** The restriction on what the client may store.  On a pool with iteration
    enabled, data that has the free tag where the pool keeps its tag hides
    the element: the iterator passes over it, and
    [BLI_mempool_as_table] fills in one entry less than the count. *)
Theorem free_tag_in_data_hides_element ops h pool lent a nd h' :
  reached garbage ops h pool lent → allow_iter (flag pool) = true →
  a ∈ lent → freeword nd = FREEWORD → store h a nd = Some h' →
  ∃ l,
    BLI_mempool_as_table h pool = Some l ∧ a ∈ l ∧
    BLI_mempool_as_table h' pool = Some (filter (λ b, b ≠ a) l) ∧
    Z.of_nat (length (filter (λ b, b ≠ a) l)) = (BLI_mempool_count pool - 1)%Z.
Proof.
  intros R Hit Ha Hnd Es. destruct (reached_wf _ _ _ _ R) as [fl W].
  pose proof W as (I & _ & Hcnt & _).
  pose proof (inv_pchunk _ _ _ _ I) as Hp.
  pose proof (inv_esize _ _ _ _ I) as He.
  pose proof (inv_csize _ _ _ _ I) as Hc.
  pose proof (inv_csize_max _ _ _ _ I) as Hcm.
  unfold MEMPOOL_ELEM_SIZE_MIN, sizeof_ptr in He.
  pose proof (store_Some _ _ _ _ Es) as (_ & U).
  assert (a ∈ lent_in_order pool lent) as Hal.
  { apply list_elem_of_filter. split; [done|].
    apply (inv_all_slots _ _ _ _ a I). by right. }
  assert (NoDup (lent_in_order pool lent)) as Hndl.
  { apply NoDup_filter, NoDup_all_slots. by eapply inv_chunks_NoDup. }
  exists (lent_in_order pool lent). split_and!.
  - by eapply as_table_wf.
  - done.
  - assert (filter (untagged h') (all_slots pool)
            = filter (λ b, b ≠ a) (lent_in_order pool lent)) as Hfl.
    { unfold lent_in_order. rewrite list_filter_filter.
      apply filter_ext_in. intros x Hx. unfold untagged.
      destruct (decide (x = a)) as [->|Hne].
      - rewrite (updated_tag_eq _ _ _ _ U), Hnd. tauto.
      - rewrite (updated_tag_ne _ _ _ _ _ U Hne).
        pose proof (untagged_lent _ _ _ _ x I Hit Hx) as Hu.
        unfold untagged in Hu. tauto. }
    unfold BLI_mempool_as_table.
    rewrite as_table_loop_spec; try done; try lia.
    + by rewrite iter_rest_new, Hfl.
    + destruct lent; [by apply not_elem_of_nil in Ha|simpl in Hcnt; lia].
    + apply iter_ok_new. lia.
    + intros x Hx. rewrite iter_rest_new in Hx.
      apply (same_shape_load h h' x (updated_shape _ _ _ _ U)).
      apply (inv_load _ _ _ _ _ I). by apply elem_of_all_slots.
    + rewrite iter_rest_new.
      pose proof (length_filter (untagged h') (all_slots pool)) as Hlf.
      pose proof (iter_rest_length pool (BLI_mempool_iternew pool)
                    ltac:(lia) ltac:(apply iter_ok_new; lia)) as Hlen.
      rewrite iter_rest_new in Hlen. unfold iterstep_fuel in Hlen.
      simpl in Hlen. lia.
  - pose proof (length_filter_ne _ a Hndl Hal) as Hl.
    pose proof (length_lent_in_order _ _ _ _ I) as Hll.
    unfold BLI_mempool_count. lia.
Qed.

(** ** No undefined behaviour *)


(** ** Allocation order on a new pool *)

Lemma slot_at_add b p n i : i < p → slot_at b p (n * p + i) = (b + n, i).
Proof.
  intros Hi. unfold slot_at.
  rewrite Nat.div_add_l by lia. rewrite (Nat.div_small i p) by done.
  rewrite (Nat.add_comm (n * p) i), Nat.Div0.mod_add.
  rewrite Nat.mod_small by done. f_equal. lia.
Qed.

Lemma chunk_slots_slot_at b p n :
  chunk_slots p (b + n) = slot_at b p <$> seq (n * p) p.
Proof.
  unfold chunk_slots.
  replace (n * p) with (n * p + 0) by lia.
  rewrite <-(fmap_add_seq (n * p) 0 p), <-list_fmap_compose.
  apply Forall_fmap_ext_1, Forall_forall. intros i Hi.
  apply elem_of_seq in Hi. simpl. rewrite slot_at_add by lia. done.
Qed.

Lemma all_slots_seq pool b n :
  chunks pool = seq b n →
  all_slots pool = slot_at b (Z.to_nat (pchunk pool)) <$> seq 0 (n * Z.to_nat (pchunk pool)).
Proof.
  unfold all_slots. intros ->. induction n as [|n IH]; [done|].
  rewrite seq_S, bind_app, IH, bind_singleton, chunk_slots_slot_at.
  rewrite <-fmap_app. f_equal.
  replace (S n * Z.to_nat (pchunk pool))
    with (n * Z.to_nat (pchunk pool) + Z.to_nat (pchunk pool)) by lia.
  by rewrite seq_app.
Qed.

Lemma reverse_seq_S (f : nat → nat * nat) j :
  f j :: reverse (f <$> seq 0 j) = reverse (f <$> seq 0 (S j)).
Proof. by rewrite seq_S, fmap_app, reverse_app. Qed.

(** Allocations on a pool whose slots were handed out in slot order so far:
    they go on in slot order, into a new chunk when the last one is full. *)
Lemma run_allocs_grow b p k : ∀ j n h pool,
  0 < p → Z.to_nat (pchunk pool) = p →
  wf h pool (reverse (slot_at b p <$> seq 0 j))
     (slot_at b p <$> seq j (n * p - j)) →
  chunks pool = seq b n → brk h = b + n → j ≤ n * p →
  (Z.of_nat (j + k) ≤ INT_MAX)%Z →
  ∃ h' pool' n',
    run garbage (replicate k Alloc) h pool (reverse (slot_at b p <$> seq 0 j))
      = Some (h', pool', reverse (slot_at b p <$> seq 0 (j + k))) ∧
    wf h' pool' (reverse (slot_at b p <$> seq 0 (j + k)))
       (slot_at b p <$> seq (j + k) (n' * p - (j + k))) ∧
    chunks pool' = seq b n' ∧ brk h' = b + n' ∧ j + k ≤ n' * p ∧ n ≤ n' ∧
    (n' = n ∨ n' * p < j + k + p) ∧
    flag pool' = flag pool ∧ pchunk pool' = pchunk pool.
Proof.
  induction k as [|k IH]; intros j n h pool Hp Hpc W Hcs Hb Hj Hm.
  { simpl. exists h, pool, n. rewrite Nat.add_0_r. split_and!; try done.
    by left. }
  assert (totused pool = Z.of_nat j) as Hcnt.
  { destruct W as (_ & _ & -> & _).
    by rewrite length_reverse, length_fmap, length_seq. }
  cbn [replicate run].
  destruct (alloc_wf _ _ _ _ W ltac:(lia))
    as (h1 & pool1 & a & fl1 & -> & W1 & _ & _ & Hpc1 & Hfl1 & _ & _ & Hcase).
  cbn [mbind option_bind].
  replace (j + S k) with (S j + k) by lia.
  destruct Hcase as [(Hfl & Hb1 & Hcs1 & _)|(Hfl & Hb1 & Hcs1 & _ & Hnew)].
  - (* the free list serves the allocation *)
    destruct (n * p - j) as [|m] eqn:Em; [done|].
    simpl in Hfl. injection Hfl as <- <-.
    rewrite reverse_seq_S in W1 |- *.
    destruct (IH (S j) n h1 pool1 Hp) as (h' & pool' & n' & E & W' & ?).
    + congruence.
    + by replace (n * p - S j) with m by lia.
    + congruence.
    + congruence.
    + lia.
    + lia.
    + exists h', pool', n'. split; [done|]. split; [done|].
      destruct_and!. split_and!; try done; try lia; congruence.
  - (* one more chunk *)
    assert (j = n * p) as Hjn.
    { destruct (n * p - j) eqn:Em; [lia|done]. }
    rewrite Hpc, Hb, chunk_slots_slot_at in Hnew.
    destruct p as [|p']; [lia|]. simpl in Hnew. injection Hnew as -> ->.
    rewrite <-Hjn in *.
    rewrite reverse_seq_S in W1 |- *.
    destruct (IH (S j) (S n) h1 pool1 ltac:(lia)) as (h' & pool' & n' & E & W' & ?).
    + congruence.
    + by replace (S n * S p' - S j) with p' by lia.
    + by rewrite Hcs1, Hcs, Hb, seq_S.
    + lia.
    + lia.
    + lia.
    + exists h', pool', n'. split; [done|]. split; [done|].
      destruct_and!. split_and!; try done; try lia; congruence.
Qed.

Lemma filter_all {A} (P : A → Prop) `{!∀ x, Decision (P x)} (l : list A) :
  (∀ x, x ∈ l → P x) → filter P l = l.
Proof.
  induction l as [|x l IH]; intros Hall; [done|].
  rewrite filter_cons_True by (apply Hall; left). f_equal.
  apply IH. intros y Hy. apply Hall. by right.
Qed.

Lemma filter_none {A} (P : A → Prop) `{!∀ x, Decision (P x)} (l : list A) :
  (∀ x, x ∈ l → ¬ P x) → filter P l = [].
Proof.
  induction l as [|x l IH]; intros Hall; [done|].
  rewrite filter_cons_False by (apply Hall; left).
  apply IH. intros y Hy. apply Hall. by right.
Qed.

(** On a pool as [BLI_mempool_create] returns it, allocation number [i]
    (from 0) returns slot [i mod pchunk] of the chunk that is number
    [i / pchunk] in the order of creation, however many there are: the
    elements lie in the chunks in the order of their allocation.  A chunk is
    added only when the ones before are full, and with iteration enabled the
    iterator returns the elements in the order they were allocated. *)
Theorem new_pool_allocates_in_slot_order b e t p f h pool k :
  (0 ≤ t)%Z → (1 ≤ p)%Z →
  BLI_mempool_create garbage (mk_heap b ∅) e t p f = Some (h, pool) →
  (Z.of_nat k ≤ INT_MAX)%Z →
  ∃ h' pool',
    run garbage (replicate k Alloc) h pool []
      = Some (h', pool', reverse (slot_at b (Z.to_nat p) <$> seq 0 k)) ∧
    chunks pool' = seq b (length (chunks pool')) ∧ pchunk pool' = p ∧
    k ≤ capacity pool' ∧
    (chunks pool' = chunks pool ∨ capacity pool' < k + Z.to_nat p) ∧
    (allow_iter f = true →
       BLI_mempool_as_table h' pool'
       = Some (slot_at b (Z.to_nat p) <$> seq 0 k)).
Proof.
  intros Ht Hp E Hk.
  destruct (create_spec _ _ _ _ _ _ _ Hp Ht E)
    as (W & Hcs & Hb & _ & _ & Hpc & Hfl & _).
  set (n := Z.to_nat (create_maxchunks t p)) in *.
  rewrite (all_slots_seq pool b n Hcs), Hpc in W.
  destruct (run_allocs_grow b (Z.to_nat p) k 0 n h pool)
    as (h' & pool' & n' & R & W' & Hcs' & Hb' & Hcap & Hn & Hgrow & Hfl' & Hpc');
    try done; try lia.
  { by rewrite Nat.sub_0_r. }
  simpl in R, W', Hcap, Hgrow.
  assert (capacity pool' = n' * Z.to_nat p) as Hcp.
  { unfold capacity. by rewrite Hcs', length_seq, Hpc', Hpc. }
  exists h', pool'. split_and!.
  - done.
  - by rewrite Hcs', length_seq.
  - congruence.
  - lia.
  - destruct Hgrow as [->|?]; [left; congruence|right; lia].
  - intros Hit. rewrite (as_table_wf _ _ _ _ W') by congruence.
    f_equal. unfold lent_in_order.
    rewrite (all_slots_seq pool' b n' Hcs'), Hpc', Hpc.
    replace (n' * Z.to_nat p) with (k + (n' * Z.to_nat p - k)) by lia.
    rewrite seq_app, fmap_app, filter_app. simpl.
    rewrite filter_all, filter_none.
    + by rewrite app_nil_r.
    + intros x Hx Hx'. destruct W' as (I' & _).
      pose proof (inv_nodup _ _ _ _ I') as Hnd.
      apply NoDup_app in Hnd as (_ & Hnd & _). by apply (Hnd x).
    + intros x Hx. by apply elem_of_reverse.
Qed.

(** ** Creation at the edges *)



(** The first allocation on a pool that has no chunk yet. *)
Lemma alloc_first_chunk h pool :
  inv h pool [] [] → totused pool = 0%Z →
  ∃ h' pool' fl',
    BLI_mempool_alloc garbage h pool = Some (h', pool', Some (brk h, 0)) ∧
    wf h' pool' [(brk h, 0)] fl' ∧
    chunks pool' = chunks pool ++ [brk h] ∧ totused pool' = 1%Z.
Proof.
  intros I Ht. unfold BLI_mempool_alloc.
  rewrite int_of_Some by (by rewrite Ht). simpl.
  pose proof (inv_chain _ _ _ _ I) as Hch.
  destruct (free pool) as [a|] eqn:Ef; [inversion Hch|].
  apply (inv_set_totused _ _ _ _ (totused pool + 1)%Z) in I.
  destruct (add_fresh_inv _ _ _ _ I) as (h1 & E1 & Hb1 & F1 & I1).
  unfold mempool_chunk_alloc in *. simpl in *. rewrite Ef in *.
  rewrite E1; simpl.
  assert (0 < Z.to_nat (pchunk pool)) as Hn
    by (pose proof (inv_pchunk _ _ _ _ I); simpl in *; lia).
  destruct (Z.to_nat (pchunk pool)) as [|n] eqn:En; [lia|].
  unfold chunk_slots in I1. simpl in I1.
  destruct (alloc_pop _ _ _ _ _ I1) as (h' & nd & E & El & Hnx & Hb & F & G & I').
  simpl in E. rewrite E; simpl. rewrite El; simpl.
  eexists h', _, _. split; [done|]. split; [|by rewrite Ht].
  split; [done|]. split; [|by rewrite Ht]. simpl. by destruct (chunks pool).
Qed.

(** [BLI_mempool_create] with a negative estimate.  Down to twice the chunk
    length, that excluded, the estimate counts as 0: one chunk is made.
    Below, no chunk is made and the free list is NULL.  On such a pool
    [BLI_mempool_clear] is undefined, it hands the NULL first chunk on to be
    threaded, while an allocation makes the first chunk and returns its first
    slot. *)
Theorem create_with_negative_estimate b e t p f :
  (1 ≤ p)%Z → (INT_MIN ≤ t < 0)%Z → (Z.max e 16 * p ≤ INT_MAX)%Z →
  ((- (2 * p) < t)%Z →
     BLI_mempool_create garbage (mk_heap b ∅) e t p f
     = BLI_mempool_create garbage (mk_heap b ∅) e 0 p f) ∧
  ((t ≤ - (2 * p))%Z →
     let pool := mk_mempool [] (Z.max e 16) (Z.max e 16 * p) p f None 0 in
     BLI_mempool_create garbage (mk_heap b ∅) e t p f
       = Some (mk_heap b ∅, pool) ∧
     BLI_mempool_clear (mk_heap b ∅) pool = None ∧
     ∃ h' pool',
       BLI_mempool_alloc garbage (mk_heap b ∅) pool
         = Some (h', pool', Some (b, 0)) ∧
       chunks pool' = [b] ∧ BLI_mempool_count pool' = 1%Z).
Proof.
  intros Hp Ht Hcs.
  pose proof (Z.quot_rem' t p) as Hqr.
  pose proof (Z.rem_bound_pos_neg t p ltac:(lia) ltac:(lia)) as Hr.
  assert ((if decide (e < MEMPOOL_ELEM_SIZE_MIN)%Z
           then MEMPOOL_ELEM_SIZE_MIN else e) = Z.max e 16) as Hes.
  { unfold MEMPOOL_ELEM_SIZE_MIN, sizeof_ptr. case_decide; lia. }
  assert ((if allow_iter f then Z.max (Z.max e 16) sizeof_BLI_freenode
           else Z.max e 16) = Z.max e 16) as Hpe.
  { unfold sizeof_BLI_freenode. destruct (allow_iter f); lia. }
  split.
  - intros Hlo. unfold BLI_mempool_create.
    destruct (decide (p = 0%Z)) as [?|_]; [lia|].
    destruct (int_of (_ * p)) as [cs|]; [|done]. simpl.
    assert (t ÷ p = 0 ∨ t ÷ p = -1)%Z as [->| ->] by nia.
    + by rewrite ?Z.quot_0_l by lia.
    + by rewrite ?Z.quot_0_l by lia.
  - intros Hlo pool.
    assert (INT_MIN ≤ t ÷ p ≤ -2)%Z as Hq by (unfold INT_MIN in *; nia).
    split_and!.
    + unfold BLI_mempool_create. rewrite Hes, Hpe.
      rewrite (int_of_Some (Z.max e 16 * p))
        by (split; [transitivity 0%Z; [done|apply Z.mul_nonneg_nonneg; lia]
                   |done]).
      rewrite (decide_False (P:=(p = 0%Z))) by lia.
      rewrite (int_of_Some (t ÷ p)) by (unfold INT_MAX; lia).
      cbn [mbind option_bind].
      rewrite (int_of_Some (t ÷ p + 1)) by (unfold INT_MIN, INT_MAX in *; lia).
      cbn [mbind option_bind].
      rewrite decide_False by lia.
      by replace (Z.to_nat (t ÷ p + 1)) with 0 by lia.
    + done.
    + destruct (alloc_first_chunk (mk_heap b ∅) pool)
        as (h' & pool' & fl' & E & _ & Hc & Hu).
      * assert (p ≤ INT_MAX)%Z as Hpm.
        { pose proof (Z.le_max_r e 16) as H16. clear Hes Hpe pool.
          remember (Z.max e 16) as m. nia. }
        apply empty_pool_inv; try done; try lia.
        unfold MEMPOOL_ELEM_SIZE_MIN, sizeof_ptr. lia.
      * done.
      * exists h', pool'. done.
Qed.

(** ** Round trips *)

(** Two memories with the same blocks and the same nodes are the same. *)
Lemma heap_ext h1 h2 :
  same_shape h1 h2 → (∀ a, load h2 a = load h1 a) → h2 = h1.
Proof.
  intros [Hb Hs] Hl. destruct h1 as [b1 m1], h2 as [b2 m2]. simpl in *.
  subst. f_equal. apply map_eq. intros c. specialize (Hs c).
  destruct (m2 !! c) as [blk2|] eqn:E2, (m1 !! c) as [blk1|] eqn:E1;
    simpl in Hs; try done.
  f_equal. apply list_eq. intros i. specialize (Hl (c, i)).
  unfold load in Hl. simpl in Hl. by rewrite E1, E2 in Hl.
Qed.

Lemma node_eq h1 h2 a :
  nxt h2 a = nxt h1 a → tag h2 a = tag h1 a → load h2 a = load h1 a.
Proof.
  unfold nxt, tag.
  destruct (load h2 a) as [[n2 w2]|], (load h1 a) as [[n1 w1]|]; simpl;
    congruence.
Qed.

Lemma inv_same_shape h1 h2 pool1 pool2 l1 f1 l2 f2 :
  inv h1 pool1 l1 f1 → inv h2 pool2 l2 f2 →
  chunks pool2 = chunks pool1 → pchunk pool2 = pchunk pool1 →
  brk h2 = brk h1 → same_shape h1 h2.
Proof.
  intros I1 I2 Hc Hp Hb. split; [done|]. intros c.
  destruct (blocks h2 !! c) as [blk2|] eqn:E2,
           (blocks h1 !! c) as [blk1|] eqn:E1; simpl; [|exfalso..|done].
  - f_equal. rewrite (inv_blk _ _ _ _ I2 c _ E2), (inv_blk _ _ _ _ I1 c _ E1).
    congruence.
  - assert (is_Some (blocks h2 !! c)) as Hs by eauto.
    apply (inv_dom _ _ _ _ I2) in Hs. rewrite Hc in Hs.
    apply (inv_dom _ _ _ _ I1) in Hs. rewrite E1 in Hs. by destruct Hs.
  - assert (is_Some (blocks h1 !! c)) as Hs by eauto.
    apply (inv_dom _ _ _ _ I1) in Hs. rewrite <-Hc in Hs.
    apply (inv_dom _ _ _ _ I2) in Hs. rewrite E2 in Hs. by destruct Hs.
Qed.

(** An allocation that the free list serves, undone at once by a free of the
    reference it returned, leaves the memory and the pool exactly as they
    were, as long as the client holds another element (so that the free does
    not shrink the pool). *)
Theorem alloc_then_free_restores ops h pool lent h' pool' a :
  reached garbage ops h pool lent →
  free pool ≠ None → (1 ≤ BLI_mempool_count pool)%Z →
  BLI_mempool_alloc garbage h pool = Some (h', pool', Some a) →
  BLI_mempool_free h' pool' a = Some (h, pool).
Proof.
  unfold BLI_mempool_count. intros R Hf Hc E.
  destruct (reached_wf _ _ _ _ R) as [fl W].
  pose proof W as (I & _ & _ & Hmx).
  pose proof (inv_chain _ _ _ _ I) as Hch.
  pose proof (alloc_range _ _ _ E) as Hlt.
  unfold BLI_mempool_alloc in E.
  rewrite int_of_Some in E by (unfold INT_MIN; lia). simpl in E.
  destruct (free pool) as [a0|] eqn:Ef; [|done]. simpl in E.
  rewrite Ef in E. simpl in E.
  apply bind_Some in E as (hx & Ex & E).
  apply bind_Some in E as (nd & End & E). simplify_eq.
  assert (a ∈ fl) as Hafl.
  { apply chain_head in Hch. destruct fl; simplify_eq/=. left. }
  assert (is_Some (load h a)) as [nd0 End0].
  { apply (inv_cover _ _ _ _ I). by left. }
  assert (set_totused
            (set_free (set_free (set_totused pool (totused pool + 1)) (next nd))
                      (Some a))
            (totused pool + 1 - 1) = pool) as Hpool.
  { destruct pool. simpl in *. subst. f_equal. lia. }
  unfold BLI_mempool_free. simpl.
  destruct (allow_iter (flag pool)) eqn:Hit.
  - destruct (store_freeword_Some _ _ _ _ Ex) as (nd1 & End1 & U1).
    assert (nd1 = nd0) as -> by congruence.
    destruct U1 as (S1 & L1 & F1).
    assert (nd = mk_freenode (next nd0) USEDWORD) as -> by congruence.
    destruct (store_freeword_is_Some h' a FREEWORD) as [h1 E1]; [by eauto|].
    destruct (store_freeword_Some _ _ _ _ E1) as (nd2 & End2 & (S2 & L2 & F2)).
    assert (nd2 = mk_freenode (next nd0) USEDWORD) as -> by congruence.
    simpl in *.
    destruct (store_next_is_Some h1 a (next nd0)) as [h2 E2]; [by eauto|].
    destruct (store_next_Some _ _ _ _ E2) as (nd3 & End3 & (S3 & L3 & F3)).
    assert (nd3 = mk_freenode (next nd0) FREEWORD) as -> by congruence.
    simpl in *. rewrite E1. simpl. rewrite E2. simpl.
    rewrite int_of_Some by (unfold INT_MIN; lia). simpl.
    rewrite decide_False by lia. rewrite Hpool. f_equal. f_equal.
    apply heap_ext.
    + eapply same_shape_trans; [|done]. by eapply same_shape_trans.
    + intros b. destruct (decide (b = a)) as [->|Hne].
      * rewrite L3, End0.
        destruct (inv_tags _ _ _ _ I Hit) as [Tf _].
        specialize (Tf a Hafl). unfold tag in Tf. rewrite End0 in Tf.
        simpl in Tf. destruct nd0. simpl in *. congruence.
      * by rewrite F3, F2, F1.
  - injection Ex as <-.
    assert (nd = nd0) as -> by congruence.
    destruct (store_next_is_Some h a (next nd0)) as [h2 E2]; [by eauto|].
    destruct (store_next_Some _ _ _ _ E2) as (nd3 & End3 & (S3 & L3 & F3)).
    assert (nd3 = nd0) as -> by congruence.
    simpl. rewrite E2. simpl.
    rewrite int_of_Some by (unfold INT_MIN; lia). simpl.
    rewrite decide_False by lia. rewrite Hpool. f_equal. f_equal.
    apply heap_ext; [done|].
    intros b. destruct (decide (b = a)) as [->|Hne].
    + rewrite L3, End0. by destruct nd0.
    + by rewrite F3.
Qed.

(** A second [BLI_mempool_clear] changes nothing: neither the memory nor
    the pool. *)
Theorem clear_is_idempotent ops h pool lent h' pool' :
  reached garbage ops h pool lent →
  BLI_mempool_clear h pool = Some (h', pool') →
  BLI_mempool_clear h' pool' = Some (h', pool').
Proof.
  intros R E. destruct (reached_wf _ _ _ _ R) as [fl W].
  destruct (clear_wf _ _ _ _ W)
    as (h1 & first & rest & Hcs & E1 & Hb1 & _ & _ & Htag1 & W1).
  rewrite E in E1. simplify_eq.
  destruct (clear_wf _ _ _ _ W1)
    as (h2 & first2 & rest2 & Hcs2 & E2 & Hb2 & _ & _ & Htag2 & W2).
  simpl in *. simplify_eq. rewrite E2. f_equal. f_equal.
  destruct W1 as (I1 & _), W2 as (I2 & _).
  apply heap_ext.
  - by eapply inv_same_shape.
  - intros a.
    destruct (inv_unlent_agree h2 h1 _ _ a I2 I1) as [Hn Ht].
    apply node_eq; [done|].
    destruct (allow_iter (flag pool)) eqn:Hit; [by apply Ht|].
    destruct (decide (a.1 = first2 ∧ a.2 < Z.to_nat (pchunk pool)))
      as [[<- Hi]|Hout].
    + specialize (Htag2 a.2 Hi). by destruct a.
    + unfold tag.
      assert (load h2 a = None) as ->.
      { apply eq_None_not_Some. rewrite (inv_load _ _ _ _ a I2). simpl.
        rewrite list_elem_of_singleton. tauto. }
      assert (load h1 a = None) as ->; [|done].
      apply eq_None_not_Some. rewrite (inv_load _ _ _ _ a I1). simpl.
      rewrite list_elem_of_singleton. tauto.
Qed.

(** Handing back the only element lent is a clear: the free that brings the
    count to zero returns the very memory and pool that
    [BLI_mempool_clear] returns on the same state. *)
Theorem free_of_last_element_is_clear ops h pool a :
  reached garbage ops h pool [a] →
  BLI_mempool_free h pool a = BLI_mempool_clear h pool.
Proof.
  intros R. destruct (reached_wf _ _ _ _ R) as [fl W].
  pose proof W as (I & Hne & Hcnt & Hmx). simpl in Hcnt.
  destruct (clear_wf _ _ _ _ W)
    as (h2 & first & rest & Hcs & -> & Hb2 & _ & _ & Htag2 & (I2 & _)).
  assert (a ∈ [a]) as Ha by left.
  unfold BLI_mempool_free.
  destruct (free_push _ _ _ _ _ I Ha) as (h1 & hx & E1 & Ex & Hbx & Fx & Ix).
  rewrite E1. simpl. rewrite Ex. simpl.
  rewrite int_of_Some by (unfold INT_MIN, INT_MAX in *; lia). simpl.
  rewrite decide_True by lia.
  apply (inv_set_totused _ _ _ _ (totused pool - 1)%Z) in Ix.
  rewrite filter_cons_False, filter_nil in Ix by (intros ?; done).
  destruct (free_shrink_inv _ _ _ first rest Ix)
    as (h' & -> & Hb & _ & Htag & _ & I'); [done|].
  simpl in *. replace (totused pool - 1)%Z with 0%Z in * by lia.
  f_equal. f_equal. symmetry. apply heap_ext.
  - eapply inv_same_shape; [exact I'|exact I2|done|done|]. congruence.
  - intros b.
    destruct (inv_unlent_agree h2 h' _ _ b I2 I') as [Hn Ht].
    apply node_eq; [done|].
    destruct (allow_iter (flag pool)) eqn:Hit; [by apply Ht|].
    destruct (decide (b.1 = first ∧ b.2 < Z.to_nat (pchunk pool)))
      as [[<- Hi]|Hout].
    + specialize (Htag2 b.2 Hi). specialize (Htag b.2).
      destruct b as [c i]. simpl in *. rewrite Htag2, Htag.
      injection E1 as <-.
      destruct (decide ((c, i) = a)) as [<-|Hne'].
      * destruct (store_next_Some _ _ _ _ Ex) as (nd & End & U).
        rewrite (updated_tag_eq _ _ _ _ U). unfold tag. by rewrite End.
      * unfold tag. by rewrite Fx.
    + unfold tag.
      assert (load h2 b = None) as ->.
      { apply eq_None_not_Some. rewrite (inv_load _ _ _ _ b I2). simpl.
        rewrite list_elem_of_singleton. tauto. }
      assert (load h' b = None) as ->; [|done].
      apply eq_None_not_Some. rewrite (inv_load _ _ _ _ b I'). simpl.
      rewrite list_elem_of_singleton. tauto.
Qed.

End Proofs.

(** * The theorems on concrete runs *)

Ltac solve_reached t p :=
  exists (state_after t p []).1.1, (state_after t p []).1.2; split;
  [ exists 0, 16%Z, t, p, BLI_MEMPOOL_ALLOW_ITER;
    split; [lia|split; [lia|vm_compute; reflexivity]]
  | vm_compute; reflexivity ].

Lemma scenario_reached :
  reached no_garbage scenario_ops scenario.1.1 scenario.1.2 scenario.2.
Proof. solve_reached 4%Z 4%Z. Defined.

Lemma count_allocs_minus_frees_witness :
  BLI_mempool_create no_garbage (mk_heap 0 ∅) 16 4 4 BLI_MEMPOOL_ALLOW_ITER
    = Some (state_after 4 4 []).1 ∧
  run no_garbage scenario_ops (state_after 4 4 []).1.1 (state_after 4 4 []).1.2 []
    = Some scenario ∧
  BLI_mempool_count scenario.1.2 = 4%Z.
Proof.
  assert (BLI_mempool_create no_garbage (mk_heap 0 ∅) 16 4 4
            BLI_MEMPOOL_ALLOW_ITER
          = Some ((state_after 4 4 []).1.1, (state_after 4 4 []).1.2)) as C
    by (vm_compute; reflexivity).
  assert (run no_garbage scenario_ops (state_after 4 4 []).1.1
              (state_after 4 4 []).1.2 []
          = Some (scenario.1.1, scenario.1.2, scenario.2)) as R
    by (vm_compute; reflexivity).
  split; [vm_compute; reflexivity|]. split; [vm_compute; reflexivity|].
  exact (count_allocs_minus_frees no_garbage _ _ _ _ _ _ _ _ _ _ _ C R).
Defined.

(** Three chunks, one allocation, and its free. *)
Lemma free_to_zero_keeps_first_chunk_witness :
  let st := state_after 8 4 [Alloc] in
  let st' := free_on st (0, 0) in
  reached no_garbage [Alloc] st.1.1 st.1.2 st.2 ∧
  (0, 0) ∈ st.2 ∧
  BLI_mempool_free st.1.1 st.1.2 (0, 0) = Some (st'.1, st'.2) ∧
  BLI_mempool_count st'.2 = 0%Z ∧
  chunks st.1.2 = [0; 1; 2] ∧
  ∃ first,
    chunks st'.2 = [first] ∧
    (∀ c, c ∈ tail (chunks st.1.2) → blocks st'.1 !! c = None) ∧
    ∃ h'' pool'',
      BLI_mempool_alloc no_garbage st'.1 st'.2 = Some (h'', pool'', Some (first, 0)) ∧
      chunks pool'' = [first].
Proof.
  intros st st'.
  assert (reached no_garbage [Alloc] st.1.1 st.1.2 st.2) as R
    by solve_reached 8%Z 4%Z.
  assert ((0, 0) ∈ st.2) as Ha by (vm_compute; left).
  assert (BLI_mempool_free st.1.1 st.1.2 (0, 0) = Some (st'.1, st'.2)) as E
    by (vm_compute; reflexivity).
  assert (BLI_mempool_count st'.2 = 0%Z) as Hz by (vm_compute; reflexivity).
  split; [exact R|]. split; [exact Ha|]. split; [exact E|]. split; [exact Hz|].
  split; [vm_compute; reflexivity|].
  destruct (free_to_zero_keeps_first_chunk no_garbage _ _ _ _ _ _ _ R Ha E Hz)
    as (first & _ & Hcs & _ & Hrel & _ & _ & h'' & pool'' & Ea & Hcs' & _).
  exists first. split; [exact Hcs|]. split; [exact Hrel|].
  exists h'', pool''. split; [exact Ea|exact Hcs'].
Defined.

Lemma iteration_yields_live_references_witness :
  reached no_garbage scenario_ops scenario.1.1 scenario.1.2 scenario.2 ∧
  allow_iter (flag scenario.1.2) = true ∧
  BLI_mempool_as_table scenario.1.1 scenario.1.2
    = Some [(0, 0); (0, 2); (1, 0); (1, 1)].
Proof.
  assert (allow_iter (flag scenario.1.2) = true) as Hit
    by (vm_compute; reflexivity).
  split; [exact scenario_reached|]. split; [exact Hit|].
  destruct (iteration_yields_live_references no_garbage _ _ _ _
              scenario_reached Hit) as (l & -> & _ & _ & _ & _ & -> & _).
  vm_compute. reflexivity.
Defined.

Lemma create_chunk_count_witness :
  let st := state_after 4 4 [] in
  (0 ≤ 4)%Z ∧ (1 ≤ 4)%Z ∧
  BLI_mempool_create no_garbage (mk_heap 0 ∅) 16 4 4 BLI_MEMPOOL_ALLOW_ITER
    = Some st.1 ∧
  Z.of_nat (length (chunks st.1.2)) = 2%Z.
Proof.
  intros st.
  assert (BLI_mempool_create no_garbage (mk_heap 0 ∅) 16 4 4
            BLI_MEMPOOL_ALLOW_ITER = Some st.1) as E by (vm_compute; reflexivity).
  split; [lia|]. split; [lia|]. split; [exact E|].
  destruct (create_chunk_count no_garbage 0 16 4 4 BLI_MEMPOOL_ALLOW_ITER
              st.1.1 st.1.2 ltac:(lia) ltac:(lia) E) as [-> _].
  vm_compute. reflexivity.
Defined.

(** C4 as stated fails: for an estimate of 4 elements and 4 elements in a
    chunk the estimate rounded up is 1 chunk, and 2 are made. *)
Lemma create_chunk_count_counterexample :
  ¬ (∀ garbage b e t p f h pool,
       (0 ≤ t)%Z → (1 ≤ p)%Z →
       BLI_mempool_create garbage (mk_heap b ∅) e t p f = Some (h, pool) →
       Z.of_nat (length (chunks pool)) = spec_chunks_needed t p).
Proof.
  intros H.
  specialize (H no_garbage 0 16%Z 4%Z 4%Z BLI_MEMPOOL_ALLOW_ITER
                (state_after 4 4 []).1.1 (state_after 4 4 []).1.2
                ltac:(lia) ltac:(lia) ltac:(vm_compute; reflexivity)).
  vm_compute in H. discriminate H.
Qed.

Lemma clear_keeps_first_chunk_witness :
  reached no_garbage scenario_ops scenario.1.1 scenario.1.2 scenario.2 ∧
  chunks scenario.1.2 = [0; 1] ∧
  ∃ h' pool',
    BLI_mempool_clear scenario.1.1 scenario.1.2 = Some (h', pool') ∧
    chunks pool' = [0] ∧ brk h' = brk scenario.1.1 ∧
    is_Some (blocks h' !! 0) ∧ blocks h' !! 1 = None.
Proof.
  split; [exact scenario_reached|]. split; [vm_compute; reflexivity|].
  destruct (clear_keeps_first_chunk no_garbage _ _ _ _ scenario_reached)
    as (first & h' & pool' & Hhd & E & Hb & Hdom & Hcs & _).
  vm_compute in Hhd. injection Hhd as <-.
  exists h', pool'. split; [exact E|]. split; [exact Hcs|]. split; [exact Hb|].
  split; [apply Hdom; reflexivity|].
  apply eq_None_not_Some. intros Hs. apply Hdom in Hs. discriminate Hs.
Defined.

(** C5 as stated fails: the first chunk is not released by a clear, and the
    chunk of the pool afterwards is that chunk, not a new one. *)
Lemma clear_releases_all_counterexample :
  ¬ (∀ garbage ops h pool lent h' pool',
       reached garbage ops h pool lent →
       BLI_mempool_clear h pool = Some (h', pool') →
       spec_clear_releases_all pool h' pool').
Proof.
  intros H.
  destruct (H no_garbage scenario_ops _ _ _ (clear_on scenario).1
              (clear_on scenario).2 scenario_reached
              ltac:(vm_compute; reflexivity)) as [Hrel _].
  specialize (Hrel 0 ltac:(vm_compute; left)).
  vm_compute in Hrel. discriminate Hrel.
Qed.

(** One chunk of one slot, taken: the next allocation needs a chunk. *)
Lemma alloc_pops_free_list_head_witness :
  let st := state_after 0 1 [Alloc] in
  let st' := alloc_on st in
  reached no_garbage [Alloc] st.1.1 st.1.2 st.2 ∧
  BLI_mempool_alloc no_garbage st.1.1 st.1.2 = Some (st'.1, st'.2) ∧
  free st.1.2 = None ∧
  BLI_mempool_count st'.1.2 = 2%Z ∧
  chunks st'.1.2 = [0; 1] ∧ st'.2 = Some (1, 0) ∧
  tag st'.1.1 (1, 0) = Some USEDWORD.
Proof.
  intros st st'.
  assert (reached no_garbage [Alloc] st.1.1 st.1.2 st.2) as R
    by solve_reached 0%Z 1%Z.
  assert (BLI_mempool_alloc no_garbage st.1.1 st.1.2
          = Some (st'.1.1, st'.1.2, st'.2)) as E by (vm_compute; reflexivity).
  assert (free st.1.2 = None) as Hf by (vm_compute; reflexivity).
  assert (allow_iter (flag st.1.2) = true) as Hit by (vm_compute; reflexivity).
  destruct (alloc_pops_free_list_head no_garbage _ _ _ _ _ _ _ R E)
    as (Hc & _ & Hnew & _ & a & Ha & _ & _ & Htag).
  destruct (Hnew Hf) as (_ & Hcs & _ & Hr & _).
  split; [exact R|]. split; [vm_compute; reflexivity|]. split; [exact Hf|].
  split; [rewrite Hc; vm_compute; reflexivity|].
  split; [rewrite Hcs; vm_compute; reflexivity|].
  split; [rewrite Hr; vm_compute; reflexivity|].
  rewrite Hr in Ha. injection Ha as Ha. rewrite <-Ha in Htag.
  vm_compute in Htag. vm_compute. exact (Htag eq_refl).
Defined.

Lemma tag_invariant_witness :
  reached no_garbage scenario_ops scenario.1.1 scenario.1.2 scenario.2 ∧
  allow_iter (flag scenario.1.2) = true ∧
  ∃ fl,
    walk 8 scenario.1.1 (free scenario.1.2) = Some fl ∧
    (∀ a, a ∈ fl → tag scenario.1.1 a = Some FREEWORD) ∧
    (∀ a, a ∈ scenario.2 → tag scenario.1.1 a ≠ Some FREEWORD).
Proof.
  assert (allow_iter (flag scenario.1.2) = true) as Hit
    by (vm_compute; reflexivity).
  split; [exact scenario_reached|]. split; [exact Hit|].
  destruct (tag_invariant no_garbage _ _ _ _ scenario_reached Hit)
    as (fl & Hch & Hfree & Hlent & _).
  exists fl. split.
  - assert (walk 8 scenario.1.1 (free scenario.1.2)
            = Some [(0, 3); (0, 1); (1, 2); (1, 3)]) as Hw
      by (vm_compute; reflexivity).
    rewrite Hw. f_equal. apply walk_chain in Hw.
    exact (chain_inj _ _ _ _ Hw Hch).
  - split; [exact Hfree|]. intros a Ha.
    destruct (Hlent a Ha) as (w & -> & Hw).
    intros Heq. injection Heq as Heq. exact (Hw Heq).
Defined.

Lemma create_free_list_in_chunk_order_witness :
  let st := state_after 4 4 [] in
  (0 ≤ 4)%Z ∧ (1 ≤ 4)%Z ∧
  BLI_mempool_create no_garbage (mk_heap 0 ∅) 16 4 4 BLI_MEMPOOL_ALLOW_ITER
    = Some st.1 ∧
  walk 8 st.1.1 (free st.1.2)
    = Some [(0, 0); (0, 1); (0, 2); (0, 3); (1, 0); (1, 1); (1, 2); (1, 3)].
Proof.
  intros st.
  assert (BLI_mempool_create no_garbage (mk_heap 0 ∅) 16 4 4
            BLI_MEMPOOL_ALLOW_ITER = Some st.1) as E by (vm_compute; reflexivity).
  split; [lia|]. split; [lia|]. split; [exact E|].
  destruct (create_free_list_in_chunk_order no_garbage 0 16 4 4
              BLI_MEMPOOL_ALLOW_ITER st.1.1 st.1.2 ltac:(lia) ltac:(lia) E)
    as (_ & _ & Hw & _).
  vm_compute in Hw. vm_compute. exact Hw.
Defined.

Lemma findelem_by_index_witness :
  reached no_garbage scenario_ops scenario.1.1 scenario.1.2 scenario.2 ∧
  allow_iter (flag scenario.1.2) = true ∧
  BLI_mempool_findelem scenario.1.1 scenario.1.2 2 = Some (Some (1, 0)) ∧
  BLI_mempool_findelem scenario.1.1 scenario.1.2 4 = Some None ∧
  BLI_mempool_findelem scenario.1.1 scenario.1.2 (-1) = Some None.
Proof.
  assert (allow_iter (flag scenario.1.2) = true) as Hit
    by (vm_compute; reflexivity).
  assert (BLI_mempool_count scenario.1.2 = 4%Z) as Hc
    by (vm_compute; reflexivity).
  assert (BLI_mempool_as_table scenario.1.1 scenario.1.2
          = Some [(0, 0); (0, 2); (1, 0); (1, 1)]) as Ht
    by (vm_compute; reflexivity).
  split; [exact scenario_reached|]. split; [exact Hit|].
  destruct (findelem_by_index no_garbage _ _ _ _ 2 scenario_reached Hit)
    as (l & Hl & Hin & _).
  destruct (findelem_by_index no_garbage _ _ _ _ 4 scenario_reached Hit)
    as (_ & _ & _ & Hout).
  destruct (findelem_by_index no_garbage _ _ _ _ (-1) scenario_reached Hit)
    as (_ & _ & _ & Hneg).
  rewrite Hc in Hin, Hout, Hneg. rewrite Ht in Hl. injection Hl as <-.
  destruct Hin as (a & Ha & _ & Hf); [lia|].
  injection Ha as <-.
  split; [exact Hf|]. split; [apply Hout|apply Hneg]; lia.
Defined.

(** Six allocations; the second reference is freed and comes back. *)
Lemma free_then_alloc_returns_same_witness :
  let ops := [Alloc; Alloc; Alloc; Alloc; Alloc; Alloc] in
  let st := state_after 4 4 ops in
  let st' := free_on st (0, 1) in
  reached no_garbage ops st.1.1 st.1.2 st.2 ∧
  (0, 1) ∈ st.2 ∧
  BLI_mempool_free st.1.1 st.1.2 (0, 1) = Some (st'.1, st'.2) ∧
  (0 < BLI_mempool_count st'.2)%Z ∧
  ∃ h'' pool'',
    BLI_mempool_alloc no_garbage st'.1 st'.2 = Some (h'', pool'', Some (0, 1)).
Proof.
  intros ops st st'.
  assert (reached no_garbage ops st.1.1 st.1.2 st.2) as R
    by solve_reached 4%Z 4%Z.
  assert ((0, 1) ∈ st.2) as Ha by (vm_compute; do 4 right; left).
  assert (BLI_mempool_free st.1.1 st.1.2 (0, 1) = Some (st'.1, st'.2)) as E
    by (vm_compute; reflexivity).
  assert (0 < BLI_mempool_count st'.2)%Z as Hpos by (vm_compute; reflexivity).
  split; [exact R|]. split; [exact Ha|]. split; [exact E|]. split; [exact Hpos|].
  exact (free_then_alloc_returns_same no_garbage _ _ _ _ _ _ _ R Ha E Hpos).
Defined.

(** * Further concrete runs *)

Ltac solve_plain_reached t p :=
  exists (plain_state_after t p []).1.1, (plain_state_after t p []).1.2; split;
  [ exists 0, 16%Z, t, p, 0%Z;
    split; [lia|split; [lia|vm_compute; reflexivity]]
  | vm_compute; reflexivity ].

Lemma calloc_returns_zeroed_element_witness :
  reached no_garbage scenario_ops scenario.1.1 scenario.1.2 scenario.2 ∧
  (BLI_mempool_count scenario.1.2 < INT_MAX)%Z ∧
  ∃ h' pool',
    BLI_mempool_calloc no_garbage scenario.1.1 scenario.1.2
      = Some (h', pool', Some (0, 3)) ∧
    load h' (0, 3) = Some (mk_freenode None 0) ∧
    BLI_mempool_count pool' = 5%Z.
Proof.
  assert (BLI_mempool_count scenario.1.2 < INT_MAX)%Z as Hm
    by (vm_compute; reflexivity).
  split; [exact scenario_reached|]. split; [exact Hm|].
  destruct (calloc_returns_zeroed_element no_garbage _ _ _ _
              scenario_reached Hm) as (h' & pool' & a & E & _ & Hl & Hc & _).
  assert (match BLI_mempool_calloc no_garbage scenario.1.1 scenario.1.2 with
          | Some (_, _, r) => r
          | None => None
          end = Some (0, 3)) as Ha by (vm_compute; reflexivity).
  rewrite E in Ha. injection Ha as ->.
  exists h', pool'. split; [exact E|]. split; [exact Hl|].
  rewrite Hc. vm_compute. reflexivity.
Defined.


Lemma as_tableN_is_filled_witness :
  reached no_garbage scenario_ops scenario.1.1 scenario.1.2 scenario.2 ∧
  allow_iter (flag scenario.1.2) = true ∧
  BLI_mempool_as_tableN scenario.1.1 scenario.1.2
    = Some [Some (0, 0); Some (0, 2); Some (1, 0); Some (1, 1)].
Proof.
  assert (allow_iter (flag scenario.1.2) = true) as Hit
    by (vm_compute; reflexivity).
  assert (BLI_mempool_as_table scenario.1.1 scenario.1.2
          = Some [(0, 0); (0, 2); (1, 0); (1, 1)]) as Ht
    by (vm_compute; reflexivity).
  split; [exact scenario_reached|]. split; [exact Hit|].
  destruct (as_tableN_is_filled no_garbage _ _ _ _ scenario_reached Hit)
    as (l & Hl & HN & _).
  rewrite Ht in Hl. injection Hl as <-. exact HN.
Defined.

Lemma as_array_copies_lent_elements_witness :
  let data := [None; None; None; None; None] in
  reached no_garbage scenario_ops scenario.1.1 scenario.1.2 scenario.2 ∧
  allow_iter (flag scenario.1.2) = true ∧
  ∃ nodes,
    Forall2 (λ a nd, load scenario.1.1 a = Some nd)
            [(0, 0); (0, 2); (1, 0); (1, 1)] nodes ∧
    BLI_mempool_as_array scenario.1.1 scenario.1.2 data
      = Some ((Some <$> nodes) ++ [None]) ∧
    BLI_mempool_as_array scenario.1.1 scenario.1.2 [None; None; None] = None.
Proof.
  intros data.
  assert (allow_iter (flag scenario.1.2) = true) as Hit
    by (vm_compute; reflexivity).
  assert (BLI_mempool_as_table scenario.1.1 scenario.1.2
          = Some [(0, 0); (0, 2); (1, 0); (1, 1)]) as Ht
    by (vm_compute; reflexivity).
  assert (BLI_mempool_count scenario.1.2 = 4%Z) as Hc
    by (vm_compute; reflexivity).
  split; [exact scenario_reached|]. split; [exact Hit|].
  destruct (as_array_copies_lent_elements no_garbage _ _ _ _ data
              scenario_reached Hit) as (l & nodes & Hl & _ & HF & Hfit & _).
  destruct (as_array_copies_lent_elements no_garbage _ _ _ _ [None; None; None]
              scenario_reached Hit) as (_ & _ & _ & _ & _ & _ & Hshort).
  rewrite Ht in Hl. injection Hl as <-. rewrite Hc in Hfit, Hshort.
  exists nodes. split; [exact HF|]. split.
  - apply Hfit. simpl. lia.
  - apply Hshort. simpl. lia.
Defined.

Lemma as_arrayN_copies_lent_elements_witness :
  reached no_garbage scenario_ops scenario.1.1 scenario.1.2 scenario.2 ∧
  allow_iter (flag scenario.1.2) = true ∧
  ∃ nodes,
    Forall2 (λ a nd, load scenario.1.1 a = Some nd)
            [(0, 0); (0, 2); (1, 0); (1, 1)] nodes ∧
    BLI_mempool_as_arrayN scenario.1.1 scenario.1.2 = Some (Some <$> nodes).
Proof.
  assert (allow_iter (flag scenario.1.2) = true) as Hit
    by (vm_compute; reflexivity).
  assert (BLI_mempool_as_table scenario.1.1 scenario.1.2
          = Some [(0, 0); (0, 2); (1, 0); (1, 1)]) as Ht
    by (vm_compute; reflexivity).
  assert (BLI_mempool_count scenario.1.2 * esize scenario.1.2 ≤ INT_MAX)%Z
    as Hfit by (vm_compute; discriminate).
  split; [exact scenario_reached|]. split; [exact Hit|].
  destruct (as_arrayN_copies_lent_elements no_garbage _ _ _ _
              scenario_reached Hit) as (l & nodes & Hl & _ & HF & HN & _).
  rewrite Ht in Hl. injection Hl as <-.
  exists nodes. split; [exact HF|exact (HN Hfit)].
Defined.

(** The cursor behind the last element lent: two free slots are left. *)
Lemma iterstep_stays_at_end_witness :
  BLI_mempool_iterstep scenario.1.1 scenario.1.2 (mk_iter [1] 2)
    = Some (None, mk_iter [] 0) ∧
  BLI_mempool_iterstep scenario.1.1 scenario.1.2 (mk_iter [] 0)
    = Some (None, mk_iter [] 0).
Proof.
  assert (BLI_mempool_iterstep scenario.1.1 scenario.1.2 (mk_iter [1] 2)
          = Some (None, mk_iter [] 0)) as E by (vm_compute; reflexivity).
  split; [exact E|].
  exact (iterstep_stays_at_end _ _ _ _ E).
Defined.

Lemma slots_are_free_or_lent_witness :
  reached no_garbage scenario_ops scenario.1.1 scenario.1.2 scenario.2 ∧
  ∃ fl,
    walk 8 scenario.1.1 (free scenario.1.2) = Some fl ∧
    length fl + length scenario.2 = 8.
Proof.
  split; [exact scenario_reached|].
  destruct (slots_are_free_or_lent no_garbage _ _ _ _ scenario_reached)
    as (fl & Hch & _ & Hlen & _).
  assert (capacity scenario.1.2 = 8) as Hcap by (vm_compute; reflexivity).
  exists fl. split.
  - assert (walk 8 scenario.1.1 (free scenario.1.2)
            = Some [(0, 3); (0, 1); (1, 2); (1, 3)]) as Hw
      by (vm_compute; reflexivity).
    rewrite Hw. f_equal. apply walk_chain in Hw.
    exact (chain_inj _ _ _ _ Hw Hch).
  - rewrite Hlen. exact Hcap.
Defined.

Lemma lent_elements_are_left_alone_witness :
  let st' := alloc_on scenario in
  reached no_garbage scenario_ops scenario.1.1 scenario.1.2 scenario.2 ∧
  (0, 2) ∈ scenario.2 ∧
  BLI_mempool_alloc no_garbage scenario.1.1 scenario.1.2
    = Some (st'.1.1, st'.1.2, st'.2) ∧
  load st'.1.1 (0, 2) = Some (mk_freenode (Some (7, 7)) 1234).
Proof.
  intros st'.
  assert ((0, 2) ∈ scenario.2) as Hb by (vm_compute; do 2 right; left).
  assert (BLI_mempool_alloc no_garbage scenario.1.1 scenario.1.2
          = Some (st'.1.1, st'.1.2, st'.2)) as E by (vm_compute; reflexivity).
  split; [exact scenario_reached|]. split; [exact Hb|]. split; [exact E|].
  destruct (lent_elements_are_left_alone no_garbage _ _ _ _ (0, 2)
              scenario_reached Hb) as [Ha _].
  rewrite (Ha _ _ _ E). vm_compute. reflexivity.
Defined.

(** Six allocations; the second and the fourth reference are handed back and
    come again, the fourth first. *)
Lemma frees_then_allocs_reverse_order_witness :
  let ops := [Alloc; Alloc; Alloc; Alloc; Alloc; Alloc] in
  let st := state_after 4 4 ops in
  let l := [(0, 1); (0, 3)] in
  reached no_garbage ops st.1.1 st.1.2 st.2 ∧
  NoDup l ∧ (∀ a, a ∈ l → a ∈ st.2) ∧ length l < length st.2 ∧
  ∃ h1 pool1 lent1 h2 pool2,
    run no_garbage [Free (0, 1); Free (0, 3)] st.1.1 st.1.2 st.2
      = Some (h1, pool1, lent1) ∧
    run no_garbage [Alloc; Alloc] h1 pool1 lent1
      = Some (h2, pool2, (0, 1) :: (0, 3) :: lent1).
Proof.
  intros ops st l.
  assert (reached no_garbage ops st.1.1 st.1.2 st.2) as R
    by solve_reached 4%Z 4%Z.
  assert (NoDup l) as Hnd
    by (apply (bool_decide_unpack _); vm_compute; exact I).
  assert (∀ a, a ∈ l → a ∈ st.2) as Hin
    by (apply Forall_forall, (bool_decide_unpack _); vm_compute; exact I).
  assert (length l < length st.2) as Hlen by (vm_compute; lia).
  split; [exact R|]. split; [exact Hnd|]. split; [exact Hin|].
  split; [exact Hlen|].
  destruct (frees_then_allocs_reverse_order no_garbage _ _ _ _ l
              R Hnd Hin Hlen)
    as (h1 & pool1 & lent1 & h2 & pool2 & E1 & _ & _ & E2 & _).
  exists h1, pool1, lent1, h2, pool2. split; [exact E1|exact E2].
Defined.

Lemma clear_then_allocs_in_slot_order_witness :
  reached no_garbage scenario_ops scenario.1.1 scenario.1.2 scenario.2 ∧
  3 ≤ Z.to_nat (pchunk scenario.1.2) ∧
  ∃ h' pool' h'' pool'',
    BLI_mempool_clear scenario.1.1 scenario.1.2 = Some (h', pool') ∧
    run no_garbage [Alloc; Alloc; Alloc] h' pool' []
      = Some (h'', pool'', [(0, 2); (0, 1); (0, 0)]).
Proof.
  assert (3 ≤ Z.to_nat (pchunk scenario.1.2)) as Hk by (vm_compute; lia).
  split; [exact scenario_reached|]. split; [exact Hk|].
  destruct (clear_then_allocs_in_slot_order no_garbage _ _ _ _ 3
              scenario_reached Hk)
    as (first & h' & pool' & h'' & pool'' & Hhd & E & E2 & _).
  vm_compute in Hhd. injection Hhd as <-.
  exists h', pool', h'', pool''. split; [exact E|exact E2].
Defined.

(** Four allocations on a pool without iteration; the second reference is
    freed twice. *)
Lemma double_free_hands_out_twice_witness :
  let ops := [Alloc; Alloc; Alloc; Alloc] in
  let st := plain_state_after 4 4 ops in
  reached no_garbage ops st.1.1 st.1.2 st.2 ∧
  allow_iter (flag st.1.2) = false ∧ (0, 1) ∈ st.2 ∧
  (3 ≤ BLI_mempool_count st.1.2)%Z ∧
  ∃ h1 pool1 h2 pool2 h3 pool3 h4 pool4,
    BLI_mempool_free st.1.1 st.1.2 (0, 1) = Some (h1, pool1) ∧
    BLI_mempool_free h1 pool1 (0, 1) = Some (h2, pool2) ∧
    BLI_mempool_count pool2 = 2%Z ∧
    BLI_mempool_alloc no_garbage h2 pool2 = Some (h3, pool3, Some (0, 1)) ∧
    BLI_mempool_alloc no_garbage h3 pool3 = Some (h4, pool4, Some (0, 1)).
Proof.
  intros ops st.
  assert (reached no_garbage ops st.1.1 st.1.2 st.2) as R
    by solve_plain_reached 4%Z 4%Z.
  assert (allow_iter (flag st.1.2) = false) as Hit by (vm_compute; reflexivity).
  assert ((0, 1) ∈ st.2) as Ha by (vm_compute; do 2 right; left).
  assert (3 ≤ BLI_mempool_count st.1.2)%Z as Hc by (vm_compute; discriminate).
  split; [exact R|]. split; [exact Hit|]. split; [exact Ha|].
  split; [exact Hc|].
  destruct (double_free_hands_out_twice no_garbage _ _ _ _ _ R Hit Ha Hc)
    as (h1 & pool1 & h2 & pool2 & h3 & pool3 & h4 & pool4
        & E1 & E2 & Hc2 & _ & E3 & E4 & _).
  exists h1, pool1, h2, pool2, h3, pool3, h4, pool4.
  split; [exact E1|]. split; [exact E2|]. split; [|split; [exact E3|exact E4]].
  rewrite Hc2. vm_compute. reflexivity.
Defined.

(** The client stores the free tag into the element it wrote to before. *)
Lemma free_tag_in_data_hides_element_witness :
  let nd := mk_freenode None FREEWORD in
  let h' := write_on scenario.1.1 (0, 2) nd in
  reached no_garbage scenario_ops scenario.1.1 scenario.1.2 scenario.2 ∧
  allow_iter (flag scenario.1.2) = true ∧ (0, 2) ∈ scenario.2 ∧
  freeword nd = FREEWORD ∧ store scenario.1.1 (0, 2) nd = Some h' ∧
  BLI_mempool_as_table scenario.1.1 scenario.1.2
    = Some [(0, 0); (0, 2); (1, 0); (1, 1)] ∧
  BLI_mempool_as_table h' scenario.1.2 = Some [(0, 0); (1, 0); (1, 1)] ∧
  BLI_mempool_count scenario.1.2 = 4%Z.
Proof.
  intros nd h'.
  assert (allow_iter (flag scenario.1.2) = true) as Hit
    by (vm_compute; reflexivity).
  assert ((0, 2) ∈ scenario.2) as Ha by (vm_compute; do 2 right; left).
  assert (freeword nd = FREEWORD) as Hnd by reflexivity.
  assert (store scenario.1.1 (0, 2) nd = Some h') as Es
    by (vm_compute; reflexivity).
  assert (BLI_mempool_as_table scenario.1.1 scenario.1.2
          = Some [(0, 0); (0, 2); (1, 0); (1, 1)]) as Ht
    by (vm_compute; reflexivity).
  split; [exact scenario_reached|]. split; [exact Hit|]. split; [exact Ha|].
  split; [exact Hnd|]. split; [exact Es|]. split; [exact Ht|].
  destruct (free_tag_in_data_hides_element no_garbage _ _ _ _ _ _ _
              scenario_reached Hit Ha Hnd Es) as (l & Hl & _ & Hl' & _).
  rewrite Ht in Hl. injection Hl as <-.
  split; [exact Hl'|vm_compute; reflexivity].
Defined.


(** Ten allocations on a pool created with two chunks of four slots: a third
    chunk is added for the ninth. *)
Lemma new_pool_allocates_in_slot_order_witness :
  let st := state_after 4 4 [] in
  (0 ≤ 4)%Z ∧ (1 ≤ 4)%Z ∧
  BLI_mempool_create no_garbage (mk_heap 0 ∅) 16 4 4 BLI_MEMPOOL_ALLOW_ITER
    = Some st.1 ∧
  (Z.of_nat 10 ≤ INT_MAX)%Z ∧
  ∃ h' pool',
    run no_garbage (replicate 10 Alloc) st.1.1 st.1.2 []
      = Some (h', pool',
              [(2, 1); (2, 0); (1, 3); (1, 2); (1, 1); (1, 0);
               (0, 3); (0, 2); (0, 1); (0, 0)]) ∧
    chunks pool' = [0; 1; 2] ∧
    BLI_mempool_as_table h' pool'
      = Some [(0, 0); (0, 1); (0, 2); (0, 3); (1, 0); (1, 1); (1, 2); (1, 3);
              (2, 0); (2, 1)].
Proof.
  intros st.
  assert (BLI_mempool_create no_garbage (mk_heap 0 ∅) 16 4 4
            BLI_MEMPOOL_ALLOW_ITER = Some (st.1.1, st.1.2)) as E
    by (vm_compute; reflexivity).
  assert (Z.of_nat 10 ≤ INT_MAX)%Z as Hk by (vm_compute; discriminate).
  split; [lia|]. split; [lia|]. split; [vm_compute; reflexivity|].
  split; [exact Hk|].
  destruct (new_pool_allocates_in_slot_order no_garbage 0 16 4 4
              BLI_MEMPOOL_ALLOW_ITER st.1.1 st.1.2 10
              ltac:(lia) ltac:(lia) E Hk)
    as (h' & pool' & R & Hcs & Hpc & Hcap & Hgrow & Ht).
  exists h', pool'. split; [exact R|]. split.
  - assert (chunks pool' = seq 0 3) as Hc; [|exact Hc].
    unfold capacity in Hcap, Hgrow. rewrite Hpc in Hcap, Hgrow.
    assert (chunks st.1.2 = [0; 1]) as Hc0 by (vm_compute; reflexivity).
    rewrite Hcs. f_equal. destruct Hgrow as [Hsame|Hlt].
    + rewrite Hsame, Hc0 in Hcap. simpl in Hcap. lia.
    + simpl in Hcap, Hlt. lia.
  - exact (Ht eq_refl).
Defined.


Lemma create_with_negative_estimate_witness :
  (1 ≤ 4)%Z ∧ (INT_MIN ≤ -8 < 0)%Z ∧ (Z.max 16 16 * 4 ≤ INT_MAX)%Z ∧
  BLI_mempool_create no_garbage (mk_heap 0 ∅) 16 (-8) 4 0
    = Some (mk_heap 0 ∅, mk_mempool [] 16 64 4 0 None 0) ∧
  BLI_mempool_create no_garbage (mk_heap 0 ∅) 16 (-7) 4 0
    = BLI_mempool_create no_garbage (mk_heap 0 ∅) 16 0 4 0.
Proof.
  assert (INT_MIN ≤ -8 < 0)%Z as H8 by (unfold INT_MIN; lia).
  assert (INT_MIN ≤ -7 < 0)%Z as H7 by (unfold INT_MIN; lia).
  assert (Z.max 16 16 * 4 ≤ INT_MAX)%Z as Hcs by (vm_compute; discriminate).
  split; [lia|]. split; [exact H8|]. split; [exact Hcs|].
  destruct (create_with_negative_estimate no_garbage 0 16 (-8) 4 0
              ltac:(lia) H8 Hcs) as [_ Hlow].
  destruct (create_with_negative_estimate no_garbage 0 16 (-7) 4 0
              ltac:(lia) H7 Hcs) as [Hhigh _].
  split.
  - destruct (Hlow ltac:(lia)) as (E & _). exact E.
  - apply Hhigh. lia.
Defined.

Lemma alloc_then_free_restores_witness :
  let st' := alloc_on scenario in
  reached no_garbage scenario_ops scenario.1.1 scenario.1.2 scenario.2 ∧
  free scenario.1.2 ≠ None ∧ (1 ≤ BLI_mempool_count scenario.1.2)%Z ∧
  BLI_mempool_alloc no_garbage scenario.1.1 scenario.1.2
    = Some (st'.1.1, st'.1.2, Some (0, 3)) ∧
  BLI_mempool_free st'.1.1 st'.1.2 (0, 3)
    = Some (scenario.1.1, scenario.1.2).
Proof.
  intros st'.
  assert (free scenario.1.2 ≠ None) as Hf by (vm_compute; discriminate).
  assert (1 ≤ BLI_mempool_count scenario.1.2)%Z as Hc
    by (vm_compute; discriminate).
  assert (BLI_mempool_alloc no_garbage scenario.1.1 scenario.1.2
          = Some (st'.1.1, st'.1.2, Some (0, 3))) as E
    by (vm_compute; reflexivity).
  split; [exact scenario_reached|]. split; [exact Hf|]. split; [exact Hc|].
  split; [exact E|].
  exact (alloc_then_free_restores no_garbage _ _ _ _ _ _ _
           scenario_reached Hf Hc E).
Defined.

Lemma clear_is_idempotent_witness :
  let st' := clear_on scenario in
  reached no_garbage scenario_ops scenario.1.1 scenario.1.2 scenario.2 ∧
  BLI_mempool_clear scenario.1.1 scenario.1.2 = Some (st'.1, st'.2) ∧
  BLI_mempool_clear st'.1 st'.2 = Some (st'.1, st'.2).
Proof.
  intros st'.
  assert (BLI_mempool_clear scenario.1.1 scenario.1.2 = Some (st'.1, st'.2))
    as E by (vm_compute; reflexivity).
  split; [exact scenario_reached|]. split; [exact E|].
  exact (clear_is_idempotent no_garbage _ _ _ _ _ _ scenario_reached E).
Defined.

(** Three chunks and one allocation: its free and a clear give the same. *)
Lemma free_of_last_element_is_clear_witness :
  let st := state_after 8 4 [Alloc] in
  reached no_garbage [Alloc] st.1.1 st.1.2 [(0, 0)] ∧
  chunks st.1.2 = [0; 1; 2] ∧
  BLI_mempool_free st.1.1 st.1.2 (0, 0) = BLI_mempool_clear st.1.1 st.1.2 ∧
  chunks (clear_on st).2 = [0].
Proof.
  intros st.
  assert (reached no_garbage [Alloc] st.1.1 st.1.2 [(0, 0)]) as R
    by solve_reached 8%Z 4%Z.
  split; [exact R|]. split; [vm_compute; reflexivity|].
  split; [|vm_compute; reflexivity].
  exact (free_of_last_element_is_clear no_garbage _ _ _ _ R).
Defined.
